(** * min-tools / prometheus: the bucket-summary metrics parser

    A shallow embedding of [prometheus/bucket_summary.go], the properties
    its specification states about it, and further properties of the parser,
    the two reports and the command line.  Go strings are byte strings and are
    modelled by [string] (a list of 8-bit characters); [int64] is modelled by
    [Z] with the two's-complement wrap-around of Go's arithmetic written out;
    Go maps are modelled by stdpp's [gmap]. *)

From Stdlib Require Import ZArith String Ascii.
From Stdlib Require Import Floats.SpecFloat.
From stdpp Require Import gmap strings list fin_maps sorting pretty.

Local Open Scope string_scope.
Local Open Scope Z_scope.

(** ** Machine integers *)

Module Int64.

Definition min_int : Z := - 2 ^ 63.
Definition max_int : Z := 2 ^ 63 - 1.

(** Two's-complement reduction of an integer to the [int64] range. *)
Definition wrap (z : Z) : Z := (z + 2 ^ 63) mod 2 ^ 64 - 2 ^ 63.

Definition in_range (z : Z) : Prop := min_int <= z <= max_int.

Definition in_rangeb (z : Z) : bool := (min_int <=? z) && (z <=? max_int).

(** Go's [+] on [int64]. *)
Definition add (a b : Z) : Z := wrap (a + b).

End Int64.

(** ** Byte classes and the string helpers of Go's [strings] package *)

Definition byte_in (lo hi c : ascii) : bool :=
  (N_of_ascii lo <=? N_of_ascii c)%N && (N_of_ascii c <=? N_of_ascii hi)%N.

Definition isDigit (c : ascii) : bool := byte_in "0" "9" c.

Definition isLetter (c : ascii) : bool := byte_in "A" "Z" c || byte_in "a" "z" c.

(** [p] is an initial segment of [s]. *)
Fixpoint isPrefix (p s : string) : bool :=
  match p with
  | EmptyString => true
  | String a p' =>
      match s with
      | EmptyString => false
      | String b s' => Ascii.eqb a b && isPrefix p' s'
      end
  end.

(** [strings.HasPrefix s p]. *)
Definition HasPrefix (s p : string) : bool := isPrefix p s.

(** [strings.Contains s sub]: [sub] occurs in [s] at some offset. *)
Fixpoint Contains (s sub : string) : bool :=
  isPrefix sub s ||
  match s with
  | EmptyString => false
  | String _ rest => Contains rest sub
  end.

(** ** [normalizeRange] *)

(** The first loop of [normalizeRange]: every byte is copied, and an
    underscore is written after a digit that is followed by a letter. *)
Fixpoint insertUnderscores (s : string) : string :=
  match s with
  | EmptyString => EmptyString
  | String c rest =>
      match rest with
      | EmptyString => String c EmptyString
      | String d _ =>
          if isDigit c && isLetter d
          then String c (String "_" (insertUnderscores rest))
          else String c (insertUnderscores rest)
      end
  end.

(** [strings.ReplaceAll cur "__" "_"]: non-overlapping occurrences, scanned
    from the left. *)
Fixpoint replaceDouble (s : string) : string :=
  match s with
  | EmptyString => EmptyString
  | String c rest =>
      match rest with
      | EmptyString => String c EmptyString
      | String d rest' =>
          if Ascii.eqb c "_" && Ascii.eqb d "_"
          then String "_" (replaceDouble rest')
          else String c (replaceDouble rest)
      end
  end.

(** The loop [for strings.Contains(cur, "__") { cur = ReplaceAll(...) }];
    [fuel] bounds the number of iterations. *)
Fixpoint collapseLoop (fuel : nat) (cur : string) : string :=
  match fuel with
  | O => cur
  | S fuel' =>
      if Contains cur "__" then collapseLoop fuel' (replaceDouble cur) else cur
  end.

Definition normalizeRange (r : string) : string :=
  if String.eqb r "" then r
  else
    let cur := insertUnderscores r in
    collapseLoop (String.length cur) cur.

(** ** Unicode white space, [strings.TrimSpace] and [strings.Fields]

    Both functions decode the string as UTF-8 and test [unicode.IsSpace].
    The encodings of the white-space runes are self-synchronising byte
    patterns: none of them can start inside another valid rune, and an
    invalid byte decodes to U+FFFD, which is not a space.  Scanning for the
    patterns byte by byte therefore finds exactly the runes that Go's
    decoder classifies as space. *)

Definition byteN (c : ascii) : N := N_of_ascii c.

(** Width in bytes of the white-space rune that starts [s]; [0] when [s]
    does not start with one.  One byte: TAB, LF, VT, FF, CR, SPACE.  Two
    bytes: U+0085, U+00A0.  Three bytes: U+1680, U+2000..U+200A, U+2028,
    U+2029, U+202F, U+205F, U+3000. *)
Definition spaceWidth (s : string) : nat :=
  match s with
  | EmptyString => 0%nat
  | String c0 r0 =>
      let b0 := byteN c0 in
      if ((9 <=? b0) && (b0 <=? 13) || (b0 =? 32))%N then 1%nat
      else
        match r0 with
        | EmptyString => 0%nat
        | String c1 r1 =>
            let b1 := byteN c1 in
            if ((b0 =? 194) && ((b1 =? 133) || (b1 =? 160)))%N then 2%nat
            else
              match r1 with
              | EmptyString => 0%nat
              | String c2 _ =>
                  let b2 := byteN c2 in
                  if ((b0 =? 225) && (b1 =? 154) && (b2 =? 128)
                      || (b0 =? 226) && (b1 =? 128)
                         && ((128 <=? b2) && (b2 <=? 138)
                             || (b2 =? 168) || (b2 =? 169) || (b2 =? 175))
                      || (b0 =? 226) && (b1 =? 129) && (b2 =? 159)
                      || (b0 =? 227) && (b1 =? 128) && (b2 =? 128))%N
                  then 3%nat else 0%nat
              end
        end
  end.

(** [s] consists of white-space runes only ([skip] bytes of the current
    rune are still to be passed). *)
Fixpoint allSpace (skip : nat) (s : string) : bool :=
  match s with
  | EmptyString => true
  | String _ rest =>
      match skip with
      | S k => allSpace k rest
      | O =>
          match spaceWidth s with
          | O => false
          | S k => allSpace k rest
          end
      end
  end.

Fixpoint trimLeft (skip : nat) (s : string) : string :=
  match s with
  | EmptyString => EmptyString
  | String _ rest =>
      match skip with
      | S k => trimLeft k rest
      | O =>
          match spaceWidth s with
          | O => s
          | S k => trimLeft k rest
          end
      end
  end.

Fixpoint trimRight (s : string) : string :=
  match s with
  | EmptyString => EmptyString
  | String c rest => if allSpace 0 s then EmptyString else String c (trimRight rest)
  end.

(** [strings.TrimSpace]. *)
Definition TrimSpace (s : string) : string := trimRight (trimLeft 0 s).

Definition flushField (cur : string) : list string :=
  if String.eqb cur "" then [] else [cur].

(** The scan of [strings.Fields]: [cur] is the field being read. *)
Fixpoint splitFields (skip : nat) (cur : string) (s : string) : list string :=
  match s with
  | EmptyString => flushField cur
  | String c rest =>
      match skip with
      | S k => splitFields k cur rest
      | O =>
          match spaceWidth s with
          | O => splitFields 0 (cur ++ String c EmptyString) rest
          | S k => flushField cur ++ splitFields k EmptyString rest
          end
      end
  end.

(** [strings.Fields]. *)
Definition Fields (s : string) : list string := splitFields 0 EmptyString s.

(** ** Label extraction

    [regexp.MustCompile(key + `="([^"]+)"`).FindStringSubmatch(line)]: the
    leftmost offset at which [key="] is followed by one or more bytes other
    than the double quote and then by a double quote; the submatch is those
    bytes. *)

Definition dquote : ascii := "034"%char.

Fixpoint stripPrefix (p s : string) : option string :=
  match p with
  | EmptyString => Some s
  | String a p' =>
      match s with
      | EmptyString => None
      | String b s' => if Ascii.eqb a b then stripPrefix p' s' else None
      end
  end.

(** The bytes of [s] up to its first double quote; [None] without one. *)
Fixpoint untilQuote (s : string) : option string :=
  match s with
  | EmptyString => None
  | String c rest =>
      if Ascii.eqb c dquote then Some EmptyString
      else option_map (String c) (untilQuote rest)
  end.

Definition matchLabelAt (key s : string) : option string :=
  match stripPrefix (key ++ String "=" (String dquote EmptyString)) s with
  | None => None
  | Some rest =>
      match untilQuote rest with
      | Some v => if String.eqb v "" then None else Some v
      | None => None
      end
  end.

Fixpoint findLabel (key s : string) : option string :=
  match matchLabelAt key s with
  | Some v => Some v
  | None =>
      match s with
      | EmptyString => None
      | String _ rest => findLabel key rest
      end
  end.

Definition extractLabel (key line : string) : string :=
  match findLabel key line with
  | Some v => v
  | None => ""
  end.

Definition extractBucketName (line : string) : string := extractLabel "bucket" line.

Definition extractServerName (line : string) : string := extractLabel "server" line.

Definition extractRange (line : string) : string := extractLabel "range" line.

(** ** [strconv.ParseInt] in base 10 at 64 bits *)

Inductive NumError := ErrSyntax | ErrRange.

Definition digitValue (c : ascii) : Z := Z.of_N (byteN c) - 48.

(** The digit loop of [strconv.ParseUint]: a byte that is not a digit is a
    syntax error, a value past [2^64 - 1] is a range error, each reported at
    the byte where it is met. *)
Fixpoint parseUintLoop (n : Z) (s : string) : Z * option NumError :=
  match s with
  | EmptyString => (n, None)
  | String c rest =>
      if isDigit c then
        let n1 := n * 10 + digitValue c in
        if 2 ^ 64 <=? n1 then (2 ^ 64 - 1, Some ErrRange)
        else parseUintLoop n1 rest
      else (0, Some ErrSyntax)
  end.

Definition ParseUint (s : string) : Z * option NumError :=
  if String.eqb s "" then (0, Some ErrSyntax) else parseUintLoop 0 s.

Definition ParseInt (s : string) : Z * option NumError :=
  match s with
  | EmptyString => (0, Some ErrSyntax)
  | String c rest =>
      let neg := Ascii.eqb c "-" in
      let s1 := if Ascii.eqb c "+" || neg then rest else s in
      match ParseUint s1 with
      | (_, Some ErrSyntax) => (0, Some ErrSyntax)
      | (un, _) =>
          let cutoff := 2 ^ 63 in
          if negb neg && (cutoff <=? un) then (cutoff - 1, Some ErrRange)
          else if neg && (cutoff <? un) then (- cutoff, Some ErrRange)
          else
            let n := Int64.wrap un in
            (if neg then Int64.wrap (- n) else n, None)
      end
  end.

(** ** [strconv.ParseFloat] at 64 bits

    Binary64 values are [spec_float]s of precision 53 and maximal exponent
    1024.  [strconv] documents the result as the nearest floating-point
    number, rounded to even; its three algorithms (the exact fast path,
    Eisel-Lemire, the multi-precision fallback) agree on it.  The model
    reads the literal with the control flow of [readFloat] and rounds its
    exact value once. *)

Definition prec64 : Z := 53.
Definition emax64 : Z := 1024.

(** The binary64 nearest to [num / den], ties to even. *)
Definition float64_of_ratio (neg : bool) (num den : positive) : spec_float :=
  SFdiv prec64 emax64 (S754_finite neg num 0) (S754_finite false den 0).

(** The binary64 nearest to [m * base ^ x], for [m >= 0]. *)
Definition float64_of_scaled (neg : bool) (m base x : Z) : spec_float :=
  match m with
  | Zpos p =>
      if 0 <=? x then float64_of_ratio neg (Z.to_pos (m * base ^ x)) 1
      else float64_of_ratio neg p (Z.to_pos (base ^ (- x)))
  | _ => S754_zero neg
  end.

Definition lowerByte (c : ascii) : ascii :=
  if byte_in "A" "Z" c then ascii_of_N (byteN c + 32) else c.

Fixpoint lowerString (s : string) : string :=
  match s with
  | EmptyString => EmptyString
  | String c rest => String (lowerByte c) (lowerString rest)
  end.

Definition isInfWord (s : string) : bool :=
  let l := lowerString s in String.eqb l "inf" || String.eqb l "infinity".

(** [special]: the literals for infinities and NaN that span the whole
    string. *)
Definition special (s : string) : option spec_float :=
  match s with
  | EmptyString => None
  | String c rest =>
      if Ascii.eqb c "+" || Ascii.eqb c "-" then
        if isInfWord rest then Some (S754_infinity (Ascii.eqb c "-")) else None
      else if isInfWord s then Some (S754_infinity false)
      else if String.eqb (lowerString s) "nan" then Some S754_nan
      else None
  end.

Definition isHexLetter (c : ascii) : bool := byte_in "a" "f" (lowerByte c).

Definition hexLetterValue (c : ascii) : Z := Z.of_N (byteN (lowerByte c)) - 97 + 10.

(** The state of [readFloat]'s mantissa loop.  [rf_mant] holds every
    significant digit read ([readFloat] keeps 19 and a truncation flag, which
    the algorithms behind it make up for), [rf_nd] their number, [rf_dp] the
    position of the point. *)
Record MantState := {
  rf_mant : Z;
  rf_nd : Z;
  rf_dp : Z;
  rf_sawdot : bool;
  rf_sawdigits : bool;
  rf_underscores : bool
}.

Definition mantStart : MantState :=
  {| rf_mant := 0; rf_nd := 0; rf_dp := 0;
     rf_sawdot := false; rf_sawdigits := false; rf_underscores := false |}.

Definition pushDigit (base d : Z) (st : MantState) : MantState :=
  {| rf_mant := rf_mant st * base + d; rf_nd := rf_nd st + 1; rf_dp := rf_dp st;
     rf_sawdot := rf_sawdot st; rf_sawdigits := true;
     rf_underscores := rf_underscores st |}.

Definition skipLeadingZero (st : MantState) : MantState :=
  {| rf_mant := rf_mant st; rf_nd := rf_nd st; rf_dp := rf_dp st - 1;
     rf_sawdot := rf_sawdot st; rf_sawdigits := true;
     rf_underscores := rf_underscores st |}.

Definition markDot (st : MantState) : MantState :=
  {| rf_mant := rf_mant st; rf_nd := rf_nd st; rf_dp := rf_nd st;
     rf_sawdot := true; rf_sawdigits := rf_sawdigits st;
     rf_underscores := rf_underscores st |}.

Definition markUnderscore (st : MantState) : MantState :=
  {| rf_mant := rf_mant st; rf_nd := rf_nd st; rf_dp := rf_dp st;
     rf_sawdot := rf_sawdot st; rf_sawdigits := rf_sawdigits st;
     rf_underscores := true |}.

(** The mantissa loop; returns the state and the unread rest. *)
Fixpoint readMantissa (hex : bool) (st : MantState) (s : string) : MantState * string :=
  match s with
  | EmptyString => (st, s)
  | String c rest =>
      if Ascii.eqb c "_" then readMantissa hex (markUnderscore st) rest
      else if Ascii.eqb c "." then
        if rf_sawdot st then (st, s) else readMantissa hex (markDot st) rest
      else if isDigit c then
        if Ascii.eqb c "0" && (rf_nd st =? 0) then readMantissa hex (skipLeadingZero st) rest
        else readMantissa hex (pushDigit (if hex then 16 else 10) (digitValue c) st) rest
      else if hex && isHexLetter c then
        readMantissa hex (pushDigit 16 (hexLetterValue c) st) rest
      else (st, s)
  end.

(** The digits of the exponent; the value stops growing at 10000. *)
Fixpoint readExpDigits (e : Z) (us : bool) (s : string) : Z * bool * string :=
  match s with
  | EmptyString => (e, us, s)
  | String c rest =>
      if isDigit c then
        readExpDigits (if e <? 10000 then e * 10 + digitValue c else e) us rest
      else if Ascii.eqb c "_" then readExpDigits e true rest
      else (e, us, s)
  end.

Inductive Saw := SawStart | SawDigit | SawUnderscore | SawOther.

Definition Saw_eqb (a b : Saw) : bool :=
  match a, b with
  | SawStart, SawStart | SawDigit, SawDigit
  | SawUnderscore, SawUnderscore | SawOther, SawOther => true
  | _, _ => false
  end.

Fixpoint underscoreScan (hex : bool) (saw : Saw) (s : string) : bool :=
  match s with
  | EmptyString => negb (Saw_eqb saw SawUnderscore)
  | String c rest =>
      if isDigit c || hex && isHexLetter c then underscoreScan hex SawDigit rest
      else if Ascii.eqb c "_" then
        if Saw_eqb saw SawDigit then underscoreScan hex SawUnderscore rest else false
      else if Saw_eqb saw SawUnderscore then false
      else underscoreScan hex SawOther rest
  end.

(** [underscoreOK]: underscores only between digits, or between a base
    prefix and a digit. *)
Definition underscoreOK (s : string) : bool :=
  let s1 :=
    match s with
    | String c rest => if Ascii.eqb c "-" || Ascii.eqb c "+" then rest else s
    | EmptyString => s
    end in
  match s1 with
  | String c0 (String c1 rest) =>
      let l := lowerByte c1 in
      if Ascii.eqb c0 "0" && (Ascii.eqb l "b" || Ascii.eqb l "o" || Ascii.eqb l "x")
      then underscoreScan (Ascii.eqb l "x") SawDigit rest
      else underscoreScan false SawStart s1
  | _ => underscoreScan false SawStart s1
  end.

(** What [readFloat] returns for a literal that it accepts and that spans
    the whole string: sign, base, the digits as an integer and the exponent
    of the base that scales them. *)
Record FloatLiteral := {
  fl_neg : bool;
  fl_hex : bool;
  fl_mant : Z;
  fl_exp : Z
}.

Definition readFloat (s : string) : option FloatLiteral :=
  match s with
  | EmptyString => None
  | String c rest =>
      let neg := Ascii.eqb c "-" in
      let s1 := if Ascii.eqb c "+" || neg then rest else s in
      let '(hex, s2) :=
        match s1 with
        | String c0 (String c1 ((String _ _) as tl)) =>
            if Ascii.eqb c0 "0" && Ascii.eqb (lowerByte c1) "x" then (true, tl) else (false, s1)
        | _ => (false, s1)
        end in
      let '(st, s3) := readMantissa hex mantStart s2 in
      if negb (rf_sawdigits st) then None
      else
        let dp0 := if rf_sawdot st then rf_dp st else rf_nd st in
        let dp1 := if hex then dp0 * 4 else dp0 in
        let nd1 := if hex then rf_nd st * 4 else rf_nd st in
        let expChar : ascii := if hex then "p"%char else "e"%char in
        let tail : option (Z * bool * string) :=
          match s3 with
          | String x s4 =>
              if Ascii.eqb (lowerByte x) expChar then
                match s4 with
                | EmptyString => None
                | String sg s5 =>
                    let esign := if Ascii.eqb sg "-" then -1 else 1 in
                    let s6 := if Ascii.eqb sg "+" || Ascii.eqb sg "-" then s5 else s4 in
                    match s6 with
                    | EmptyString => None
                    | String d _ =>
                        if isDigit d then
                          let '(e, us, s7) := readExpDigits 0 (rf_underscores st) s6 in
                          Some (dp1 + e * esign, us, s7)
                        else None
                    end
                end
              else if hex then None
              else Some (dp1, rf_underscores st, s3)
          | EmptyString => if hex then None else Some (dp1, rf_underscores st, s3)
          end in
        match tail with
        | None => None
        | Some (dp2, us, unread) =>
            if us && negb (underscoreOK s) then None
            else if negb (String.eqb unread "") then None
            else
              Some {| fl_neg := neg; fl_hex := hex; fl_mant := rf_mant st;
                      fl_exp := if rf_mant st =? 0 then 0 else dp2 - nd1 |}
        end
  end.

(** [strconv.ParseFloat s 64]: the value and whether an error is returned
    (a syntax error, or the range error of a literal that rounds to an
    infinity). *)
Definition ParseFloat (s : string) : spec_float * option NumError :=
  match special s with
  | Some f => (f, None)
  | None =>
      match readFloat s with
      | None => (S754_zero false, Some ErrSyntax)
      | Some l =>
          let f := float64_of_scaled (fl_neg l) (fl_mant l)
                     (if fl_hex l then 2 else 10) (fl_exp l) in
          match f with
          | S754_infinity _ => (f, Some ErrRange)
          | _ => (f, None)
          end
      end
  end.

(** ** Conversions between [int64] and [float64] *)

(** The value of a finite binary64 truncated toward zero. *)
Definition truncToZero (f : spec_float) : option Z :=
  match f with
  | S754_zero _ => Some 0
  | S754_finite s m e =>
      let mag := if 0 <=? e then Zpos m * 2 ^ e else Zpos m / 2 ^ (- e) in
      Some (if s then - mag else mag)
  | _ => None
  end.

(** [int64(f)]: the value truncated toward zero.  For NaN, the infinities
    and values outside [int64] the Go specification leaves the result to the
    implementation; the model takes amd64's, the most negative integer. *)
Definition float64_to_int64 (f : spec_float) : Z :=
  match truncToZero f with
  | Some v => if Int64.in_rangeb v then v else Int64.min_int
  | None => Int64.min_int
  end.

(** [float64(n)]: the nearest binary64, ties to even. *)
Definition float64_of_int64 (n : Z) : spec_float :=
  binary_normalize prec64 emax64 n 0 false.

(** ** [extractValue] *)

Definition extractValue (line : string) : Z :=
  let parts := Fields line in
  match last parts with
  | Some valueStr =>
      match ParseInt valueStr with
      | (value, None) => value
      | _ =>
          match ParseFloat valueStr with
          | (valueF, None) => float64_to_int64 valueF
          | _ => 0
          end
      end
  | None => 0
  end.

(** ** [formatBytes] *)

(** [%d] of [fmt]. *)
Definition formatInt (n : Z) : string := pretty n.

(** [%.1f] of [fmt] for a binary64 that is not negative: the exact value
    rounded to tenths, ties to even. *)
Definition formatFixed1 (f : spec_float) : string :=
  let tenths :=
    match f with
    | S754_finite _ m e =>
        if 0 <=? e then Zpos m * 2 ^ e * 10
        else
          let d := 2 ^ (- e) in
          let q := Zpos m * 10 / d in
          let r := Zpos m * 10 mod d in
          match 2 * r ?= d with
          | Lt => q
          | Eq => if Z.even q then q else q + 1
          | Gt => q + 1
          end
    | _ => 0
    end in
  formatInt (tenths / 10) ++ "." ++ formatInt (tenths mod 10).

(** The loop [for n := bytes / unit; n >= unit; n /= unit]; it runs at most
    five times on an [int64]. *)
Fixpoint unitLoop (fuel : nat) (n div : Z) (exp : nat) : Z * nat :=
  match fuel with
  | O => (div, exp)
  | S fuel' =>
      if 1024 <=? n then unitLoop fuel' (n / 1024) (div * 1024) (S exp)
      else (div, exp)
  end.

Definition formatBytes (bytes : Z) : string :=
  if bytes <? 1024 then formatInt bytes ++ " B"
  else
    let '(div, exp) := unitLoop 6 (bytes / 1024) 1024 0 in
    let q := SFdiv prec64 emax64 (float64_of_int64 bytes) (float64_of_int64 div) in
    let unitChar :=
      match String.get exp "KMGTPE" with
      | Some c => String c EmptyString
      | None => EmptyString
      end in
    formatFixed1 q ++ " " ++ unitChar ++ "B".

(** ** The aggregate state *)

Record BucketSummary := {
  Name : string;
  ObjectCount : Z;
  SizeBytes : Z;
  SizeHuman : string;
  Servers : list string;
  VersionDistribution : gmap string Z;
  SizeDistribution : gmap string Z
}.

Record MetricParser := {
  buckets : gmap string BucketSummary;
  ClusterObjects : Z;
  ClusterBytes : Z;
  ClusterVersionDist : gmap string Z;
  ClusterSizeDist : gmap string Z
}.

Record DisplayOptions := {
  ShowVersions : bool;
  ShowSizes : bool;
  Cluster : bool
}.

Definition NewMetricParser : MetricParser :=
  {| buckets := ∅; ClusterObjects := 0; ClusterBytes := 0;
     ClusterVersionDist := ∅; ClusterSizeDist := ∅ |}.

(** The value a Go map yields for [m[k]]: zero for a missing key. *)
Definition mapGet (m : gmap string Z) (k : string) : Z := default 0 (m !! k).

(** [m[k] += v]. *)
Definition mapAdd (m : gmap string Z) (k : string) (v : Z) : gmap string Z :=
  <[k := Int64.add (mapGet m k) v]> m.

Definition newBucket (name : string) : BucketSummary :=
  {| Name := name; ObjectCount := 0; SizeBytes := 0; SizeHuman := "";
     Servers := []; VersionDistribution := ∅; SizeDistribution := ∅ |}.

Definition addServer (bs : BucketSummary) (server : string) : BucketSummary :=
  if existsb (String.eqb server) (Servers bs) then bs
  else
    {| Name := Name bs; ObjectCount := ObjectCount bs; SizeBytes := SizeBytes bs;
       SizeHuman := SizeHuman bs; Servers := Servers bs ++ [server];
       VersionDistribution := VersionDistribution bs;
       SizeDistribution := SizeDistribution bs |}.

Definition addObjects (bs : BucketSummary) (value : Z) : BucketSummary :=
  {| Name := Name bs; ObjectCount := Int64.add (ObjectCount bs) value;
     SizeBytes := SizeBytes bs; SizeHuman := SizeHuman bs; Servers := Servers bs;
     VersionDistribution := VersionDistribution bs;
     SizeDistribution := SizeDistribution bs |}.

Definition addBytes (bs : BucketSummary) (value : Z) : BucketSummary :=
  let size := Int64.add (SizeBytes bs) value in
  {| Name := Name bs; ObjectCount := ObjectCount bs;
     SizeBytes := size; SizeHuman := formatBytes size; Servers := Servers bs;
     VersionDistribution := VersionDistribution bs;
     SizeDistribution := SizeDistribution bs |}.

Definition addVersionRange (bs : BucketSummary) (key : string) (value : Z) : BucketSummary :=
  {| Name := Name bs; ObjectCount := ObjectCount bs; SizeBytes := SizeBytes bs;
     SizeHuman := SizeHuman bs; Servers := Servers bs;
     VersionDistribution := mapAdd (VersionDistribution bs) key value;
     SizeDistribution := SizeDistribution bs |}.

Definition addSizeRange (bs : BucketSummary) (key : string) (value : Z) : BucketSummary :=
  {| Name := Name bs; ObjectCount := ObjectCount bs; SizeBytes := SizeBytes bs;
     SizeHuman := SizeHuman bs; Servers := Servers bs;
     VersionDistribution := VersionDistribution bs;
     SizeDistribution := mapAdd (SizeDistribution bs) key value |}.

Definition setBuckets (mp : MetricParser) (b : gmap string BucketSummary) : MetricParser :=
  {| buckets := b; ClusterObjects := ClusterObjects mp;
     ClusterBytes := ClusterBytes mp;
     ClusterVersionDist := ClusterVersionDist mp;
     ClusterSizeDist := ClusterSizeDist mp |}.

Definition setClusterObjects (mp : MetricParser) (v : Z) : MetricParser :=
  {| buckets := buckets mp; ClusterObjects := v; ClusterBytes := ClusterBytes mp;
     ClusterVersionDist := ClusterVersionDist mp;
     ClusterSizeDist := ClusterSizeDist mp |}.

Definition setClusterBytes (mp : MetricParser) (v : Z) : MetricParser :=
  {| buckets := buckets mp; ClusterObjects := ClusterObjects mp; ClusterBytes := v;
     ClusterVersionDist := ClusterVersionDist mp;
     ClusterSizeDist := ClusterSizeDist mp |}.

Definition setClusterVersionDist (mp : MetricParser) (m : gmap string Z) : MetricParser :=
  {| buckets := buckets mp; ClusterObjects := ClusterObjects mp;
     ClusterBytes := ClusterBytes mp; ClusterVersionDist := m;
     ClusterSizeDist := ClusterSizeDist mp |}.

Definition setClusterSizeDist (mp : MetricParser) (m : gmap string Z) : MetricParser :=
  {| buckets := buckets mp; ClusterObjects := ClusterObjects mp;
     ClusterBytes := ClusterBytes mp;
     ClusterVersionDist := ClusterVersionDist mp; ClusterSizeDist := m |}.

(** ** [ParseFile] *)

(** The branch of the loop body for a line without a bucket label. *)
Definition parseClusterLine (mp : MetricParser) (line : string) : MetricParser :=
  if Contains line "minio_cluster_usage_object_total" then
    setClusterObjects mp (Int64.add (ClusterObjects mp) (extractValue line))
  else if Contains line "minio_cluster_usage_total_bytes" then
    setClusterBytes mp (Int64.add (ClusterBytes mp) (extractValue line))
  else if Contains line "minio_cluster_objects_version_distribution" then
    let rangeValue := extractRange line in
    if negb (String.eqb rangeValue "") then
      setClusterVersionDist mp
        (mapAdd (ClusterVersionDist mp) (normalizeRange rangeValue) (extractValue line))
    else mp
  else if Contains line "minio_cluster_objects_size_distribution" then
    let rangeValue := extractRange line in
    if negb (String.eqb rangeValue "") then
      setClusterSizeDist mp
        (mapAdd (ClusterSizeDist mp) (normalizeRange rangeValue) (extractValue line))
    else mp
  else mp.

(** The four family tests applied in turn to the bucket's record. *)
Definition applyBucketMetrics (bucket : BucketSummary) (line : string) : BucketSummary :=
  let b1 :=
    if Contains line "minio_bucket_usage_object_total"
    then addObjects bucket (extractValue line) else bucket in
  let b2 :=
    if Contains line "minio_bucket_usage_total_bytes"
    then addBytes b1 (extractValue line) else b1 in
  let b3 :=
    if Contains line "minio_bucket_objects_version_distribution" then
      let rangeValue := extractRange line in
      if negb (String.eqb rangeValue "")
      then addVersionRange b2 (normalizeRange rangeValue) (extractValue line)
      else b2
    else b2 in
  if Contains line "minio_bucket_objects_size_distribution" then
    let rangeValue := extractRange line in
    if negb (String.eqb rangeValue "")
    then addSizeRange b3 (normalizeRange rangeValue) (extractValue line)
    else b3
  else b3.

(** The branch of the loop body for a line with a bucket label: the record
    is created when missing, the server recorded, the metrics applied. *)
Definition parseBucketLine (mp : MetricParser) (bucketName line : string) : MetricParser :=
  let serverName := extractServerName line in
  let bucket :=
    match buckets mp !! bucketName with
    | Some b => b
    | None => newBucket bucketName
    end in
  setBuckets mp
    (<[bucketName := applyBucketMetrics (addServer bucket serverName) line]> (buckets mp)).

(** Lines that the loop skips: comments and blank lines. *)
Definition skipped (line : string) : bool :=
  HasPrefix line "#" || String.eqb line "".

(** One iteration of the scanner loop on the line [raw]. *)
Definition parseLine (mp : MetricParser) (raw : string) : MetricParser :=
  let line := TrimSpace raw in
  if skipped line then mp
  else
    let bucketName := extractBucketName line in
    if String.eqb bucketName "" then parseClusterLine mp line
    else parseBucketLine mp bucketName line.

(** What [os.Open] and the [bufio.Scanner] present to [ParseFile]: a file
    that cannot be opened, or the lines scanned until [Scan] returned false
    together with the scanner's error (a read error, a line past the
    scanner's buffer), if any. *)
Inductive InputFile :=
  | Unopenable
  | Scanned (lines : list string) (scanErr : bool).

Inductive ParseError := ErrOpen | ErrScan.

(** [ParseFile]: the state after the call and the error returned. *)
Definition ParseFile (mp : MetricParser) (f : InputFile) : MetricParser * option ParseError :=
  match f with
  | Unopenable => (mp, Some ErrOpen)
  | Scanned lines scanErr =>
      (fold_left parseLine lines mp, if scanErr then Some ErrScan else None)
  end.

(** The state of a fresh parser after a file with the given lines. *)
Definition parseLines (lines : list string) : MetricParser :=
  fst (ParseFile NewMetricParser (Scanned lines false)).

(** ** What the Go runtime leaves open

    The order in which [range] visits a map is unspecified, and it changes
    from one loop to the next even over the same map: every execution of a
    [range] loop starts at an entry drawn at random.  [sort.Slice] is some
    unstable comparison sort.  The embedding takes both from a [GoRuntime].
    An execution of a loop is named by the calls that lead to it, numbered
    within their caller from the running call down ([Loop]), and
    [mapRangeAt k m] is the order in which the execution [k] visits [m]:
    any enumeration of the entries, with no relation between two
    executions.  [sortSlice] is any function that returns its input
    permuted so that no element is less than one before it, whenever [less]
    is a strict weak order. *)

Record StrictWeakOrder {A : Type} (less : A → A → bool) : Prop := {
  swo_asym : ∀ x y, less x y = true → less y x = false;
  swo_negtrans : ∀ x y z, less x y = false → less y z = false → less x z = false
}.

(** For [i < j], [less (s[j]) (s[i])] does not hold. *)
Definition SortedBy {A : Type} (less : A → A → bool) (l : list A) : Prop :=
  StronglySorted (λ a b, less b a = false) l.

Definition Loop : Type := list nat.

Class GoRuntime := {
  mapRangeAt : Loop → ∀ {V : Type}, gmap string V → list (string * V);
  mapRangeAt_perm : ∀ (k : Loop) (V : Type) (m : gmap string V),
    mapRangeAt k m ≡ₚ map_to_list m;
  sortSlice : ∀ {A : Type}, (A → A → bool) → list A → list A;
  sortSlice_perm : ∀ (A : Type) (less : A → A → bool) (l : list A),
    sortSlice less l ≡ₚ l;
  sortSlice_sorted : ∀ (A : Type) (less : A → A → bool) (l : list A),
    StrictWeakOrder less → SortedBy less (sortSlice less l)
}.

(** The order taken by the [range] loop that the running call executes
    itself. *)
Definition mapRange `{!GoRuntime} {V : Type} (m : gmap string V) : list (string * V) :=
  mapRangeAt [] m.

(** The runtime as the [i]-th call made by the running call finds it: the
    loops of that call are the loops below [i]. *)
Definition within (i : nat) (H : GoRuntime) : GoRuntime :=
  {| mapRangeAt := λ k V m, @mapRangeAt H (i :: k) V m;
     mapRangeAt_perm := λ k V m, @mapRangeAt_perm H (i :: k) V m;
     sortSlice := @sortSlice H;
     sortSlice_perm := @sortSlice_perm H;
     sortSlice_sorted := @sortSlice_sorted H |}.

(** The insertion sort that [sort.Slice] runs on short slices: each element
    in turn is swapped toward the front while it is less than the element
    before it.  [sortedRev] is the sorted prefix, last element first. *)
Fixpoint insertBack {A : Type} (less : A → A → bool) (x : A) (sortedRev : list A) : list A :=
  match sortedRev with
  | [] => [x]
  | y :: ys => if less x y then y :: insertBack less x ys else x :: sortedRev
  end.

Definition insertionSort {A : Type} (less : A → A → bool) (l : list A) : list A :=
  rev (fold_left (λ acc x, insertBack less x acc) l []).

(** ** Status derivation and itemised details *)

Section Reporter.
Context `{!GoRuntime}.

(** The sum, over the keys other than the two named ones, of the loop in
    [getVersioningStatus]. *)
Definition totalVersioned (versionDist : gmap string Z) : Z :=
  fold_left
    (λ acc kv,
       if negb (String.eqb (fst kv) "UNVERSIONED") && negb (String.eqb (fst kv) "SINGLE_VERSION")
       then Int64.add acc (snd kv) else acc)
    (mapRange versionDist) 0.

Definition getVersioningStatus (versionDist : gmap string Z) : string :=
  if (size versionDist =? 0)%nat then "Unknown"
  else
    let singleVersion := mapGet versionDist "SINGLE_VERSION" in
    let unversioned := mapGet versionDist "UNVERSIONED" in
    let total := totalVersioned versionDist in
    if (0 <? unversioned) && (singleVersion =? 0) && (total =? 0) then "Unversioned"
    else if (0 <? singleVersion) && (total =? 0) then "Single Version"
    else if 0 <? total then "Multi-Version"
    else "Mixed".

End Reporter.

Definition smallCount (sizeDist : gmap string Z) : Z :=
  Int64.add (Int64.add (Int64.add (Int64.add (Int64.add (Int64.add
    (mapGet sizeDist "LESS_THAN_1024_B")
    (mapGet sizeDist "BETWEEN_1024_B_AND_64_KB"))
    (mapGet sizeDist "BETWEEN_1024_B_AND_1_MB"))
    (mapGet sizeDist "BETWEEN_1024B_AND_1_MB"))
    (mapGet sizeDist "BETWEEN_64_KB_AND_256_KB"))
    (mapGet sizeDist "BETWEEN_256_KB_AND_512_KB"))
    (mapGet sizeDist "BETWEEN_512_KB_AND_1_MB").

Definition mediumCount (sizeDist : gmap string Z) : Z :=
  Int64.add (mapGet sizeDist "BETWEEN_1_MB_AND_10_MB")
            (mapGet sizeDist "BETWEEN_10_MB_AND_64_MB").

Definition largeCount (sizeDist : gmap string Z) : Z :=
  Int64.add (Int64.add
    (mapGet sizeDist "BETWEEN_64_MB_AND_128_MB")
    (mapGet sizeDist "BETWEEN_128_MB_AND_512_MB"))
    (mapGet sizeDist "GREATER_THAN_512_MB").

(** [float64(part) / float64(total) * 100]. *)
Definition percentOf (part total : Z) : spec_float :=
  SFmul prec64 emax64
    (SFdiv prec64 emax64 (float64_of_int64 part) (float64_of_int64 total))
    (float64_of_int64 100).

(** [pct >= n] on [float64], for an integer constant [n]. *)
Definition atLeast (pct : spec_float) (n : Z) : bool :=
  SFleb (float64_of_int64 n) pct.

Definition getSizeStatus (sizeDist : gmap string Z) : string :=
  if (size sizeDist =? 0)%nat then "Unknown"
  else
    let small := smallCount sizeDist in
    let medium := mediumCount sizeDist in
    let large := largeCount sizeDist in
    let total := Int64.add (Int64.add small medium) large in
    if total =? 0 then "Empty"
    else
      let smallPct := percentOf small total in
      let mediumPct := percentOf medium total in
      let largePct := percentOf large total in
      if atLeast smallPct 80 then "Mostly Small"
      else if atLeast mediumPct 60 then "Mostly Medium"
      else if atLeast largePct 60 then "Mostly Large"
      else "Mixed Sizes".

(** The ranges in display order, each with the label its [switch] case
    prints. *)
Definition versionRangeOrder : list (string * string) :=
  [ ("UNVERSIONED", "Unversioned");
    ("SINGLE_VERSION", "Single");
    ("BETWEEN_2_AND_10", "2-10v");
    ("BETWEEN_10_AND_100", "10-100v");
    ("BETWEEN_100_AND_1000", "100-1Kv");
    ("BETWEEN_1000_AND_10000", "1K-10Kv");
    ("GREATER_THAN_10000", ">10Kv") ].

Definition sizeRangeOrder : list (string * string) :=
  [ ("LESS_THAN_1024_B", "<1KB");
    ("BETWEEN_1024_B_AND_64_KB", "1KB-64KB");
    ("BETWEEN_64_KB_AND_256_KB", "64KB-256KB");
    ("BETWEEN_256_KB_AND_512_KB", "256KB-512KB");
    ("BETWEEN_512_KB_AND_1_MB", "512KB-1MB");
    ("BETWEEN_1024_B_AND_1_MB", "1KB-1MB");
    ("BETWEEN_1024B_AND_1_MB", "1KB-1MB");
    ("BETWEEN_1_MB_AND_10_MB", "1-10MB");
    ("BETWEEN_10_MB_AND_64_MB", "10-64MB");
    ("BETWEEN_64_MB_AND_128_MB", "64-128MB");
    ("BETWEEN_128_MB_AND_512_MB", "128-512MB");
    ("GREATER_THAN_512_MB", ">512MB") ].

(** The shared body of [formatVersionDistribution] and
    [formatSizeDistribution]. *)
Definition formatDistribution (order : list (string * string)) (dist : gmap string Z) : string :=
  if (size dist =? 0)%nat then "N/A"
  else
    let parts :=
      fold_left
        (λ (parts : list string) (kl : string * string),
           match dist !! fst kl with
           | Some count =>
               if 0 <? count
               then (parts ++ [(snd kl ++ ": " ++ formatInt count)%string])%list
               else parts
           | None => parts
           end)
        order [] in
    if (length parts =? 0)%nat then "All zeros" else String.concat ", " parts.

Definition formatVersionDistribution : gmap string Z → string :=
  formatDistribution versionRangeOrder.

Definition formatSizeDistribution : gmap string Z → string :=
  formatDistribution sizeRangeOrder.

(** ** [GetSummary] and the two printed views *)

Definition clusterName : string := "<cluster-aggregate>".

(** [a.SizeBytes > b.SizeBytes], the [less] handed to [sort.Slice]. *)
Definition bySizeDesc (a b : BucketSummary) : bool := SizeBytes b <? SizeBytes a.

Definition clusterHasData (mp : MetricParser) : bool :=
  (0 <? ClusterObjects mp) || (0 <? ClusterBytes mp)
  || (0 <? size (ClusterVersionDist mp))%nat || (0 <? size (ClusterSizeDist mp))%nat.

Definition clusterSummary (mp : MetricParser) : BucketSummary :=
  {| Name := clusterName; ObjectCount := ClusterObjects mp;
     SizeBytes := ClusterBytes mp; SizeHuman := formatBytes (ClusterBytes mp);
     Servers := [];
     VersionDistribution := ClusterVersionDist mp;
     SizeDistribution := ClusterSizeDist mp |}.

Record TableRow := {
  rowName : string;
  rowObjects : Z;
  rowBytes : Z;
  rowHuman : string;
  rowVersioning : option string;
  rowSizeDist : option string
}.

Record TotalsRow := {
  totalCount : nat;
  totalObjects : Z;
  totalBytes : Z;
  totalHuman : string
}.

(** What [PrintSummaryTable] writes: the message for no data, or the table
    (with the notice that the cluster aggregate stands in, when printed). *)
Inductive TableOutput :=
  | NoBucketData
  | SummaryTable (notice : bool) (header : list string)
      (rows : list TableRow) (totals : TotalsRow).

Record TopEntry := {
  topRank : nat;
  topName : string;
  topObjects : Z;
  topHuman : string;
  topBytes : Z;
  topVersioning : option (string * option string);
  topSizes : option (string * option string)
}.

Inductive TopOutput :=
  | NoTopData
  | TopBuckets (n : Z) (entries : list TopEntry).

Definition tableHeader (opts : DisplayOptions) : list string :=
  (["BUCKET NAME"; "OBJECT COUNT"; "SIZE (BYTES)"; "SIZE (HUMAN)"]
   ++ (if ShowVersions opts then ["VERSIONING"] else [])
   ++ (if ShowSizes opts then ["SIZE DIST"] else []))%list.

(** The name as printed: cut to 37 bytes and an ellipsis past 40. *)
Definition displayName (name : string) : string :=
  if (40 <? String.length name)%nat then String.substring 0 37 name ++ "..." else name.

(** A detail line is printed unless it is one of the two placeholders. *)
Definition detailLine (detail : string) : option string :=
  if String.eqb detail "N/A" || String.eqb detail "All zeros" then None else Some detail.

Definition GetSummary `{H : !GoRuntime} (mp : MetricParser) : list BucketSummary :=
  sortSlice bySizeDesc (map snd (mapRange (buckets mp))).

(** The fallback of both views: with no bucket, the cluster aggregate alone
    if it holds data, and nothing to print otherwise. *)
Definition orClusterFallback (mp : MetricParser) (summaries : list BucketSummary)
  : option (list BucketSummary) :=
  if (length summaries =? 0)%nat then
    if clusterHasData mp then Some (summaries ++ [clusterSummary mp])%list else None
  else Some summaries.

(** The aggregate appended on request, unless a row of that name is there. *)
Definition withRequestedCluster `{H : !GoRuntime} (opts : DisplayOptions)
    (mp : MetricParser) (summaries : list BucketSummary) : list BucketSummary :=
  if Cluster opts && clusterHasData mp then
    if existsb (λ b, String.eqb (Name b) clusterName) summaries then summaries
    else sortSlice bySizeDesc (summaries ++ [clusterSummary mp])%list
  else summaries.

(** The summaries that [PrintSummaryTable] and [PrintTopBuckets] go on to
    print, in order; [None] when they print that no data was found.  The
    call of [GetSummary] is the first call that either view makes. *)
Definition renderedSummaries `{H : !GoRuntime} (opts : DisplayOptions)
    (mp : MetricParser) : option (list BucketSummary) :=
  match orClusterFallback mp (GetSummary (H := within 0 H) mp) with
  | None => None
  | Some summaries => Some (withRequestedCluster opts mp summaries)
  end.

(** The row of a bucket; [H] is the runtime that the call of
    [getVersioningStatus] for this row finds. *)
Definition renderRow `{H : !GoRuntime} (opts : DisplayOptions) (bucket : BucketSummary)
  : TableRow :=
  {| rowName := displayName (Name bucket);
     rowObjects := ObjectCount bucket;
     rowBytes := SizeBytes bucket;
     rowHuman := SizeHuman bucket;
     rowVersioning :=
       if ShowVersions opts then Some (getVersioningStatus (VersionDistribution bucket)) else None;
     rowSizeDist :=
       if ShowSizes opts then Some (getSizeStatus (SizeDistribution bucket)) else None |}.

(** The loop over the summaries: a row is written and the two totals grow.
    The status of a row comes from a call of its own, the calls after that
    of [GetSummary]. *)
Definition renderLoop `{H : !GoRuntime} (opts : DisplayOptions)
    (summaries : list BucketSummary) : list TableRow * Z * Z :=
  fold_left
    (λ acc bucket,
       let '(rows, objects, bytes) := acc in
       ((rows ++ [renderRow (H := within (S (length rows)) H) opts bucket])%list,
        Int64.add objects (ObjectCount bucket),
        Int64.add bytes (SizeBytes bucket)))
    summaries ([], 0, 0).

Definition PrintSummaryTable `{H : !GoRuntime} (mp : MetricParser) (opts : DisplayOptions)
  : TableOutput :=
  let summaries := GetSummary (H := within 0 H) mp in
  match orClusterFallback mp summaries with
  | None => NoBucketData
  | Some summaries1 =>
      let summaries2 := withRequestedCluster opts mp summaries1 in
      let '(rows, objects, bytes) := renderLoop opts summaries2 in
      SummaryTable (length summaries =? 0)%nat (tableHeader opts) rows
        {| totalCount := length summaries2; totalObjects := objects;
           totalBytes := bytes; totalHuman := formatBytes bytes |}
  end.

(** The entry of rank [i + 1]; its status comes from a call of its own, the
    calls after that of [GetSummary]. *)
Definition renderTop `{H : !GoRuntime} (opts : DisplayOptions) (i : nat)
    (bucket : BucketSummary) : TopEntry :=
  {| topRank := S i;
     topName := Name bucket;
     topObjects := ObjectCount bucket;
     topHuman := SizeHuman bucket;
     topBytes := SizeBytes bucket;
     topVersioning :=
       if ShowVersions opts then
         Some (getVersioningStatus (H := within (S i) H) (VersionDistribution bucket),
               detailLine (formatVersionDistribution (VersionDistribution bucket)))
       else None;
     topSizes :=
       if ShowSizes opts then
         Some (getSizeStatus (SizeDistribution bucket),
               detailLine (formatSizeDistribution (SizeDistribution bucket)))
       else None |}.

Definition PrintTopBuckets `{H : !GoRuntime} (mp : MetricParser) (n : Z)
    (opts : DisplayOptions) : TopOutput :=
  match renderedSummaries opts mp with
  | None => NoTopData
  | Some summaries =>
      let n1 := if Z.of_nat (length summaries) <? n then Z.of_nat (length summaries) else n in
      TopBuckets n1 (imap (renderTop opts) (take (Z.to_nat n1) summaries))
  end.

(** ** [main]

    [main] reads [os.Args], whose first element is the program's name; the
    embedding takes the arguments after it.  An exit is modelled by its
    status, the reports by what the two views print. *)

(** [strconv.Atoi]: [ParseInt(s, 10, 0)] as an [int], which has 64 bits on
    the platforms that the embedding takes for the float conversion. *)
Definition Atoi (s : string) : Z * option NumError := ParseInt s.

(** The variables that the loop over the arguments sets. *)
Record CommandLine := {
  filename : string;
  topN : Z;
  options : DisplayOptions
}.

Definition initialCommandLine : CommandLine :=
  {| filename := ""; topN := 5;
     options := {| ShowVersions := false; ShowSizes := false; Cluster := false |} |}.

Definition setOptions (c : CommandLine) (o : DisplayOptions) : CommandLine :=
  {| filename := filename c; topN := topN c; options := o |}.

(** One iteration of the loop over the arguments; [None] when the argument
    asks for the help, which is printed before [os.Exit(0)]. *)
Definition parseArg (c : CommandLine) (arg : string) : option CommandLine :=
  if String.eqb arg "--versions" then
    Some (setOptions c {| ShowVersions := true; ShowSizes := ShowSizes (options c);
                          Cluster := Cluster (options c) |})
  else if String.eqb arg "--sizes" then
    Some (setOptions c {| ShowVersions := ShowVersions (options c); ShowSizes := true;
                          Cluster := Cluster (options c) |})
  else if String.eqb arg "--cluster" then
    Some (setOptions c {| ShowVersions := ShowVersions (options c);
                          ShowSizes := ShowSizes (options c); Cluster := true |})
  else if String.eqb arg "--both" then
    Some (setOptions c {| ShowVersions := true; ShowSizes := true;
                          Cluster := Cluster (options c) |})
  else if String.eqb arg "--help" || String.eqb arg "-h" then None
  else
    match Atoi arg with
    | (n, None) => Some {| filename := filename c; topN := n; options := options c |}
    | _ =>
        if String.eqb (filename c) ""
        then Some {| filename := arg; topN := topN c; options := options c |}
        else Some c
    end.

Fixpoint parseArgs (c : CommandLine) (args : list string) : option CommandLine :=
  match args with
  | [] => Some c
  | arg :: rest =>
      match parseArg c arg with
      | None => None
      | Some c' => parseArgs c' rest
      end
  end.

(** How a run of [main] ends: with the usage and an exit status; with
    [log.Fatalf] on the error of [ParseFile], after the banner that names
    the file; or with the banner and the two reports. *)
Inductive MainOutcome :=
  | UsageExit (status : Z)
  | FatalExit (file : string) (err : ParseError)
  | Reports (file : string) (table : TableOutput) (top : TopOutput).

Section Main.
Context `{H : !GoRuntime}.

(** [main] on the arguments [args] (that is [os.Args[1:]]), where [open]
    tells what [ParseFile] finds under a file name.  The two views are two
    calls, each with its own loop over the buckets. *)
Definition main (args : list string) (open : string → InputFile) : MainOutcome :=
  match args with
  | [] => UsageExit 1
  | first :: _ =>
      if String.eqb first "--help" || String.eqb first "-h" then UsageExit 1
      else
        match parseArgs initialCommandLine args with
        | None => UsageExit 0
        | Some c =>
            if String.eqb (filename c) "" then UsageExit 1
            else
              let parser := NewMetricParser in
              match ParseFile parser (open (filename c)) with
              | (_, Some err) => FatalExit (filename c) err
              | (parser', None) =>
                  Reports (filename c)
                    (PrintSummaryTable (H := within 0 H) parser' (options c))
                    (PrintTopBuckets (H := within 1 H) parser' (topN c) (options c))
              end
        end
  end.

End Main.

(** * The vocabulary of the properties *)

(** ** [normalizeRange] *)

(** A digit immediately followed by a letter occurs in [s]. *)
Fixpoint hasBoundary (s : string) : bool :=
  match s with
  | EmptyString => false
  | String c rest =>
      match rest with
      | EmptyString => false
      | String d _ => isDigit c && isLetter d || hasBoundary rest
      end
  end.

Definition headByte (s : string) : option ascii :=
  match s with
  | EmptyString => None
  | String c _ => Some c
  end.

(** Two adjacent underscores occur in [s]. *)
Fixpoint hasDouble (s : string) : bool :=
  match s with
  | EmptyString => false
  | String c rest =>
      match rest with
      | EmptyString => false
      | String d _ => Ascii.eqb c "_" && Ascii.eqb d "_" || hasDouble rest
      end
  end.

(** Two spellings of a range label: [SameRange s t] when [t] is [s] with
    underscores added or dropped between a digit and the letter after it. *)
Inductive SameRange : string → string → Prop :=
  | SameRange_refl s : SameRange s s
  | SameRange_boundary a d l b :
      isDigit d = true → isLetter l = true →
      SameRange (a ++ String d (String l b)) (a ++ String d (String "_" (String l b)))
  | SameRange_sym s t : SameRange s t → SameRange t s
  | SameRange_trans s t u : SameRange s t → SameRange t u → SameRange s u.

(** ** Insertion sort meets the contract of [sort.Slice] *)

(** The sorted prefix of the insertion sort, read from its last element: no
    element is less than one that follows it here. *)
Definition SortedRev {A : Type} (less : A → A → bool) (l : list A) : Prop :=
  StronglySorted (λ a b, less a b = false) l.

(** ** The order of the printed summaries *)

(** The numbers of [l] never increase from one position to a later one. *)
Definition NonIncreasing (l : list Z) : Prop :=
  ∀ (i j : nat) (x y : Z), (i < j)%nat → l !! i = Some x → l !! j = Some y → y <= x.

Definition tableRows (out : TableOutput) : list TableRow :=
  match out with
  | NoBucketData => []
  | SummaryTable _ _ rows _ => rows
  end.

Definition topEntries (out : TopOutput) : list TopEntry :=
  match out with
  | NoTopData => []
  | TopBuckets _ entries => entries
  end.

Definition sumZ (l : list Z) : Z := foldr Z.add 0 l.

(** ** Sample metric lines *)

(** [key="value"]. *)
Definition label (key value : string) : string :=
  (key ++ "=" ++ String dquote (value ++ String dquote ""))%string.

(** [family{labels} value]. *)
Definition metricLine (family : string) (labels : list string) (value : string) : string :=
  (family ++ "{" ++ String.concat "," labels ++ "} " ++ value)%string.

Definition plainOptions : DisplayOptions :=
  {| ShowVersions := false; ShowSizes := false; Cluster := false |}.

(** ** The totals row *)

Definition tableTotals (out : TableOutput) : TotalsRow :=
  match out with
  | NoBucketData => {| totalCount := 0; totalObjects := 0; totalBytes := 0; totalHuman := "" |}
  | SummaryTable _ _ _ totals => totals
  end.

Definition twoBigBuckets : list string :=
  [ metricLine "minio_bucket_usage_object_total" [label "bucket" "a"] "4611686018427387904";
    metricLine "minio_bucket_usage_object_total" [label "bucket" "b"] "4611686018427387904" ].

Definition twoSmallBuckets : list string :=
  [ metricLine "minio_bucket_usage_object_total" [label "bucket" "a"] "7";
    metricLine "minio_bucket_usage_total_bytes" [label "bucket" "a"] "2048";
    metricLine "minio_bucket_usage_object_total" [label "bucket" "b"] "5" ].

(** ** Versioning status *)

(** The exact sum of the counts under the keys other than UNVERSIONED and
    SINGLE_VERSION. *)
Definition multiCount (m : gmap string Z) : Z :=
  sumZ (map snd (map_to_list (delete "UNVERSIONED" (delete "SINGLE_VERSION" m)))).

(** The precedence of [getVersioningStatus] on its three counts. *)
Definition statusFromCounts (unversioned single multi : Z) : string :=
  if decide (0 < unversioned ∧ single = 0 ∧ multi = 0) then "Unversioned"
  else if decide (0 < single ∧ multi = 0) then "Single Version"
  else if decide (0 < multi) then "Multi-Version"
  else "Mixed".

(** The derivation in the words of the specification: the tests are for
    counts that are not zero, on the exact sum. *)
Definition versioningStatusAsStated (m : gmap string Z) : string :=
  if decide (m = ∅) then "Unknown"
  else if decide (mapGet m "UNVERSIONED" ≠ 0 ∧ mapGet m "SINGLE_VERSION" = 0 ∧ multiCount m = 0)
  then "Unversioned"
  else if decide (mapGet m "SINGLE_VERSION" ≠ 0 ∧ multiCount m = 0) then "Single Version"
  else if decide (multiCount m ≠ 0) then "Multi-Version"
  else "Mixed".

(** The count that [getVersioningStatus] adds for an entry. *)
Definition multiPart (kv : string * Z) : Z :=
  if negb (String.eqb (fst kv) "UNVERSIONED") && negb (String.eqb (fst kv) "SINGLE_VERSION")
  then snd kv else 0.

Definition negativeUnversioned : list string :=
  [ metricLine "minio_bucket_objects_version_distribution"
      [label "bucket" "b"; label "range" "UNVERSIONED"] "-3" ].

(** ** Size status *)

Definition smallKeys : list string :=
  [ "LESS_THAN_1024_B"; "BETWEEN_1024_B_AND_64_KB"; "BETWEEN_1024_B_AND_1_MB";
    "BETWEEN_1024B_AND_1_MB"; "BETWEEN_64_KB_AND_256_KB";
    "BETWEEN_256_KB_AND_512_KB"; "BETWEEN_512_KB_AND_1_MB" ].

Definition mediumKeys : list string :=
  [ "BETWEEN_1_MB_AND_10_MB"; "BETWEEN_10_MB_AND_64_MB" ].

Definition largeKeys : list string :=
  [ "BETWEEN_64_MB_AND_128_MB"; "BETWEEN_128_MB_AND_512_MB"; "GREATER_THAN_512_MB" ].

(** The counts of [m] under [keys], summed in [int64]. *)
Definition partitionCount (keys : list string) (m : gmap string Z) : Z :=
  Int64.wrap (sumZ (map (mapGet m) keys)).

(** The derivation in the words of the specification: exact percentages,
    and Empty whenever the total is zero. *)
Definition sizeStatusAsStated (m : gmap string Z) : string :=
  let small := sumZ (map (mapGet m) smallKeys) in
  let medium := sumZ (map (mapGet m) mediumKeys) in
  let large := sumZ (map (mapGet m) largeKeys) in
  let total := small + medium + large in
  if decide (total = 0) then "Empty"
  else if decide (80 * total <= 100 * small) then "Mostly Small"
  else if decide (60 * total <= 100 * medium) then "Mostly Medium"
  else if decide (60 * total <= 100 * large) then "Mostly Large"
  else "Mixed Sizes".

Definition nearlyFourFifths : gmap string Z :=
  <["LESS_THAN_1024_B" := 6799999999999999]> {["GREATER_THAN_512_MB" := 1700000000000001]}.

(** ** What one line adds to the aggregate *)

(** The line the loop body works on: trimmed, and [None] for a comment or a
    blank line. *)
Definition dataLine (raw : string) : option string :=
  let line := TrimSpace raw in
  if skipped line then None else Some line.

(** The numeric value of a line. *)
Definition lineValue (raw : string) : Z := extractValue (TrimSpace raw).

(** A data line that carries the bucket label [b] and the family
    substring. *)
Definition isBucketLine (family b : string) (raw : string) : bool :=
  match dataLine raw with
  | Some line => String.eqb (extractBucketName line) b && Contains line family
  | None => false
  end.

(** The range key, once normalized, of a line that has a range label. *)
Definition rangeKeyIs (k line : string) : bool :=
  negb (String.eqb (extractRange line) "") && String.eqb (normalizeRange (extractRange line)) k.

Definition isBucketRangeLine (family b k : string) (raw : string) : bool :=
  match dataLine raw with
  | Some line =>
      String.eqb (extractBucketName line) b && (Contains line family && rangeKeyIs k line)
  | None => false
  end.

(** The cluster-scope families, in the order in which the loop tries them:
    a line counts for the first one that it contains. *)
Definition clusterFamilies : list string :=
  [ "minio_cluster_usage_object_total";
    "minio_cluster_usage_total_bytes";
    "minio_cluster_objects_version_distribution";
    "minio_cluster_objects_size_distribution" ].

Fixpoint firstFamily (families : list string) (line : string) : option string :=
  match families with
  | [] => None
  | f :: rest => if Contains line f then Some f else firstFamily rest line
  end.

(** A data line without bucket label whose cluster family is [family]. *)
Definition isClusterLine (family : string) (raw : string) : bool :=
  match dataLine raw with
  | Some line =>
      String.eqb (extractBucketName line) ""
      && bool_decide (firstFamily clusterFamilies line = Some family)
  | None => false
  end.

Definition isClusterRangeLine (family k : string) (raw : string) : bool :=
  match dataLine raw with
  | Some line =>
      String.eqb (extractBucketName line) ""
      && bool_decide (firstFamily clusterFamilies line = Some family)
      && rangeKeyIs k line
  | None => false
  end.

(** The counters of the aggregate, read with Go's zero for what is absent. *)
Definition bucketObjects (b : string) (mp : MetricParser) : Z :=
  from_option ObjectCount 0 (buckets mp !! b).

Definition bucketBytes (b : string) (mp : MetricParser) : Z :=
  from_option SizeBytes 0 (buckets mp !! b).

Definition bucketVersions (b k : string) (mp : MetricParser) : Z :=
  from_option (λ bs, mapGet (VersionDistribution bs) k) 0 (buckets mp !! b).

Definition bucketSizes (b k : string) (mp : MetricParser) : Z :=
  from_option (λ bs, mapGet (SizeDistribution bs) k) 0 (buckets mp !! b).

Definition clusterVersions (k : string) (mp : MetricParser) : Z :=
  mapGet (ClusterVersionDist mp) k.

Definition clusterSizes (k : string) (mp : MetricParser) : Z :=
  mapGet (ClusterSizeDist mp) k.

(** The exact sum of the values of the lines that [p] selects. *)
Definition sumOver (p : string → bool) (lines : list string) : Z :=
  sumZ (map lineValue (List.filter p lines)).

(** A counter of a bucket's record, read as zero without a record. *)
Definition bucketCounter (counter : BucketSummary → Z) (b : string) (mp : MetricParser) : Z :=
  from_option counter 0 (buckets mp !! b).

(** A data line of bucket [b] that [hit] selects. *)
Definition hitsBucket (hit : string → bool) (b : string) (raw : string) : bool :=
  match dataLine raw with
  | Some line => String.eqb (extractBucketName line) b && hit line
  | None => false
  end.

(** ** Invariants of the bucket map *)

(** Every record sits under its own name, which is not empty, and lists no
    server twice. *)
Definition WellKeyed (mp : MetricParser) : Prop :=
  ∀ b bs, buckets mp !! b = Some bs → b ≠ "" ∧ Name bs = b ∧ NoDup (Servers bs).

(** ** Every counter is the sum of its lines *)

Definition objectFamily : string := "minio_bucket_usage_object_total".
Definition bytesFamily : string := "minio_bucket_usage_total_bytes".
Definition versionFamily : string := "minio_bucket_objects_version_distribution".
Definition sizeFamily : string := "minio_bucket_objects_size_distribution".

Definition threeServers : list string :=
  [ metricLine "minio_bucket_usage_object_total" [label "bucket" "photos"; label "server" "s1"] "10";
    "# TYPE minio_bucket_usage_object_total gauge";
    metricLine "minio_bucket_usage_object_total" [label "bucket" "photos"; label "server" "s2"] "20";
    metricLine "minio_bucket_usage_object_total" [label "bucket" "logs"; label "server" "s1"] "7";
    metricLine "minio_bucket_usage_object_total" [label "bucket" "photos"; label "server" "s3"] "1.2e1" ].

Definition overflowingCounts : list string :=
  [ metricLine "minio_bucket_usage_object_total" [label "bucket" "b"; label "server" "s1"]
      "9223372036854775807";
    metricLine "minio_bucket_usage_object_total" [label "bucket" "b"; label "server" "s2"] "1" ].

Definition commentedCount : list string :=
  [ metricLine "minio_bucket_usage_object_total" [label "bucket" "b"] "1";
    ("# " ++ metricLine "minio_bucket_usage_object_total" [label "bucket" "b"] "5")%string ].

(** ** Lines with a bucket label always register *)

Definition unrecognizedFamily : list string :=
  [ metricLine "minio_bucket_replication_total"
      [label "bucket" "archive"; label "server" "s1"] "3";
    metricLine "minio_bucket_replication_total" [label "bucket" "archive"] "4" ].

(** ** Which buckets a parse creates *)

(** The line creates or updates the record of bucket [b]. *)
Definition registers (b : string) (raw : string) : bool :=
  match dataLine raw with
  | Some line =>
      negb (String.eqb (extractBucketName line) "") && String.eqb (extractBucketName line) b
  | None => false
  end.

(** ** A line with an unparseable value *)

(** The last field of the line parses neither as an integer nor as a
    float. *)
Definition Malformed (raw : string) : Prop :=
  ∃ tok, last (Fields (TrimSpace raw)) = Some tok
         ∧ snd (ParseInt tok) ≠ None ∧ snd (ParseFloat tok) ≠ None.

Definition validLine : string :=
  metricLine "minio_bucket_usage_object_total" [label "bucket" "a"; label "server" "s1"] "10".

Definition malformedLine : string :=
  metricLine "minio_bucket_usage_object_total" [label "bucket" "b"; label "server" "s1"] "abc".

Definition malformedSize : string :=
  metricLine "minio_bucket_usage_total_bytes" [label "bucket" "a"; label "server" "s1"] "abc".

Definition malformedRepeat : string :=
  metricLine "minio_bucket_usage_object_total" [label "bucket" "a"; label "server" "s2"] "abc".

(** ** The cluster aggregate as fallback *)

(** The line, if it is read at all, has no bucket label. *)
Definition NoBucketLabel (raw : string) : Prop :=
  ∀ line, dataLine raw = Some line → extractBucketName line = "".

Definition noBucketLabelb (raw : string) : bool :=
  match dataLine raw with
  | Some line => String.eqb (extractBucketName line) ""
  | None => true
  end.

(** The input of [TestParseClusterMetrics]. *)
Definition clusterOnlyInput : list string :=
  [ "# HELP minio_cluster_usage_object_total Total number of objects in a cluster";
    "# TYPE minio_cluster_usage_object_total gauge";
    metricLine "minio_cluster_usage_object_total" [label "server" "s1"] "12345";
    "# HELP minio_cluster_usage_total_bytes Total cluster usage in bytes";
    "# TYPE minio_cluster_usage_total_bytes gauge";
    metricLine "minio_cluster_usage_total_bytes" [label "server" "s1"] "5.67e+08";
    "# HELP minio_cluster_objects_size_distribution Distribution of object sizes across a cluster";
    "# TYPE minio_cluster_objects_size_distribution gauge";
    metricLine "minio_cluster_objects_size_distribution"
      [label "range" "BETWEEN_1024B_AND_1_MB"; label "server" "s1"] "100";
    metricLine "minio_cluster_objects_size_distribution"
      [label "range" "BETWEEN_1024_B_AND_64_KB"; label "server" "s1"] "200";
    metricLine "minio_cluster_objects_version_distribution"
      [label "range" "SINGLE_VERSION"; label "server" "s1"] "300" ].

(** ** The value of a line *)

(** The integer that a string of decimal digits denotes after [acc]. *)
Fixpoint digitsValue (acc : Z) (s : string) : option Z :=
  match s with
  | EmptyString => Some acc
  | String c rest =>
      if isDigit c then digitsValue (acc * 10 + digitValue c) rest else None
  end.

(** A base-10 integer literal: an optional sign and at least one digit. *)
Definition decimalInteger (s : string) : option Z :=
  match s with
  | EmptyString => None
  | String c rest =>
      if Ascii.eqb c "+" then
        if String.eqb rest "" then None else digitsValue 0 rest
      else if Ascii.eqb c "-" then
        if String.eqb rest "" then None else Z.opp <$> digitsValue 0 rest
      else digitsValue 0 s
  end.

(** No white-space rune starts anywhere in [s]. *)
Fixpoint noSpace (s : string) : bool :=
  match s with
  | EmptyString => true
  | String _ rest => (spaceWidth s =? 0)%nat && noSpace rest
  end.

(** [s] starts with [k] bytes that are not ASCII. *)
Fixpoint contBytes (k : nat) (s : string) : bool :=
  match k with
  | O => true
  | S k' =>
      match s with
      | EmptyString => false
      | String c rest => (128 <=? byteN c)%N && contBytes k' rest
      end
  end.

(** ** Further properties of the aggregate *)

(** The rendering of the size is that of the current size once a size line
    was read for the bucket, and empty before. *)
Definition HumanSize (seen : bool) (bs : BucketSummary) : Prop :=
  SizeHuman bs = if seen then formatBytes (SizeBytes bs) else "".

Definition HumanSizeOf (seen : bool) (b : string) (mp : MetricParser) : Prop :=
  match buckets mp !! b with
  | Some bs => HumanSize seen bs
  | None => seen = false
  end.

Definition sizedBucket : list string :=
  [ metricLine "minio_bucket_usage_total_bytes" [label "bucket" "media"; label "server" "s1"] "1024";
    metricLine "minio_bucket_usage_total_bytes" [label "bucket" "media"; label "server" "s2"] "512" ].

Definition twoSpellings : list string :=
  [ metricLine "minio_bucket_objects_size_distribution"
      [label "bucket" "b"; label "range" "BETWEEN_1024B_AND_1_MB"; label "server" "s1"] "100";
    metricLine "minio_bucket_objects_size_distribution"
      [label "bucket" "b"; label "range" "BETWEEN_1024_B_AND_1_MB"; label "server" "s2"] "11" ].

(** The range keys of a map are in canonical form. *)
Definition CanonicalKeys (m : gmap string Z) : Prop :=
  ∀ k v, m !! k = Some v → k ≠ "" ∧ normalizeRange k = k.

Definition AllCanonical (mp : MetricParser) : Prop :=
  CanonicalKeys (ClusterVersionDist mp) ∧ CanonicalKeys (ClusterSizeDist mp)
  ∧ ∀ b bs, buckets mp !! b = Some bs →
      CanonicalKeys (VersionDistribution bs) ∧ CanonicalKeys (SizeDistribution bs).

(** ** [normalizeRange] touches underscores only *)

(** The bytes of [s] other than underscores, in their order. *)
Fixpoint dropUnderscores (s : string) : string :=
  match s with
  | EmptyString => EmptyString
  | String c rest =>
      if Ascii.eqb c "_" then dropUnderscores rest else String c (dropUnderscores rest)
  end.

(** ** Lines that leave the aggregate as it is *)

(** A comment or blank line, or a line with neither a bucket label nor one
    of the four cluster families. *)
Definition ignored (raw : string) : bool :=
  match dataLine raw with
  | None => true
  | Some line =>
      String.eqb (extractBucketName line) ""
      && bool_decide (firstFamily clusterFamilies line = None)
  end.

(** ** The server list of a bucket *)

(** The elements of [l] in the order of their first occurrence. *)
Fixpoint firstSeen (l : list string) : list string :=
  match l with
  | [] => []
  | x :: rest => x :: List.filter (λ y, negb (String.eqb y x)) (firstSeen rest)
  end.

(** The server label of a line, empty without one. *)
Definition serverOf (raw : string) : string := extractServerName (TrimSpace raw).

Definition bucketServers (b : string) (mp : MetricParser) : list string :=
  from_option Servers [] (buckets mp !! b).

Definition repeatedServers : list string :=
  [ metricLine "minio_bucket_usage_object_total" [label "bucket" "a"; label "server" "s2"] "1";
    metricLine "minio_bucket_usage_object_total" [label "bucket" "b"; label "server" "s9"] "1";
    metricLine "minio_bucket_usage_total_bytes" [label "bucket" "a"; label "server" "s1"] "1";
    metricLine "minio_bucket_usage_total_bytes" [label "bucket" "a"] "1";
    metricLine "minio_bucket_usage_total_bytes" [label "bucket" "a"; label "server" "s2"] "1" ].

(** ** Which range keys a parse creates *)

(** [_, ok := m[k]]. *)
Definition hasKey (m : gmap string Z) (k : string) : bool := bool_decide (is_Some (m !! k)).

(** A mark on a bucket's record, read as unset without a record. *)
Definition bucketFlag (flag : BucketSummary → bool) (b : string) (mp : MetricParser) : bool :=
  from_option flag false (buckets mp !! b).

Definition zeroCountRange : list string :=
  [ metricLine "minio_bucket_objects_version_distribution"
      [label "bucket" "b"; label "range" "BETWEEN_2_AND_10"] "0";
    metricLine "minio_bucket_objects_size_distribution"
      [label "bucket" "b"; label "range" "LESS_THAN_1024_B"] "n/a" ].

(** ** The order of the lines *)

(** The record without its server list. *)
Definition withoutServers (bs : BucketSummary) : BucketSummary :=
  {| Name := Name bs; ObjectCount := ObjectCount bs; SizeBytes := SizeBytes bs;
     SizeHuman := SizeHuman bs; Servers := [];
     VersionDistribution := VersionDistribution bs;
     SizeDistribution := SizeDistribution bs |}.

(** ** The entries of a line *)

(** What a line leaves in the aggregate whatever its value: the record of
    a bucket, the rendering of the bucket's size, a key of one of the
    bucket's distributions or of a distribution of the cluster. *)
Inductive Entry :=
  | BucketRecord (b : string)
  | SizeRendering (b : string)
  | VersionKey (b k : string)
  | SizeKey (b k : string)
  | ClusterVersionKey (k : string)
  | ClusterSizeKey (k : string).

#[global] Instance Entry_eq_dec : EqDecision Entry := ltac:(solve_decision).

(** The aggregate has the entry. *)
Definition present (e : Entry) (mp : MetricParser) : bool :=
  match e with
  | BucketRecord b => bool_decide (is_Some (buckets mp !! b))
  | SizeRendering b => bucketFlag (λ bs, negb (String.eqb (SizeHuman bs) "")) b mp
  | VersionKey b k => bucketFlag (λ bs, hasKey (VersionDistribution bs) k) b mp
  | SizeKey b k => bucketFlag (λ bs, hasKey (SizeDistribution bs) k) b mp
  | ClusterVersionKey k => hasKey (ClusterVersionDist mp) k
  | ClusterSizeKey k => hasKey (ClusterSizeDist mp) k
  end.

(** The entries that the loop body leaves for the line. *)
Definition entriesOf (raw : string) : list Entry :=
  match dataLine raw with
  | None => []
  | Some line =>
      let b := extractBucketName line in
      let ranged := negb (String.eqb (extractRange line) "") in
      let key := normalizeRange (extractRange line) in
      if String.eqb b "" then
        match firstFamily clusterFamilies line with
        | Some family =>
            if ranged && String.eqb family "minio_cluster_objects_version_distribution"
            then [ClusterVersionKey key]
            else if ranged && String.eqb family "minio_cluster_objects_size_distribution"
            then [ClusterSizeKey key]
            else []
        | None => []
        end
      else
        (BucketRecord b
         :: (if Contains line bytesFamily then [SizeRendering b] else [])
         ++ (if Contains line versionFamily && ranged then [VersionKey b key] else [])
         ++ (if Contains line sizeFamily && ranged then [SizeKey b key] else []))%list
  end.

(** The line leaves the entry. *)
Definition adds (e : Entry) (raw : string) : bool := bool_decide (e ∈ entriesOf raw).

(** Every entry of the line is the entry of one of the other lines too. *)
Definition covered (others : list string) (raw : string) : bool :=
  forallb (λ e, existsb (adds e) others) (entriesOf raw).

(** ** The table and the top-N view *)

(** The runtime [H] with the loops that [p] selects run backwards: they
    visit a map from the last entry of [H]'s order to the first. *)
Definition reversedAt (p : Loop → bool) (H : GoRuntime) : GoRuntime :=
  {| mapRangeAt := λ k V m, if p k then rev (@mapRangeAt H k V m) else @mapRangeAt H k V m;
     mapRangeAt_perm := λ k V m,
       match p k as b
         return (if b then rev (@mapRangeAt H k V m) else @mapRangeAt H k V m)
                ≡ₚ map_to_list m
       with
       | true => Permutation_trans (Permutation_sym (Permutation_rev _))
                   (@mapRangeAt_perm H k V m)
       | false => @mapRangeAt_perm H k V m
       end;
     sortSlice := @sortSlice H;
     sortSlice_perm := @sortSlice_perm H;
     sortSlice_sorted := @sortSlice_sorted H |}.

(** The loops of the second call made by the running call. *)
Definition inSecondCall (k : Loop) : bool := bool_decide (head k = Some 1%nat).

Definition tiedBuckets : list string :=
  [ metricLine "minio_bucket_usage_total_bytes" [label "bucket" "a"] "7";
    metricLine "minio_bucket_usage_total_bytes" [label "bucket" "b"] "7" ].

(** ** The itemised details *)

(** The ranges of [order] under which [dist] holds a positive count. *)
Definition positiveRanges (order : list (string * string)) (dist : gmap string Z)
  : list (string * string) :=
  List.filter (λ kl, 0 <? mapGet dist (fst kl)) order.




(** The second spelling of the range from 1 KB to 1 MB. *)
Definition unspacedRange : string := "BETWEEN_1024B_AND_1_MB".

(** The size ranges without that spelling. *)
Definition spacedSizeRanges : list (string * string) :=
  List.filter (λ kl, negb (String.eqb (fst kl) unspacedRange)) sizeRangeOrder.

Definition bothSpellings : gmap string Z :=
  <["BETWEEN_1024_B_AND_1_MB" := 3]> {["BETWEEN_1024B_AND_1_MB" := 4]}.

(** ** Label extraction *)

(** No double quote occurs in [s]. *)
Fixpoint noQuote (s : string) : bool :=
  match s with
  | EmptyString => true
  | String c rest => negb (Ascii.eqb c dquote) && noQuote rest
  end.

(** The opening of a label: the key, an equals sign and a double quote. *)
Definition labelOpening (key : string) : string :=
  (key ++ String "=" (String dquote EmptyString))%string.

(** ** The command line *)

Definition isHelp (arg : string) : bool := String.eqb arg "--help" || String.eqb arg "-h".

(** The four flags that set an option. *)
Definition isFlag (arg : string) : bool :=
  bool_decide (arg ∈ ["--versions"; "--sizes"; "--cluster"; "--both"]).

(** The argument is a base-10 integer that fits an [int]. *)
Definition isNumber (arg : string) : bool :=
  match Atoi arg with
  | (_, None) => true
  | _ => false
  end.

(** The arguments that can name the file: not a flag, not a number, not
    empty. *)
Definition fileNames (args : list string) : list string :=
  List.filter (λ arg, negb (isFlag arg) && negb (isNumber arg) && negb (String.eqb arg "")) args.

(** The options that the flags among the arguments ask for. *)
Definition requestedOptions (args : list string) : DisplayOptions :=
  {| ShowVersions := bool_decide ("--versions" ∈ args ∨ "--both" ∈ args);
     ShowSizes := bool_decide ("--sizes" ∈ args ∨ "--both" ∈ args);
     Cluster := bool_decide ("--cluster" ∈ args) |}.

(** The number of entries asked for: the last number among the arguments,
    and 5 without one. *)
Definition requestedTop (args : list string) : Z :=
  from_option (λ arg, fst (Atoi arg)) 5 (last (List.filter isNumber args)).

Definition sampleArguments : list string :=
  [ "--both"; "3"; "metrics.txt"; "--cluster"; "other.txt"; "2" ].

(** ** White space around a line *)

(** The six ASCII white-space bytes: TAB, LF, VT, FF, CR and SPACE. *)
Definition isBlank (c : ascii) : bool :=
  ((9 <=? byteN c) && (byteN c <=? 13) || (byteN c =? 32))%N.

Fixpoint blanks (s : string) : bool :=
  match s with
  | EmptyString => true
  | String c rest => isBlank c && blanks rest
  end.

Definition indentedLine : string :=
  (String "009" "  " ++ metricLine "minio_bucket_usage_object_total" [label "bucket" "a"] "7"
   ++ String " " (String "013" ""))%string.

(** ** Distributions of a single class *)

Definition onlySmallObjects : gmap string Z :=
  <["LESS_THAN_1024_B" := 7]> {["BETWEEN_64_KB_AND_256_KB" := 9000000000000000000]}.

(** ** Shares of the three size classes *)

(** The status by the exact shares of the classes. *)
Definition statusByShare (small medium large : Z) : string :=
  let total := small + medium + large in
  if decide (total = 0) then "Empty"
  else if decide (80 * total <= 100 * small) then "Mostly Small"
  else if decide (60 * total <= 100 * medium) then "Mostly Medium"
  else if decide (60 * total <= 100 * large) then "Mostly Large"
  else "Mixed Sizes".

Definition fourOfFive : gmap string Z :=
  <["LESS_THAN_1024_B" := 4]> {["GREATER_THAN_512_MB" := 1]}.

(** [l] tells where [num / den] lies between [q] and [q + 1]: on [q],
    below the middle, in the middle or above it. *)
Definition Located (num den q : Z) (l : location) : Prop :=
  0 < den ∧ q * den <= num < (q + 1) * den ∧
  match l with
  | loc_Exact => num = q * den
  | loc_Inexact c => num ≠ q * den ∧ (2 * (num - q * den) ?= den) = c
  end.

(** ** Sizes in tenths of a unit *)

(** [bytes * 10 / div] rounded to the nearest integer, ties to even. *)
Definition nearestTenths (bytes div : Z) : Z :=
  let q := bytes * 10 / div in
  let r := bytes * 10 mod div in
  match 2 * r ?= div with
  | Lt => q
  | Eq => if Z.even q then q else q + 1
  | Gt => q + 1
  end.

(** ** Scientific notation *)

(** A number as [%e] with the shortest mantissa writes it when the exponent
    is not negative: a digit, the further digits after a point if there are
    any, and the exponent after [e+]. *)
Definition scientific (d : ascii) (fp xs : string) : string :=
  String d
    ((match fp with EmptyString => EmptyString | _ => String "." fp end)
     ++ String "e" (String "+" xs)).

(** * Properties *)

#[local] Arguments Ascii.eqb : simpl never.
#[local] Arguments isDigit : simpl never.
#[local] Arguments isLetter : simpl never.

(** ** Arithmetic of [int64] *)

Module Int64Facts.

Lemma wrap_in_range z : Int64.in_range (Int64.wrap z).
Proof.
  unfold Int64.in_range, Int64.wrap, Int64.min_int, Int64.max_int.
  pose proof (Z.mod_pos_bound (z + 2 ^ 63) (2 ^ 64) ltac:(lia)). lia.
Qed.

Lemma wrap_small z : Int64.in_range z → Int64.wrap z = z.
Proof.
  unfold Int64.in_range, Int64.wrap, Int64.min_int, Int64.max_int. intros Hz.
  rewrite Z.mod_small by lia. lia.
Qed.

Lemma wrap_add_l a b : Int64.wrap (Int64.wrap a + b) = Int64.wrap (a + b).
Proof.
  unfold Int64.wrap. f_equal.
  replace ((a + 2 ^ 63) mod 2 ^ 64 - 2 ^ 63 + b + 2 ^ 63)
    with ((a + 2 ^ 63) mod 2 ^ 64 + b) by lia.
  rewrite Zplus_mod_idemp_l. f_equal. lia.
Qed.

End Int64Facts.

(** ** [normalizeRange] *)

Lemma insertUnderscores_head s : headByte (insertUnderscores s) = headByte s.
Proof. destruct s as [|c [|d r]]; simpl; try done. by destruct (isDigit c && isLetter d). Qed.

Lemma isDigit_underscore : isDigit "_" = false.
Proof. reflexivity. Qed.

Lemma isLetter_underscore : isLetter "_" = false.
Proof. reflexivity. Qed.

Lemma hasBoundary_insertUnderscores s : hasBoundary (insertUnderscores s) = false.
Proof.
  induction s as [|c s IH]; [done|].
  destruct s as [|d r]; [done|].
  change (insertUnderscores (String c (String d r)))
    with (if isDigit c && isLetter d
          then String c (String "_" (insertUnderscores (String d r)))
          else String c (insertUnderscores (String d r))).
  pose proof (insertUnderscores_head (String d r)) as Hh.
  destruct (insertUnderscores (String d r)) as [|d' r'] eqn:E; [done|].
  simpl in Hh. injection Hh as ->.
  destruct (isDigit c && isLetter d) eqn:Hcd.
  - cbn [hasBoundary]. rewrite isLetter_underscore, isDigit_underscore, andb_false_r.
    simpl. exact IH.
  - cbn [hasBoundary]. rewrite Hcd. simpl. exact IH.
Qed.

Lemma insertUnderscores_fixed s : hasBoundary s = false → insertUnderscores s = s.
Proof.
  induction s as [|c s IH]; [done|].
  destruct s as [|d r]; [done|].
  cbn [hasBoundary]. intros H. apply orb_false_iff in H as [Hcd Hr].
  change (insertUnderscores (String c (String d r)))
    with (if isDigit c && isLetter d
          then String c (String "_" (insertUnderscores (String d r)))
          else String c (insertUnderscores (String d r))).
  rewrite Hcd, IH; done.
Qed.

Lemma Contains_double s : Contains s "__" = hasDouble s.
Proof.
  induction s as [|c s IH]; [done|].
  destruct s as [|d r].
  - simpl. by rewrite andb_false_r.
  - cbn [Contains isPrefix hasDouble] in IH |- *. rewrite IH, andb_true_r.
    by rewrite (Ascii.eqb_sym "_" c), (Ascii.eqb_sym "_" d).
Qed.

Lemma replaceDouble_length s : (String.length (replaceDouble s) ≤ String.length s)%nat.
Proof.
  assert (H : ∀ n s, (String.length s ≤ n)%nat →
              (String.length (replaceDouble s) ≤ String.length s)%nat).
  { clear s. induction n as [|n IH]; intros s Hs.
    - destruct s; simpl in *; lia.
    - destruct s as [|c [|d r]]; simpl in *; try lia.
      destruct (Ascii.eqb c "_" && Ascii.eqb d "_"); simpl.
      + specialize (IH r ltac:(lia)). lia.
      + specialize (IH (String d r) ltac:(simpl; lia)). simpl in IH. lia. }
  by apply (H (String.length s)).
Qed.

Lemma replaceDouble_shrinks s :
  hasDouble s = true → (String.length (replaceDouble s) < String.length s)%nat.
Proof.
  induction s as [|c s IH]; [done|].
  destruct s as [|d r]; [done|].
  cbn [hasDouble]. intros H.
  change (replaceDouble (String c (String d r)))
    with (if Ascii.eqb c "_" && Ascii.eqb d "_"
          then String "_" (replaceDouble r)
          else String c (replaceDouble (String d r))).
  destruct (Ascii.eqb c "_" && Ascii.eqb d "_"); simpl in H |- *.
  - pose proof (replaceDouble_length r). lia.
  - specialize (IH H). simpl in IH. lia.
Qed.

Lemma collapseLoop_fixed fuel s : hasDouble s = false → collapseLoop fuel s = s.
Proof. intros H. destruct fuel; simpl; [done|]. by rewrite Contains_double, H. Qed.

(** The fuel handed to the loop by [normalizeRange] is enough: the loop
    leaves on its own test, with no double underscore left. *)
Lemma collapseLoop_exits fuel s :
  (String.length s ≤ fuel)%nat → hasDouble (collapseLoop fuel s) = false.
Proof.
  revert s. induction fuel as [|fuel IH]; intros s Hs.
  - destruct s; simpl in *; [done|lia].
  - simpl. rewrite Contains_double. destruct (hasDouble s) eqn:Hd; [|done].
    apply IH. pose proof (replaceDouble_shrinks s Hd). lia.
Qed.

Lemma replaceDouble_head s : headByte (replaceDouble s) = headByte s.
Proof.
  destruct s as [|c [|d r]]; simpl; try done.
  destruct (Ascii.eqb c "_" && Ascii.eqb d "_") eqn:E; [|done].
  apply andb_true_iff in E as [E _]. apply Ascii.eqb_eq in E. by subst.
Qed.

Lemma hasBoundary_cons c d r :
  hasBoundary (String c (String d r))
  = isDigit c && isLetter d || hasBoundary (String d r).
Proof. reflexivity. Qed.

Lemma hasBoundary_replaceDouble s :
  hasBoundary s = false → hasBoundary (replaceDouble s) = false.
Proof.
  assert (H : ∀ n s, (String.length s ≤ n)%nat →
              hasBoundary s = false → hasBoundary (replaceDouble s) = false).
  { clear s. induction n as [|n IH]; intros s Hs Hb.
    - destruct s; simpl in *; [done|lia].
    - destruct s as [|c [|d r]]; [done..|].
      rewrite hasBoundary_cons in Hb. apply orb_false_iff in Hb as [Hcd Hr].
      change (replaceDouble (String c (String d r)))
        with (if Ascii.eqb c "_" && Ascii.eqb d "_"
              then String "_" (replaceDouble r)
              else String c (replaceDouble (String d r))).
      destruct (Ascii.eqb c "_" && Ascii.eqb d "_") eqn:E.
      + assert (Hr' : hasBoundary r = false).
        { destruct r as [|e r']; [done|]. rewrite hasBoundary_cons in Hr.
          by apply orb_false_iff in Hr as [_ ?]. }
        pose proof (IH r ltac:(simpl in Hs; lia) Hr') as IHr.
        destruct (replaceDouble r) as [|e r']; [done|].
        by rewrite hasBoundary_cons, isDigit_underscore, IHr.
      + pose proof (IH (String d r) ltac:(simpl in Hs |- *; lia) Hr) as IHr.
        pose proof (replaceDouble_head (String d r)) as Hh.
        destruct (replaceDouble (String d r)) as [|e r']; [done|].
        simpl in Hh. injection Hh as ->.
        by rewrite hasBoundary_cons, Hcd, IHr. }
  by apply (H (String.length s)).
Qed.

Lemma hasBoundary_collapseLoop fuel s :
  hasBoundary s = false → hasBoundary (collapseLoop fuel s) = false.
Proof.
  revert s. induction fuel as [|fuel IH]; intros s Hs; simpl; [done|].
  destruct (Contains s "__"); [|done]. by apply IH, hasBoundary_replaceDouble.
Qed.

Lemma normalizeRange_unfold r :
  normalizeRange r =
  collapseLoop (String.length (insertUnderscores r)) (insertUnderscores r).
Proof.
  unfold normalizeRange. destruct (String.eqb_spec r "") as [->|]; done.
Qed.

Lemma normalizeRange_no_boundary r : hasBoundary (normalizeRange r) = false.
Proof.
  rewrite normalizeRange_unfold.
  apply hasBoundary_collapseLoop, hasBoundary_insertUnderscores.
Qed.

Lemma normalizeRange_no_double r : hasDouble (normalizeRange r) = false.
Proof. rewrite normalizeRange_unfold. by apply collapseLoop_exits. Qed.

Lemma normalizeRange_canonical r :
  hasBoundary r = false → hasDouble r = false → normalizeRange r = r.
Proof.
  intros Hb Hd. rewrite normalizeRange_unfold, insertUnderscores_fixed by done.
  by apply collapseLoop_fixed.
Qed.

Lemma insertUnderscores_app a x y :
  headByte x = headByte y → insertUnderscores x = insertUnderscores y →
  insertUnderscores (a ++ x) = insertUnderscores (a ++ y).
Proof.
  intros Hh Hxy. induction a as [|c a IH]; [done|].
  assert (Hhd : headByte (a ++ x) = headByte (a ++ y)).
  { destruct a; simpl; done. }
  change ((String c a ++ x)%string) with (String c (a ++ x)).
  change ((String c a ++ y)%string) with (String c (a ++ y)).
  destruct (a ++ x)%string as [|d r] eqn:Ex, (a ++ y)%string as [|d' r'] eqn:Ey;
    simpl in Hhd; try done.
  injection Hhd as ->.
  change (insertUnderscores (String c (String d' r)))
    with (if isDigit c && isLetter d'
          then String c (String "_" (insertUnderscores (String d' r)))
          else String c (insertUnderscores (String d' r))).
  change (insertUnderscores (String c (String d' r')))
    with (if isDigit c && isLetter d'
          then String c (String "_" (insertUnderscores (String d' r')))
          else String c (insertUnderscores (String d' r'))).
  by rewrite IH.
Qed.

Lemma insertUnderscores_boundary a d l b :
  isDigit d = true → isLetter l = true →
  insertUnderscores (a ++ String d (String l b)) =
  insertUnderscores (a ++ String d (String "_" (String l b))).
Proof.
  intros Hd Hl. apply insertUnderscores_app; [done|].
  change (insertUnderscores (String d (String l b)))
    with (if isDigit d && isLetter l
          then String d (String "_" (insertUnderscores (String l b)))
          else String d (insertUnderscores (String l b))).
  change (insertUnderscores (String d (String "_" (String l b))))
    with (if isDigit d && isLetter "_"
          then String d (String "_" (insertUnderscores (String "_" (String l b))))
          else String d (insertUnderscores (String "_" (String l b)))).
  rewrite Hd, Hl, isLetter_underscore. simpl andb. cbv iota.
  reflexivity.
Qed.

Lemma SameRange_insertUnderscores s t :
  SameRange s t → insertUnderscores s = insertUnderscores t.
Proof.
  induction 1 as [| a d l b Hd Hl | |]; [done| |congruence..].
  by apply insertUnderscores_boundary.
Qed.

(** C2. The range-key normalizer is idempotent, and two spellings of a range
    that differ only by underscores at digit-to-letter boundaries (as
    BETWEEN_1024B_AND_1_MB and BETWEEN_1024_B_AND_1_MB do) normalize to the
    same key. *)
Theorem normalizeRange_idempotent_canonical :
  (∀ s, normalizeRange (normalizeRange s) = normalizeRange s)
  ∧ (∀ s t, SameRange s t → normalizeRange s = normalizeRange t)
  ∧ normalizeRange "BETWEEN_1024B_AND_1_MB" = normalizeRange "BETWEEN_1024_B_AND_1_MB".
Proof.
  split; [|split].
  - intros s. apply normalizeRange_canonical.
    + apply normalizeRange_no_boundary.
    + apply normalizeRange_no_double.
  - intros s t Hst. rewrite !normalizeRange_unfold.
    by rewrite (SameRange_insertUnderscores s t Hst).
  - reflexivity.
Qed.

Lemma normalizeRange_idempotent_canonical_witness :
  normalizeRange ("BETWEEN_1024" ++ String "B" (String "_" "AND_1_MB"))
  = normalizeRange ("BETWEEN_1024" ++ String "_" (String "B" (String "_" "AND_1_MB"))).
Proof.
  apply (proj1 (proj2 normalizeRange_idempotent_canonical)).
  apply (SameRange_boundary "BETWEEN_102" "4" "B" "_AND_1_MB"); reflexivity.
Defined.

(** ** Insertion sort meets the contract of [sort.Slice] *)

Section InsertionSort.
Context {A : Type} (less : A → A → bool).

Lemma insertBack_perm x l : insertBack less x l ≡ₚ x :: l.
Proof.
  induction l as [|y l IH]; simpl; [done|].
  destruct (less x y); [|done]. rewrite IH. apply perm_swap.
Qed.

Lemma insertionSort_perm l : insertionSort less l ≡ₚ l.
Proof.
  unfold insertionSort. rewrite <- Permutation_rev.
  assert (H : ∀ acc, fold_left (λ acc x, insertBack less x acc) l acc ≡ₚ l ++ acc).
  { induction l as [|x l IH]; intros acc; simpl; [done|].
    rewrite IH, insertBack_perm. by rewrite Permutation_middle. }
  by rewrite H, app_nil_r.
Qed.

Context (Hless : StrictWeakOrder less).

Lemma insertBack_sorted x l : SortedRev less l → SortedRev less (insertBack less x l).
Proof.
  unfold SortedRev. induction l as [|y l IH]; intros Hs; simpl.
  - repeat constructor.
  - apply StronglySorted_cons in Hs as [Hy Hl].
    destruct (less x y) eqn:Hxy.
    + constructor; [by apply IH|].
      rewrite insertBack_perm. constructor; [|done].
      by apply (swo_asym less Hless).
    + constructor; [by constructor|].
      constructor; [done|].
      eapply Forall_impl; [exact Hy|]. intros z Hyz. simpl in Hyz.
      by apply (swo_negtrans less Hless x y z).
Qed.

Lemma SortedRev_rev l : SortedRev less l → SortedBy less (rev l).
Proof.
  unfold SortedRev, SortedBy. induction l as [|x l IH]; intros Hs; simpl.
  - constructor.
  - apply StronglySorted_cons in Hs as [Hx Hl].
    apply StronglySorted_app_2; [|by apply IH|repeat constructor].
    intros a b Ha Hb. apply list_elem_of_singleton in Hb as ->.
    rewrite Forall_forall in Hx. apply Hx.
    apply list_elem_of_In. apply list_elem_of_In in Ha. by apply in_rev.
Qed.

Lemma insertionSort_sorted l : SortedBy less (insertionSort less l).
Proof.
  unfold insertionSort. apply SortedRev_rev.
  assert (H : ∀ acc, SortedRev less acc →
              SortedRev less (fold_left (λ acc x, insertBack less x acc) l acc)).
  { induction l as [|x l IH]; intros acc Hacc; simpl; [done|].
    by apply IH, insertBack_sorted. }
  apply H. constructor.
Qed.

End InsertionSort.

(** A runtime: every loop visits a map in the order of [map_to_list],
    slices are sorted by insertion. *)
#[global] Instance insertionRuntime : GoRuntime := {|
  mapRangeAt := λ k V m, map_to_list m;
  mapRangeAt_perm := λ k V m, reflexivity (map_to_list m);
  sortSlice := λ A less l, insertionSort less l;
  sortSlice_perm := λ A less l, insertionSort_perm less l;
  sortSlice_sorted := λ A less l Hless, insertionSort_sorted less Hless l
|}.

(** ** The loops over maps *)

Lemma mapRange_perm `{!GoRuntime} (V : Type) (m : gmap string V) :
  mapRange m ≡ₚ map_to_list m.
Proof. apply mapRangeAt_perm. Qed.

Lemma sumZ_perm (l l' : list Z) : l ≡ₚ l' → sumZ l = sumZ l'.
Proof. unfold sumZ. induction 1; simpl; lia. Qed.

Lemma sumZ_nonneg (l : list Z) : Forall (λ x, 0 <= x) l → 0 <= sumZ l.
Proof. unfold sumZ. induction 1; simpl; lia. Qed.

Lemma multiCount_parts (m : gmap string Z) :
  sumZ (map multiPart (map_to_list m)) = multiCount m.
Proof.
  unfold multiCount.
  induction m as [|i x m Hi IH] using map_ind.
  - by rewrite !delete_empty, map_to_list_empty.
  - rewrite (sumZ_perm _ _ (Permutation_map multiPart (map_to_list_insert m i x Hi))).
    simpl. rewrite IH. unfold multiPart at 1. simpl.
    destruct (String.eqb_spec i "UNVERSIONED") as [->|Hu]; simpl.
    { by rewrite delete_insert_ne, delete_insert_eq. }
    destruct (String.eqb_spec i "SINGLE_VERSION") as [->|Hs]; simpl.
    { by rewrite delete_insert_eq. }
    rewrite !delete_insert_ne by done.
    assert (Hd : delete "UNVERSIONED" (delete "SINGLE_VERSION" m) !! i = None).
    { by rewrite !lookup_delete_ne. }
    by rewrite (sumZ_perm _ _ (Permutation_map snd (map_to_list_insert _ i x Hd))).
Qed.

Section StatusFacts.
Context `{!GoRuntime}.

Lemma totalVersioned_spec (m : gmap string Z) :
  totalVersioned m = Int64.wrap (multiCount m).
Proof.
  unfold totalVersioned.
  rewrite <- multiCount_parts, <- (sumZ_perm _ _ (Permutation_map multiPart (mapRange_perm Z m))).
  assert (Hf : ∀ l a,
    fold_left
      (λ acc kv,
         if negb (String.eqb (fst kv) "UNVERSIONED") && negb (String.eqb (fst kv) "SINGLE_VERSION")
         then Int64.add acc (snd kv) else acc)
      l (Int64.wrap a)
    = Int64.wrap (a + sumZ (map multiPart l))).
  { induction l as [|kv l IH]; intros a.
    - simpl. by rewrite Z.add_0_r.
    - cbn [fold_left map]. change (sumZ (multiPart kv :: map multiPart l))
        with (multiPart kv + sumZ (map multiPart l)).
      unfold multiPart at 1.
      destruct (negb (String.eqb (fst kv) "UNVERSIONED")
                && negb (String.eqb (fst kv) "SINGLE_VERSION")).
      + unfold Int64.add. rewrite Int64Facts.wrap_add_l, IH. by rewrite Z.add_assoc.
      + by rewrite IH. }
  exact (Hf (mapRange m) 0).
Qed.

Lemma getVersioningStatus_spec (m : gmap string Z) :
  getVersioningStatus m =
  if decide (m = ∅) then "Unknown"
  else statusFromCounts (mapGet m "UNVERSIONED") (mapGet m "SINGLE_VERSION")
         (Int64.wrap (multiCount m)).
Proof.
  unfold getVersioningStatus. rewrite totalVersioned_spec.
  destruct (decide (m = ∅)) as [->|Hne].
  - by rewrite map_size_empty.
  - destruct (Nat.eqb_spec (size m) 0) as [Hz|_].
    { by apply map_size_empty_iff in Hz. }
    unfold statusFromCounts.
    repeat case_decide; repeat
      match goal with
      | |- context [?a <? ?b] => destruct (Z.ltb_spec a b)
      | |- context [?a =? ?b] => destruct (Z.eqb_spec a b)
      end; simpl; try done; lia.
Qed.

End StatusFacts.

(** The status does not depend on the order that its loop takes. *)
Lemma getVersioningStatus_runtime (H1 H2 : GoRuntime) (m : gmap string Z) :
  @getVersioningStatus H1 m = @getVersioningStatus H2 m.
Proof. by rewrite !getVersioningStatus_spec. Qed.

Lemma renderRow_runtime (H1 H2 : GoRuntime) opts bucket :
  @renderRow H1 opts bucket = @renderRow H2 opts bucket.
Proof. unfold renderRow. by rewrite (getVersioningStatus_runtime H1 H2). Qed.

Lemma renderTop_runtime (H1 H2 : GoRuntime) opts i bucket :
  @renderTop H1 opts i bucket = @renderTop H2 opts i bucket.
Proof.
  unfold renderTop.
  by rewrite (getVersioningStatus_runtime (within (S i) H1) (within (S i) H2)).
Qed.

(** ** The order of the printed summaries *)

Lemma bySizeDesc_swo : StrictWeakOrder bySizeDesc.
Proof.
  split; unfold bySizeDesc; intros *; rewrite ?Z.ltb_lt, ?Z.ltb_ge; lia.
Qed.

Lemma StronglySorted_NonIncreasing (l : list Z) :
  StronglySorted (λ a b, b <= a) l → NonIncreasing l.
Proof.
  induction 1 as [|a l Hs IH Ha]; intros i j x y Hij Hi Hj.
  - by rewrite lookup_nil in Hi.
  - destruct j as [|j]; [lia|]. simpl in Hj.
    destruct i as [|i]; simpl in Hi.
    + injection Hi as ->. rewrite Forall_forall in Ha.
      apply Ha. by eapply list_elem_of_lookup_2.
    + eapply (IH i j); [lia|done..].
Qed.

Lemma SortedBy_sizes (l : list BucketSummary) :
  SortedBy bySizeDesc l → NonIncreasing (map SizeBytes l).
Proof.
  intros Hs. apply StronglySorted_NonIncreasing.
  unfold SortedBy in Hs. induction Hs as [|a l Hs IH Ha]; simpl; constructor; [done|].
  apply List.Forall_map. eapply Forall_impl; [exact Ha|].
  intros b Hb. simpl in Hb. unfold bySizeDesc in Hb. by apply Z.ltb_ge in Hb.
Qed.

Lemma NonIncreasing_take (l : list Z) n : NonIncreasing l → NonIncreasing (take n l).
Proof.
  intros Hl i j x y Hij Hi Hj.
  apply lookup_take_Some in Hi as [Hi _]. apply lookup_take_Some in Hj as [Hj _].
  by apply (Hl i j).
Qed.

Lemma GetSummary_sorted `{H : !GoRuntime} mp : SortedBy bySizeDesc (GetSummary mp).
Proof. apply sortSlice_sorted, bySizeDesc_swo. Qed.

Lemma GetSummary_perm `{H : !GoRuntime} mp :
  GetSummary mp ≡ₚ map snd (map_to_list (buckets mp)).
Proof. unfold GetSummary. by rewrite sortSlice_perm, mapRange_perm. Qed.

Section ViewFacts.
Context `{H : !GoRuntime}.

Lemma renderedSummaries_sorted opts mp l :
  renderedSummaries opts mp = Some l → SortedBy bySizeDesc l.
Proof.
  unfold renderedSummaries, orClusterFallback, withRequestedCluster.
  pose proof (GetSummary_sorted (H := within 0 H) mp) as Hs.
  destruct (GetSummary (H := within 0 H) mp) as [|b bs] eqn:E; simpl.
  - destruct (clusterHasData mp); [|done]. intros [= <-].
    rewrite andb_true_r. destruct (Cluster opts); simpl; repeat constructor.
  - intros [= <-].
    destruct (Cluster opts && clusterHasData mp); [|done].
    match goal with |- context [if ?c then _ else _] => destruct c end; [done|].
    apply sortSlice_sorted, bySizeDesc_swo.
Qed.

Lemma renderLoop_spec opts l :
  renderLoop opts l =
  (map (renderRow opts) l,
   Int64.wrap (sumZ (map ObjectCount l)),
   Int64.wrap (sumZ (map SizeBytes l))).
Proof.
  unfold renderLoop.
  assert (Hloop : ∀ rows a b,
    fold_left
      (λ acc bucket,
         let '(rows, objects, bytes) := acc in
         ((rows ++ [renderRow (H := within (S (length rows)) H) opts bucket])%list,
          Int64.add objects (ObjectCount bucket),
          Int64.add bytes (SizeBytes bucket)))
      l (rows, Int64.wrap a, Int64.wrap b)
    = ((rows ++ map (renderRow opts) l)%list,
       Int64.wrap (a + sumZ (map ObjectCount l)),
       Int64.wrap (b + sumZ (map SizeBytes l)))).
  { induction l as [|x l IH]; intros rows a b; simpl.
    - by rewrite app_nil_r, !Z.add_0_r.
    - unfold Int64.add. rewrite !Int64Facts.wrap_add_l, IH.
      rewrite (renderRow_runtime (within (S (length rows)) H) H).
      rewrite <- app_assoc. simpl. by rewrite !Z.add_assoc. }
  exact (Hloop [] 0 0).
Qed.

Lemma PrintSummaryTable_rows mp opts :
  tableRows (PrintSummaryTable mp opts)
  = map (renderRow opts) (default [] (renderedSummaries opts mp)).
Proof.
  unfold PrintSummaryTable, renderedSummaries.
  destruct (orClusterFallback mp (GetSummary (H := within 0 H) mp)) as [l|]; [|done].
  rewrite renderLoop_spec. done.
Qed.

Lemma PrintTopBuckets_entries mp n opts :
  map topBytes (topEntries (PrintTopBuckets mp n opts))
  = take (Z.to_nat n) (map SizeBytes (default [] (renderedSummaries opts mp))).
Proof.
  unfold PrintTopBuckets.
  destruct (renderedSummaries opts mp) as [l|]; simpl; [|by rewrite take_nil].
  set (n1 := if Z.of_nat (length l) <? n then Z.of_nat (length l) else n).
  assert (Hn : take (Z.to_nat n1) l = take (Z.to_nat n) l).
  { subst n1. destruct (Z.ltb_spec (Z.of_nat (length l)) n); [|done].
    rewrite Nat2Z.id, firstn_all. symmetry. apply firstn_all2. lia. }
  rewrite Hn, firstn_map.
  generalize (take (Z.to_nat n) l). intros l'.
  assert (Hk : ∀ k, map topBytes (imap (λ i, renderTop opts (k + i)) l') = map SizeBytes l').
  { induction l' as [|x l' IH]; intros k; simpl; [done|]. f_equal.
    rewrite <- (IH (S k)). f_equal. apply imap_ext. intros i y _. simpl.
    f_equal. lia. }
  exact (Hk 0%nat).
Qed.

(** C6. The summaries handed to the printing loops are sorted by size, largest
    first: the list of [GetSummary], the rows of the summary table and the
    entries of the top-N view never increase in SizeBytes from one position
    to a later one, whichever order the runtime visits the map in and
    whichever sort it runs. *)
Theorem summaries_sorted_by_size (mp : MetricParser) (opts : DisplayOptions) (n : Z) :
  NonIncreasing (map SizeBytes (GetSummary mp))
  ∧ NonIncreasing (map rowBytes (tableRows (PrintSummaryTable mp opts)))
  ∧ NonIncreasing (map topBytes (topEntries (PrintTopBuckets mp n opts))).
Proof.
  assert (Hr : NonIncreasing (map SizeBytes (default [] (renderedSummaries opts mp)))).
  { destruct (renderedSummaries opts mp) as [l|] eqn:E; simpl.
    - by eapply SortedBy_sizes, renderedSummaries_sorted.
    - intros i j x y _ Hi. by rewrite lookup_nil in Hi. }
  split; [|split].
  - apply SortedBy_sizes, GetSummary_sorted.
  - rewrite PrintSummaryTable_rows, map_map. exact Hr.
  - rewrite PrintTopBuckets_entries. by apply NonIncreasing_take.
Qed.

End ViewFacts.

(** ** The totals row *)

(** C7, as the code has it. In the summary table the totals row counts the
    rows printed above it (the cluster aggregate among them when it is
    printed), and its object and byte totals are the sums of the rows'
    ObjectCount and SizeBytes in [int64] arithmetic: the exact sums reduced
    modulo 2^64, hence the exact sums whenever these fit in an [int64]. *)
Theorem totals_row_sums `{H : !GoRuntime} (mp : MetricParser) (opts : DisplayOptions) :
  let out := PrintSummaryTable mp opts in
  let rows := tableRows out in
  totalCount (tableTotals out) = length rows
  ∧ totalObjects (tableTotals out) = Int64.wrap (sumZ (map rowObjects rows))
  ∧ totalBytes (tableTotals out) = Int64.wrap (sumZ (map rowBytes rows))
  ∧ (Int64.in_range (sumZ (map rowObjects rows)) →
     totalObjects (tableTotals out) = sumZ (map rowObjects rows))
  ∧ (Int64.in_range (sumZ (map rowBytes rows)) →
     totalBytes (tableTotals out) = sumZ (map rowBytes rows)).
Proof.
  cbv zeta.
  assert (Hmain :
    totalCount (tableTotals (PrintSummaryTable mp opts))
      = length (tableRows (PrintSummaryTable mp opts))
    ∧ totalObjects (tableTotals (PrintSummaryTable mp opts))
      = Int64.wrap (sumZ (map rowObjects (tableRows (PrintSummaryTable mp opts))))
    ∧ totalBytes (tableTotals (PrintSummaryTable mp opts))
      = Int64.wrap (sumZ (map rowBytes (tableRows (PrintSummaryTable mp opts))))).
  { unfold PrintSummaryTable.
    destruct (orClusterFallback mp (GetSummary (H := within 0 H) mp)) as [l|]; [|done].
    rewrite renderLoop_spec. simpl.
    rewrite length_map, !map_map. done. }
  destruct Hmain as (Hc & Ho & Hb).
  repeat split; try done.
  - intros Hr. rewrite Ho. by apply Int64Facts.wrap_small.
  - intros Hr. rewrite Hb. by apply Int64Facts.wrap_small.
Qed.

Lemma totals_row_sums_witness :
  totalObjects (tableTotals (PrintSummaryTable (parseLines twoSmallBuckets) plainOptions)) = 12
  ∧ totalBytes (tableTotals (PrintSummaryTable (parseLines twoSmallBuckets) plainOptions)) = 2048.
Proof.
  pose proof (totals_row_sums (parseLines twoSmallBuckets) plainOptions) as H.
  cbv zeta in H. destruct H as (_ & _ & _ & Ho & Hb).
  split.
  - rewrite Ho; [reflexivity|]. vm_compute. split; discriminate.
  - rewrite Hb; [reflexivity|]. vm_compute. split; discriminate.
Defined.

(** C7, as stated, fails when the sum leaves [int64]: two buckets of 2^62
    objects each are printed above a total of -2^63. *)
Lemma totals_row_overflow :
  map rowObjects (tableRows (PrintSummaryTable (parseLines twoBigBuckets) plainOptions))
    = [4611686018427387904; 4611686018427387904]
  ∧ totalObjects (tableTotals (PrintSummaryTable (parseLines twoBigBuckets) plainOptions))
    = -9223372036854775808.
Proof. split; vm_compute; reflexivity. Qed.

(** ** Versioning status *)

Lemma multiCount_nonneg (m : gmap string Z) :
  (∀ k v, m !! k = Some v → 0 <= v) → 0 <= multiCount m.
Proof.
  intros Hm. apply sumZ_nonneg, List.Forall_map, Forall_forall.
  intros [k v] Hkv. apply elem_of_map_to_list in Hkv. simpl.
  apply lookup_delete_Some in Hkv as [_ Hkv].
  apply lookup_delete_Some in Hkv as [_ Hkv]. by eapply Hm.
Qed.

Lemma mapGet_nonneg (m : gmap string Z) k :
  (∀ k v, m !! k = Some v → 0 <= v) → 0 <= mapGet m k.
Proof.
  intros Hm. unfold mapGet. destruct (m !! k) as [v|] eqn:E; simpl; [by eapply Hm|lia].
Qed.

(** C4, as the code has it. An empty map yields Unknown; otherwise, with the
    sum over the other keys taken in [int64]: a positive UNVERSIONED count
    with SINGLE_VERSION and the sum both zero gives Unversioned; else a
    positive SINGLE_VERSION count with a zero sum gives Single Version; else a
    positive sum gives Multi-Version; else Mixed.  When no count is negative
    and the sum fits in an [int64], positive and nonzero coincide and the
    derivation is the stated one.  The four examples hold. *)
Theorem versioning_status_derivation `{!GoRuntime} (m : gmap string Z) :
  getVersioningStatus m
    = (if decide (m = ∅) then "Unknown"
       else statusFromCounts (mapGet m "UNVERSIONED") (mapGet m "SINGLE_VERSION")
              (Int64.wrap (multiCount m)))
  ∧ ((∀ k v, m !! k = Some v → 0 <= v) → multiCount m <= Int64.max_int →
     getVersioningStatus m = versioningStatusAsStated m)
  ∧ getVersioningStatus {["SINGLE_VERSION" := 5]} = "Single Version"
  ∧ getVersioningStatus {["UNVERSIONED" := 3]} = "Unversioned"
  ∧ getVersioningStatus (<["SINGLE_VERSION" := 5]> {["BETWEEN_2_AND_10" := 1]}) = "Multi-Version"
  ∧ getVersioningStatus ∅ = "Unknown".
Proof.
  split; [apply getVersioningStatus_spec|].
  split.
  { intros Hpos Hmax. rewrite getVersioningStatus_spec.
    unfold versioningStatusAsStated, statusFromCounts.
    pose proof (multiCount_nonneg m Hpos) as Hm.
    pose proof (mapGet_nonneg m "UNVERSIONED" Hpos) as Hu.
    pose proof (mapGet_nonneg m "SINGLE_VERSION" Hpos) as Hs.
    rewrite Int64Facts.wrap_small
      by (unfold Int64.in_range, Int64.min_int; lia).
    repeat case_decide; try done; lia. }
  repeat split; rewrite getVersioningStatus_spec; vm_compute; reflexivity.
Qed.

Lemma versioning_status_derivation_witness :
  getVersioningStatus (<["UNVERSIONED" := 2]> {["SINGLE_VERSION" := 0]})
  = versioningStatusAsStated (<["UNVERSIONED" := 2]> {["SINGLE_VERSION" := 0]}).
Proof.
  apply (proj1 (proj2 (versioning_status_derivation
                         (<["UNVERSIONED" := 2]> {["SINGLE_VERSION" := 0]})))).
  - intros k v Hkv.
    apply lookup_insert_Some in Hkv as [[_ <-]|[_ Hkv]]; [lia|].
    apply lookup_singleton_Some in Hkv as [_ <-]. lia.
  - vm_compute. discriminate.
Defined.

(** C4, as stated, fails on a count that is not zero but negative: the line
    above leaves the bucket with UNVERSIONED at -3 and nothing else, which
    the stated derivation calls Unversioned and the code Mixed. *)
Lemma versioning_status_negative_count :
  VersionDistribution <$> (buckets (parseLines negativeUnversioned) !! "b")
    = Some {["UNVERSIONED" := -3]}
  ∧ versioningStatusAsStated {["UNVERSIONED" := -3]} = "Unversioned"
  ∧ getVersioningStatus {["UNVERSIONED" := -3]} = "Mixed".
Proof. repeat split; vm_compute; reflexivity. Qed.

(** ** Size status *)

Lemma smallCount_spec m : smallCount m = partitionCount smallKeys m.
Proof.
  unfold smallCount, partitionCount, Int64.add, smallKeys, sumZ. simpl.
  repeat (rewrite Int64Facts.wrap_add_l || rewrite <- Z.add_assoc).
  f_equal. lia.
Qed.

Lemma mediumCount_spec m : mediumCount m = partitionCount mediumKeys m.
Proof.
  unfold mediumCount, partitionCount, Int64.add, mediumKeys, sumZ. simpl.
  f_equal. lia.
Qed.

Lemma largeCount_spec m : largeCount m = partitionCount largeKeys m.
Proof.
  unfold largeCount, partitionCount, Int64.add, largeKeys, sumZ. simpl.
  repeat (rewrite Int64Facts.wrap_add_l || rewrite <- Z.add_assoc).
  f_equal. lia.
Qed.

(** C5, as the code has it. The keys that the size report knows are split
    into the sub-1MB ranges, the 1MB-10MB and 10MB-64MB ranges, and the
    ranges from 64MB up; the counts are summed per part in [int64].  An empty
    map yields Unknown.  For any other map a zero grand total yields Empty,
    and otherwise the parts' percentages, computed in binary64 as
    [float64(part) / float64(total) * 100], are tested in turn: small at
    least 80 gives Mostly Small, else medium at least 60 Mostly Medium, else
    large at least 60 Mostly Large, else Mixed Sizes. *)
Theorem size_status_derivation (m : gmap string Z) :
  let small := partitionCount smallKeys m in
  let medium := partitionCount mediumKeys m in
  let large := partitionCount largeKeys m in
  let total := Int64.wrap (small + medium + large) in
  (smallKeys ++ mediumKeys ++ largeKeys)%list ≡ₚ map fst sizeRangeOrder
  ∧ NoDup (smallKeys ++ mediumKeys ++ largeKeys)%list
  ∧ getSizeStatus m
    = if decide (m = ∅) then "Unknown"
      else if decide (total = 0) then "Empty"
      else if atLeast (percentOf small total) 80 then "Mostly Small"
      else if atLeast (percentOf medium total) 60 then "Mostly Medium"
      else if atLeast (percentOf large total) 60 then "Mostly Large"
      else "Mixed Sizes".
Proof.
  cbv zeta. split; [|split].
  - unfold smallKeys, mediumKeys, largeKeys, sizeRangeOrder. simpl.
    do 2 apply perm_skip.
    exact (Permutation_app_tail
             [ "BETWEEN_1_MB_AND_10_MB"; "BETWEEN_10_MB_AND_64_MB";
               "BETWEEN_64_MB_AND_128_MB"; "BETWEEN_128_MB_AND_512_MB";
               "GREATER_THAN_512_MB" ]
             (Permutation_app_comm
                [ "BETWEEN_1024_B_AND_1_MB"; "BETWEEN_1024B_AND_1_MB" ]
                [ "BETWEEN_64_KB_AND_256_KB"; "BETWEEN_256_KB_AND_512_KB";
                  "BETWEEN_512_KB_AND_1_MB" ])).
  - apply (bool_decide_unpack _). vm_compute. exact I.
  - unfold getSizeStatus.
    rewrite smallCount_spec, mediumCount_spec, largeCount_spec.
    change (Int64.add (Int64.add (partitionCount smallKeys m) (partitionCount mediumKeys m))
              (partitionCount largeKeys m))
      with (Int64.wrap (Int64.wrap (partitionCount smallKeys m + partitionCount mediumKeys m)
                        + partitionCount largeKeys m)).
    rewrite Int64Facts.wrap_add_l.
    destruct (decide (m = ∅)) as [->|Hne].
    + by rewrite map_size_empty.
    + destruct (Nat.eqb_spec (size m) 0) as [Hz|_].
      { by apply map_size_empty_iff in Hz. }
      case_decide as Ht.
      * by rewrite Ht.
      * destruct (Z.eqb_spec
                    (Int64.wrap (partitionCount smallKeys m + partitionCount mediumKeys m
                                 + partitionCount largeKeys m)) 0); [done|].
        reflexivity.
Qed.

(** C5, as stated, fails on the empty map, whose total is zero and whose
    status is Unknown, not Empty; and the percentages are binary64 values:
    6799999999999999 small objects out of 8500000000000000 are less than 80%
    of the total and yet Mostly Small. *)
Lemma size_status_empty_map_unknown :
  sizeStatusAsStated ∅ = "Empty"
  ∧ getSizeStatus ∅ = "Unknown"
  ∧ sizeStatusAsStated nearlyFourFifths = "Mixed Sizes"
  ∧ getSizeStatus nearlyFourFifths = "Mostly Small".
Proof. repeat split; vm_compute; reflexivity. Qed.

(** ** What one line adds to the aggregate *)

Lemma mapGet_mapAdd m k v k' :
  mapGet (mapAdd m k v) k' = if String.eqb k k' then Int64.add (mapGet m k') v else mapGet m k'.
Proof.
  unfold mapAdd, mapGet at 1.
  destruct (String.eqb_spec k k') as [->|Hne].
  - by rewrite lookup_insert_eq.
  - by rewrite lookup_insert_ne.
Qed.

Lemma addServer_fields bs s :
  Name (addServer bs s) = Name bs
  ∧ ObjectCount (addServer bs s) = ObjectCount bs
  ∧ SizeBytes (addServer bs s) = SizeBytes bs
  ∧ VersionDistribution (addServer bs s) = VersionDistribution bs
  ∧ SizeDistribution (addServer bs s) = SizeDistribution bs.
Proof. unfold addServer. by destruct (existsb _ _). Qed.

Lemma applyBucketMetrics_Name bs line : Name (applyBucketMetrics bs line) = Name bs.
Proof. unfold applyBucketMetrics. by repeat case_match. Qed.

Lemma applyBucketMetrics_Servers bs line : Servers (applyBucketMetrics bs line) = Servers bs.
Proof. unfold applyBucketMetrics. by repeat case_match. Qed.

Lemma applyBucketMetrics_ObjectCount bs line :
  ObjectCount (applyBucketMetrics bs line) =
  if Contains line "minio_bucket_usage_object_total"
  then Int64.add (ObjectCount bs) (extractValue line) else ObjectCount bs.
Proof. unfold applyBucketMetrics. by repeat case_match. Qed.

Lemma applyBucketMetrics_SizeBytes bs line :
  SizeBytes (applyBucketMetrics bs line) =
  if Contains line "minio_bucket_usage_total_bytes"
  then Int64.add (SizeBytes bs) (extractValue line) else SizeBytes bs.
Proof. unfold applyBucketMetrics. by repeat case_match. Qed.

Lemma applyBucketMetrics_VersionDistribution bs line k :
  mapGet (VersionDistribution (applyBucketMetrics bs line)) k =
  if Contains line "minio_bucket_objects_version_distribution" && rangeKeyIs k line
  then Int64.add (mapGet (VersionDistribution bs) k) (extractValue line)
  else mapGet (VersionDistribution bs) k.
Proof.
  unfold applyBucketMetrics, rangeKeyIs.
  repeat case_match; simpl in *; rewrite ?mapGet_mapAdd; try done;
    repeat case_match; try done; congruence.
Qed.

Lemma applyBucketMetrics_SizeDistribution bs line k :
  mapGet (SizeDistribution (applyBucketMetrics bs line)) k =
  if Contains line "minio_bucket_objects_size_distribution" && rangeKeyIs k line
  then Int64.add (mapGet (SizeDistribution bs) k) (extractValue line)
  else mapGet (SizeDistribution bs) k.
Proof.
  unfold applyBucketMetrics, rangeKeyIs.
  repeat case_match; simpl in *; rewrite ?mapGet_mapAdd; try done;
    repeat case_match; try done; congruence.
Qed.

Lemma dataLine_parseLine mp raw :
  parseLine mp raw =
  match dataLine raw with
  | None => mp
  | Some line =>
      if String.eqb (extractBucketName line) "" then parseClusterLine mp line
      else parseBucketLine mp (extractBucketName line) line
  end.
Proof. unfold parseLine, dataLine. by destruct (skipped (TrimSpace raw)). Qed.

Lemma dataLine_trimmed raw line : dataLine raw = Some line → line = TrimSpace raw.
Proof. unfold dataLine. destruct (skipped _); congruence. Qed.

Lemma parseClusterLine_buckets mp line : buckets (parseClusterLine mp line) = buckets mp.
Proof. unfold parseClusterLine. by repeat case_match. Qed.

Section BucketCounter.

(** A counter that [applyBucketMetrics] grows by the value of the lines that
    [hit] selects. *)
Variable counter : BucketSummary → Z.
Variable hit : string → bool.
Hypothesis counter_new : ∀ b, counter (newBucket b) = 0.
Hypothesis counter_addServer : ∀ bs s, counter (addServer bs s) = counter bs.
Hypothesis counter_apply : ∀ bs line,
  counter (applyBucketMetrics bs line) =
  if hit line then Int64.add (counter bs) (extractValue line) else counter bs.

Lemma bucketCounter_step b mp raw :
  b ≠ "" →
  bucketCounter counter b (parseLine mp raw) =
  if hitsBucket hit b raw then Int64.add (bucketCounter counter b mp) (lineValue raw)
  else bucketCounter counter b mp.
Proof.
  intros Hb. unfold bucketCounter, hitsBucket, lineValue.
  rewrite dataLine_parseLine.
  destruct (dataLine raw) as [line|] eqn:Hd; [|done].
  rewrite <- (dataLine_trimmed raw line Hd).
  destruct (String.eqb_spec (extractBucketName line) "") as [He|Hne].
  - rewrite parseClusterLine_buckets.
    destruct (String.eqb_spec (extractBucketName line) b); [congruence|done].
  - unfold parseBucketLine. simpl.
    destruct (String.eqb_spec (extractBucketName line) b) as [->|Hnb]; simpl.
    + rewrite lookup_insert_eq. simpl. rewrite counter_apply, counter_addServer.
      destruct (buckets mp !! b); simpl; [done|]. by rewrite counter_new.
    + by rewrite lookup_insert_ne.
Qed.

End BucketCounter.

Lemma fold_counter (c : MetricParser → Z) (p : string → bool) :
  (∀ mp raw, c (parseLine mp raw) =
             if p raw then Int64.add (c mp) (lineValue raw) else c mp) →
  ∀ lines mp a, c mp = Int64.wrap a →
    c (fold_left parseLine lines mp) = Int64.wrap (a + sumOver p lines).
Proof.
  intros Hstep. unfold sumOver.
  induction lines as [|raw lines IH]; intros mp a Ha; simpl.
  - by rewrite Z.add_0_r.
  - destruct (p raw) eqn:Hp; simpl.
    + rewrite (IH _ (a + lineValue raw)).
      * f_equal. unfold sumZ. simpl. lia.
      * rewrite Hstep, Hp, Ha. unfold Int64.add. apply Int64Facts.wrap_add_l.
    + apply IH. by rewrite Hstep, Hp.
Qed.

Ltac cluster_cases line :=
  destruct (String.eqb (extractBucketName line) ""); [|done];
  unfold parseClusterLine, firstFamily, clusterFamilies, rangeKeyIs;
  repeat
    match goal with
    | |- context [Contains line ?f] => destruct (Contains line f)
    end;
  repeat
    match goal with
    | |- context [String.eqb (extractRange line) ""] =>
        destruct (String.eqb (extractRange line) "")
    end;
  simpl; rewrite ?mapGet_mapAdd;
  repeat case_bool_decide; simpl; try done; try congruence.

Ltac cluster_step :=
  intros; unfold isClusterLine, isClusterRangeLine, lineValue, clusterVersions, clusterSizes;
  rewrite dataLine_parseLine;
  match goal with
  | |- context [dataLine ?raw] =>
      let Hd := fresh "Hd" in
      let line := fresh "line" in
      destruct (dataLine raw) as [line|] eqn:Hd; [|done];
      rewrite <- (dataLine_trimmed raw line Hd);
      cluster_cases line
  end.

Lemma ClusterObjects_step mp raw :
  ClusterObjects (parseLine mp raw) =
  if isClusterLine "minio_cluster_usage_object_total" raw
  then Int64.add (ClusterObjects mp) (lineValue raw) else ClusterObjects mp.
Proof. cluster_step. Qed.

Lemma ClusterBytes_step mp raw :
  ClusterBytes (parseLine mp raw) =
  if isClusterLine "minio_cluster_usage_total_bytes" raw
  then Int64.add (ClusterBytes mp) (lineValue raw) else ClusterBytes mp.
Proof. cluster_step. Qed.

Lemma clusterVersions_step k mp raw :
  clusterVersions k (parseLine mp raw) =
  if isClusterRangeLine "minio_cluster_objects_version_distribution" k raw
  then Int64.add (clusterVersions k mp) (lineValue raw) else clusterVersions k mp.
Proof. cluster_step. Qed.

Lemma clusterSizes_step k mp raw :
  clusterSizes k (parseLine mp raw) =
  if isClusterRangeLine "minio_cluster_objects_size_distribution" k raw
  then Int64.add (clusterSizes k mp) (lineValue raw) else clusterSizes k mp.
Proof. cluster_step. Qed.

(** ** Invariants of the bucket map *)

Lemma existsb_eqb_elem (s : string) (l : list string) :
  existsb (String.eqb s) l = true ↔ s ∈ l.
Proof.
  rewrite existsb_exists. split.
  - intros (x & Hx & Hs). apply String.eqb_eq in Hs as ->. by apply list_elem_of_In.
  - intros Hs. exists s. split; [by apply list_elem_of_In|apply String.eqb_refl].
Qed.

Lemma addServer_Servers bs s :
  Servers (addServer bs s) = if bool_decide (s ∈ Servers bs) then Servers bs else (Servers bs ++ [s])%list.
Proof.
  unfold addServer. destruct (existsb (String.eqb s) (Servers bs)) eqn:E.
  - apply existsb_eqb_elem in E. by rewrite bool_decide_eq_true_2.
  - rewrite bool_decide_eq_false_2; [done|].
    intros Hin. apply existsb_eqb_elem in Hin. congruence.
Qed.

Lemma addServer_NoDup bs s : NoDup (Servers bs) → NoDup (Servers (addServer bs s)).
Proof.
  intros Hnd. rewrite addServer_Servers. case_bool_decide as Hin; [done|].
  apply NoDup_app. split; [done|]. split; [|apply NoDup_singleton].
  intros x Hx Hxs. apply list_elem_of_singleton in Hxs as ->. done.
Qed.

Lemma addServer_keeps bs s x : x ∈ Servers bs → x ∈ Servers (addServer bs s).
Proof.
  intros Hx. rewrite addServer_Servers. case_bool_decide; [done|].
  apply elem_of_app. by left.
Qed.

Lemma WellKeyed_new : WellKeyed NewMetricParser.
Proof. intros b bs H. simpl in H. by rewrite lookup_empty in H. Qed.

Lemma WellKeyed_parseLine mp raw : WellKeyed mp → WellKeyed (parseLine mp raw).
Proof.
  intros Hwk. rewrite dataLine_parseLine.
  destruct (dataLine raw) as [line|]; [|done].
  destruct (String.eqb_spec (extractBucketName line) "") as [He|Hne].
  - intros b bs. rewrite parseClusterLine_buckets. apply Hwk.
  - intros b bs. unfold parseBucketLine. simpl.
    destruct (decide (extractBucketName line = b)) as [<-|Hnb].
    + rewrite lookup_insert_eq. intros [= <-].
      rewrite applyBucketMetrics_Name, applyBucketMetrics_Servers.
      split; [done|].
      destruct (buckets mp !! extractBucketName line) as [old|] eqn:Hold.
      * destruct (Hwk _ _ Hold) as (_ & Hn & Hnd).
        split; [by rewrite (proj1 (addServer_fields old _))|by apply addServer_NoDup].
      * split; [by rewrite (proj1 (addServer_fields _ _))|].
        apply addServer_NoDup. simpl. apply NoDup_nil_2.
    + rewrite lookup_insert_ne by done. apply Hwk.
Qed.

Lemma WellKeyed_fold lines mp : WellKeyed mp → WellKeyed (fold_left parseLine lines mp).
Proof.
  revert mp. induction lines as [|raw lines IH]; intros mp Hwk; simpl; [done|].
  by apply IH, WellKeyed_parseLine.
Qed.

Lemma WellKeyed_parseLines lines : WellKeyed (parseLines lines).
Proof. apply WellKeyed_fold, WellKeyed_new. Qed.

(** A bucket and the servers it lists are never dropped. *)
Lemma parseLine_keeps mp raw b bs s :
  buckets mp !! b = Some bs → s ∈ Servers bs →
  ∃ bs', buckets (parseLine mp raw) !! b = Some bs' ∧ s ∈ Servers bs'.
Proof.
  intros Hb Hs. rewrite dataLine_parseLine.
  destruct (dataLine raw) as [line|]; [|by eauto].
  destruct (String.eqb_spec (extractBucketName line) "") as [He|Hne].
  - rewrite parseClusterLine_buckets. eauto.
  - unfold parseBucketLine. simpl.
    destruct (decide (extractBucketName line = b)) as [->|Hnb].
    + rewrite lookup_insert_eq, Hb. eexists. split; [done|].
      rewrite applyBucketMetrics_Servers. by apply addServer_keeps.
    + rewrite lookup_insert_ne by done. eauto.
Qed.

Lemma fold_keeps lines mp b bs s :
  buckets mp !! b = Some bs → s ∈ Servers bs →
  ∃ bs', buckets (fold_left parseLine lines mp) !! b = Some bs' ∧ s ∈ Servers bs'.
Proof.
  revert mp bs. induction lines as [|raw lines IH]; intros mp bs Hb Hs; simpl; [by eauto|].
  destruct (parseLine_keeps mp raw b bs s Hb Hs) as (bs' & Hb' & Hs'). by eapply IH.
Qed.

(** The loop body on a line with a bucket label: the record exists
    afterwards, with the line's server label appended unless listed. *)
Lemma parseLine_registers mp raw line :
  dataLine raw = Some line → extractBucketName line ≠ "" →
  ∃ bs, buckets (parseLine mp raw) !! extractBucketName line = Some bs
        ∧ Servers bs =
            let old := from_option Servers [] (buckets mp !! extractBucketName line) in
            if bool_decide (extractServerName line ∈ old) then old
            else (old ++ [extractServerName line])%list.
Proof.
  intros Hd Hne. rewrite dataLine_parseLine, Hd.
  destruct (String.eqb_spec (extractBucketName line) ""); [done|].
  unfold parseBucketLine. simpl. rewrite lookup_insert_eq. eexists. split; [done|].
  rewrite applyBucketMetrics_Servers, addServer_Servers.
  by destruct (buckets mp !! extractBucketName line).
Qed.

(** ** Every counter is the sum of its lines *)

Lemma counter_parseLines (c : MetricParser → Z) (p : string → bool) :
  (∀ mp raw, c (parseLine mp raw) =
             if p raw then Int64.add (c mp) (lineValue raw) else c mp) →
  c NewMetricParser = 0 →
  ∀ lines, c (parseLines lines) = Int64.wrap (sumOver p lines).
Proof.
  intros Hstep H0 lines. unfold parseLines. simpl.
  exact (fold_counter c p Hstep lines NewMetricParser 0 H0).
Qed.

Lemma bucketObjects_sum lines b :
  b ≠ "" →
  bucketObjects b (parseLines lines) = Int64.wrap (sumOver (isBucketLine objectFamily b) lines).
Proof.
  intros Hb.
  apply (counter_parseLines (bucketObjects b) (isBucketLine objectFamily b)); [|done].
  intros mp raw.
  apply (bucketCounter_step ObjectCount (λ line, Contains line objectFamily)); try done.
  - intros bs s. apply addServer_fields.
  - apply applyBucketMetrics_ObjectCount.
Qed.

Lemma bucketBytes_sum lines b :
  b ≠ "" →
  bucketBytes b (parseLines lines) = Int64.wrap (sumOver (isBucketLine bytesFamily b) lines).
Proof.
  intros Hb.
  apply (counter_parseLines (bucketBytes b) (isBucketLine bytesFamily b)); [|done].
  intros mp raw.
  apply (bucketCounter_step SizeBytes (λ line, Contains line bytesFamily)); try done.
  - intros bs s. apply addServer_fields.
  - apply applyBucketMetrics_SizeBytes.
Qed.

Lemma bucketVersions_sum lines b k :
  b ≠ "" →
  bucketVersions b k (parseLines lines)
  = Int64.wrap (sumOver (isBucketRangeLine versionFamily b k) lines).
Proof.
  intros Hb.
  apply (counter_parseLines (bucketVersions b k) (isBucketRangeLine versionFamily b k)); [|done].
  intros mp raw.
  apply (bucketCounter_step (λ bs, mapGet (VersionDistribution bs) k)
           (λ line, Contains line versionFamily && rangeKeyIs k line)); try done.
  - intros bs s. by rewrite (proj1 (proj2 (proj2 (proj2 (addServer_fields bs s))))).
  - intros bs line. apply applyBucketMetrics_VersionDistribution.
Qed.

Lemma bucketSizes_sum lines b k :
  b ≠ "" →
  bucketSizes b k (parseLines lines)
  = Int64.wrap (sumOver (isBucketRangeLine sizeFamily b k) lines).
Proof.
  intros Hb.
  apply (counter_parseLines (bucketSizes b k) (isBucketRangeLine sizeFamily b k)); [|done].
  intros mp raw.
  apply (bucketCounter_step (λ bs, mapGet (SizeDistribution bs) k)
           (λ line, Contains line sizeFamily && rangeKeyIs k line)); try done.
  - intros bs s. by rewrite (proj2 (proj2 (proj2 (proj2 (addServer_fields bs s))))).
  - intros bs line. apply applyBucketMetrics_SizeDistribution.
Qed.

Lemma ClusterObjects_sum lines :
  ClusterObjects (parseLines lines)
  = Int64.wrap (sumOver (isClusterLine "minio_cluster_usage_object_total") lines).
Proof. apply (counter_parseLines ClusterObjects); [apply ClusterObjects_step|done]. Qed.

Lemma ClusterBytes_sum lines :
  ClusterBytes (parseLines lines)
  = Int64.wrap (sumOver (isClusterLine "minio_cluster_usage_total_bytes") lines).
Proof. apply (counter_parseLines ClusterBytes); [apply ClusterBytes_step|done]. Qed.

Lemma clusterVersions_sum lines k :
  clusterVersions k (parseLines lines)
  = Int64.wrap (sumOver (isClusterRangeLine "minio_cluster_objects_version_distribution" k) lines).
Proof.
  apply (counter_parseLines (clusterVersions k)); [apply clusterVersions_step|done].
Qed.

Lemma clusterSizes_sum lines k :
  clusterSizes k (parseLines lines)
  = Int64.wrap (sumOver (isClusterRangeLine "minio_cluster_objects_size_distribution" k) lines).
Proof.
  apply (counter_parseLines (clusterSizes k)); [apply clusterSizes_step|done].
Qed.

(** C1, as the code has it. After a parse, the ObjectCount of every bucket
    is the sum, in [int64] arithmetic, of the values of the lines that are
    neither comments nor blank, carry that bucket's name as their bucket
    label and contain minio_bucket_usage_object_total, whatever their server
    labels: the exact sum reduced modulo 2^64, hence the exact sum whenever it
    fits in an [int64]. *)
Theorem object_count_additive (lines : list string) (b : string) (bs : BucketSummary) :
  buckets (parseLines lines) !! b = Some bs →
  ObjectCount bs = Int64.wrap (sumOver (isBucketLine objectFamily b) lines)
  ∧ (Int64.in_range (sumOver (isBucketLine objectFamily b) lines) →
     ObjectCount bs = sumOver (isBucketLine objectFamily b) lines).
Proof.
  intros Hb.
  assert (Hne : b ≠ "") by (by destruct (WellKeyed_parseLines lines b bs Hb)).
  pose proof (bucketObjects_sum lines b Hne) as Hsum.
  unfold bucketObjects in Hsum. rewrite Hb in Hsum. simpl in Hsum.
  split; [done|]. intros Hr. rewrite Hsum. by apply Int64Facts.wrap_small.
Qed.

Lemma object_count_additive_witness :
  ObjectCount <$> (buckets (parseLines threeServers) !! "photos") = Some 42.
Proof.
  destruct (buckets (parseLines threeServers) !! "photos") as [bs|] eqn:Hb;
    [|by vm_compute in Hb].
  destruct (object_count_additive threeServers "photos" bs Hb) as [_ Hexact].
  simpl. f_equal. rewrite Hexact; [reflexivity|].
  vm_compute. split; discriminate.
Defined.

(** C1, as stated, fails when the sum leaves [int64]: the two lines of
    [overflowingCounts] have values that sum to 2^63 and leave the bucket at
    -2^63.  It also counts every line with the label and the family, and a
    comment line with both is not read. *)
Lemma object_count_overflow :
  map lineValue overflowingCounts = [9223372036854775807; 1]
  ∧ ObjectCount <$> (buckets (parseLines overflowingCounts) !! "b") = Some (-9223372036854775808)
  ∧ map lineValue commentedCount = [1; 5]
  ∧ map extractBucketName commentedCount = ["b"; "b"]
  ∧ map (λ l, Contains l "minio_bucket_usage_object_total") commentedCount = [true; true]
  ∧ ObjectCount <$> (buckets (parseLines commentedCount) !! "b") = Some 1.
Proof. repeat split; vm_compute; reflexivity. Qed.

(** ** Which buckets a parse creates *)

Lemma parseLine_lookup_None mp raw b :
  buckets (parseLine mp raw) !! b = None ↔ buckets mp !! b = None ∧ registers b raw = false.
Proof.
  unfold registers. rewrite dataLine_parseLine.
  destruct (dataLine raw) as [line|]; [|tauto].
  destruct (String.eqb_spec (extractBucketName line) "") as [He|Hne]; simpl.
  - rewrite parseClusterLine_buckets. tauto.
  - unfold parseBucketLine. simpl.
    destruct (String.eqb_spec (extractBucketName line) b) as [->|Hnb].
    + rewrite lookup_insert_eq. split; [discriminate|intros [_ ?]; discriminate].
    + rewrite lookup_insert_ne by done. tauto.
Qed.

Lemma fold_lookup_None lines mp b :
  buckets (fold_left parseLine lines mp) !! b = None
  ↔ buckets mp !! b = None ∧ Forall (λ raw, registers b raw = false) lines.
Proof.
  revert mp. induction lines as [|raw lines IH]; intros mp; simpl.
  - split; [by intros ?; split|by intros [? _]].
  - rewrite IH, parseLine_lookup_None, Forall_cons. tauto.
Qed.

Lemma parseLines_lookup_None lines b :
  buckets (parseLines lines) !! b = None ↔ Forall (λ raw, registers b raw = false) lines.
Proof.
  unfold parseLines. simpl. rewrite fold_lookup_None. simpl. rewrite lookup_empty. tauto.
Qed.

(** ** The cluster aggregate as fallback *)

Lemma noBucketLabelb_spec raw : noBucketLabelb raw = true ↔ NoBucketLabel raw.
Proof.
  unfold noBucketLabelb, NoBucketLabel. destruct (dataLine raw) as [line|].
  - rewrite String.eqb_eq. split; [by intros H ? [= <-]|by intros H; apply H].
  - split; [by intros _ ? ?|done].
Qed.

Lemma NoBucketLabel_buckets lines :
  Forall NoBucketLabel lines → buckets (parseLines lines) = ∅.
Proof.
  intros Hall. apply map_eq. intros b. rewrite lookup_empty.
  apply parseLines_lookup_None. eapply Forall_impl; [exact Hall|].
  intros raw Hraw. simpl. unfold registers.
  destruct (dataLine raw) as [line|] eqn:Hd; [|done].
  by rewrite (Hraw line Hd).
Qed.

Lemma GetSummary_empty `{H : !GoRuntime} mp : buckets mp = ∅ → GetSummary mp = [].
Proof.
  intros He. unfold GetSummary. apply Permutation_nil.
  rewrite sortSlice_perm, He.
  assert (Hm : mapRange (∅ : gmap string BucketSummary) = []).
  { apply Permutation_nil. by rewrite mapRange_perm, map_to_list_empty. }
  by rewrite Hm.
Qed.

Section Fallback.
Context `{H : !GoRuntime}.

Lemma renderedSummaries_fallback opts mp :
  buckets mp = ∅ → clusterHasData mp = true →
  renderedSummaries opts mp = Some [clusterSummary mp].
Proof.
  intros He Hc. unfold renderedSummaries, orClusterFallback, withRequestedCluster.
  rewrite (GetSummary_empty (H := within 0 H) mp He), Hc. simpl.
  rewrite andb_true_r. by destruct (Cluster opts).
Qed.

(** C8. When no line of the input has a bucket label and the cluster
    object-total and byte-total lines sum to 12345 and to 567000000 (the
    integer that the token 5.67e+08 yields), both views print exactly one row,
    named after the cluster aggregate, with ObjectCount 12345 and SizeBytes
    567000000; the table is not replaced by the no-data message. *)
Theorem cluster_only_fallback (lines : list string) (opts : DisplayOptions) (n : Z) :
  Forall NoBucketLabel lines →
  sumOver (isClusterLine "minio_cluster_usage_object_total") lines = 12345 →
  sumOver (isClusterLine "minio_cluster_usage_total_bytes") lines = 567000000 →
  extractValue "5.67e+08" = 567000000
  ∧ (∃ row totals,
       PrintSummaryTable (parseLines lines) opts
         = SummaryTable true (tableHeader opts) [row] totals
       ∧ rowName row = clusterName ∧ rowObjects row = 12345 ∧ rowBytes row = 567000000
       ∧ totalCount totals = 1%nat)
  ∧ (1 <= n →
     ∃ entry,
       PrintTopBuckets (parseLines lines) n opts = TopBuckets 1 [entry]
       ∧ topName entry = clusterName ∧ topObjects entry = 12345
       ∧ topBytes entry = 567000000).
Proof.
  intros Hnb Hobj Hbytes.
  pose proof (NoBucketLabel_buckets lines Hnb) as He.
  assert (Ho : ClusterObjects (parseLines lines) = 12345).
  { by rewrite ClusterObjects_sum, Hobj. }
  assert (Hb : ClusterBytes (parseLines lines) = 567000000).
  { by rewrite ClusterBytes_sum, Hbytes. }
  assert (Hc : clusterHasData (parseLines lines) = true).
  { unfold clusterHasData. by rewrite Ho. }
  split; [by vm_compute|]. split.
  - unfold PrintSummaryTable.
    pose proof (renderedSummaries_fallback opts _ He Hc) as Hr.
    unfold renderedSummaries in Hr.
    destruct (orClusterFallback (parseLines lines)
                (GetSummary (H := within 0 H) (parseLines lines))) as [l|]; [|done].
    injection Hr as Hr.
    rewrite Hr, renderLoop_spec, (GetSummary_empty (H := within 0 H) _ He).
    do 2 eexists. split; [reflexivity|]. simpl. by rewrite Ho, Hb.
  - intros Hn. unfold PrintTopBuckets.
    rewrite (renderedSummaries_fallback opts _ He Hc).
    cbn [length]. change (Z.of_nat 1) with 1.
    assert (Hn1 : (if 1 <? n then 1 else n) = 1).
    { destruct (Z.ltb_spec 1 n); lia. }
    rewrite Hn1. eexists. split; [reflexivity|]. simpl. by rewrite Ho, Hb.
Qed.

End Fallback.

Lemma cluster_only_fallback_witness :
  ∃ row totals,
    PrintSummaryTable (parseLines clusterOnlyInput) plainOptions
      = SummaryTable true (tableHeader plainOptions) [row] totals
    ∧ rowName row = clusterName ∧ rowObjects row = 12345 ∧ rowBytes row = 567000000
    ∧ totalCount totals = 1%nat.
Proof.
  refine (proj1 (proj2 (cluster_only_fallback clusterOnlyInput plainOptions 5 _ _ _))).
  - apply Forall_forall. intros raw Hraw. apply noBucketLabelb_spec.
    revert raw Hraw. apply Forall_forall, (bool_decide_unpack _). by vm_compute.
  - by vm_compute.
  - by vm_compute.
Defined.

(** ** The value of a line *)

Lemma digitValue_range c : isDigit c = true → 0 <= digitValue c <= 9.
Proof.
  unfold isDigit, byte_in, digitValue, byteN. simpl.
  intros H. apply andb_true_iff in H as [H1 H2].
  apply N.leb_le in H1, H2. lia.
Qed.

Lemma digitsValue_ge s : ∀ n v, 0 <= n → digitsValue n s = Some v → n <= v.
Proof.
  induction s as [|c s IH]; intros n v Hn; simpl.
  - intros [= <-]. lia.
  - destruct (isDigit c) eqn:Hc; [|done]. intros Hv.
    pose proof (digitValue_range c Hc).
    apply IH in Hv; lia.
Qed.

Lemma parseUintLoop_ok s : ∀ n v, 0 <= n < 2 ^ 64 →
  parseUintLoop n s = (v, None) ↔ digitsValue n s = Some v ∧ v < 2 ^ 64.
Proof.
  induction s as [|c s IH]; intros n v Hn; simpl.
  - split.
    + intros [= <-]. split; [done|lia].
    + by intros [[= <-] _].
  - destruct (isDigit c) eqn:Hc; [|split; [done|by intros [? _]]].
    pose proof (digitValue_range c Hc) as Hd.
    destruct (Z.leb_spec (2 ^ 64) (n * 10 + digitValue c)) as [Hov|Hok].
    + split; [done|]. intros [Hv Hlt].
      apply digitsValue_ge in Hv; lia.
    + apply IH. lia.
Qed.

Lemma parseUintLoop_range s : ∀ n v,
  parseUintLoop n s = (v, Some ErrRange) → v = 2 ^ 64 - 1.
Proof.
  induction s as [|c s IH]; intros n v; simpl; [done|].
  destruct (isDigit c); [|done].
  destruct (2 ^ 64 <=? n * 10 + digitValue c); [by intros [= <-]|apply IH].
Qed.

Lemma ParseUint_ok s v :
  ParseUint s = (v, None) ↔ s ≠ "" ∧ digitsValue 0 s = Some v ∧ v < 2 ^ 64.
Proof.
  unfold ParseUint. destruct (String.eqb_spec s "") as [->|Hne].
  - split; [done|by intros [? _]].
  - rewrite parseUintLoop_ok by lia. tauto.
Qed.

Lemma ParseUint_range s v : ParseUint s = (v, Some ErrRange) → v = 2 ^ 64 - 1.
Proof.
  unfold ParseUint. destruct (String.eqb s ""); [done|apply parseUintLoop_range].
Qed.

(** What [ParseInt] does with the result of [ParseUint]. *)
Lemma ParseInt_signed (neg : bool) (digits : string) (v : Z) :
  match ParseUint digits with
  | (_, Some ErrSyntax) => (0, Some ErrSyntax)
  | (un, _) =>
      let cutoff := 2 ^ 63 in
      if negb neg && (cutoff <=? un) then (cutoff - 1, Some ErrRange)
      else if neg && (cutoff <? un) then (- cutoff, Some ErrRange)
      else
        let n := Int64.wrap un in
        (if neg then Int64.wrap (- n) else n, None)
  end = (v, None)
  ↔ digits ≠ "" ∧ ∃ un, digitsValue 0 digits = Some un
                        ∧ v = (if neg then - un else un) ∧ Int64.in_range v.
Proof.
  assert (Hback : ∀ un', digits ≠ "" → digitsValue 0 digits = Some un' →
                    Int64.in_range (if neg then - un' else un') →
                    ParseUint digits = (un', None)).
  { intros un' Hne Hd Hr. apply ParseUint_ok. repeat split; try done.
    pose proof (digitsValue_ge digits 0 un' ltac:(lia) Hd).
    unfold Int64.in_range, Int64.min_int, Int64.max_int in Hr. destruct neg; lia. }
  destruct (ParseUint digits) as [un [[]|]] eqn:Hu.
  - split; [done|]. intros (Hne & un' & Hd & -> & Hr).
    specialize (Hback un' Hne Hd Hr). congruence.
  - pose proof (ParseUint_range _ _ Hu) as ->. cbv zeta.
    split.
    + destruct neg; simpl; done.
    + intros (Hne & un' & Hd & -> & Hr).
      specialize (Hback un' Hne Hd Hr). congruence.
  - apply ParseUint_ok in Hu as (Hne & Hd & Hlt).
    pose proof (digitsValue_ge digits 0 un ltac:(lia) Hd) as Hge.
    cbv zeta. destruct neg; simpl.
    + destruct (Z.ltb_spec (2 ^ 63) un) as [Hbig|Hsmall].
      * split; [done|]. intros (_ & un' & Hd' & -> & Hr).
        assert (un' = un) as -> by congruence.
        unfold Int64.in_range, Int64.min_int, Int64.max_int in Hr. lia.
      * assert (Hv : Int64.wrap (- Int64.wrap un) = - un).
        { destruct (decide (un = 2 ^ 63)) as [->|Hne63]; [done|].
          rewrite (Int64Facts.wrap_small un), Int64Facts.wrap_small; [done|..];
            unfold Int64.in_range, Int64.min_int, Int64.max_int; lia. }
        rewrite Hv. split.
        -- intros [= <-]. split; [done|]. exists un. split; [done|]. split; [done|].
           unfold Int64.in_range, Int64.min_int, Int64.max_int. lia.
        -- intros (_ & un' & Hd' & -> & Hr). by assert (un' = un) as -> by congruence.
    + destruct (Z.leb_spec (2 ^ 63) un) as [Hbig|Hsmall].
      * split; [done|]. intros (_ & un' & Hd' & -> & Hr).
        assert (un' = un) as -> by congruence.
        unfold Int64.in_range, Int64.min_int, Int64.max_int in Hr. lia.
      * rewrite Int64Facts.wrap_small
          by (unfold Int64.in_range, Int64.min_int, Int64.max_int; lia).
        split.
        -- intros [= <-]. split; [done|]. exists un. split; [done|]. split; [done|].
           unfold Int64.in_range, Int64.min_int, Int64.max_int. lia.
        -- intros (_ & un' & Hd' & -> & Hr). by assert (un' = un) as -> by congruence.
Qed.

(** [ParseInt] accepts exactly the base-10 integer literals whose value is
    an [int64], and returns that value. *)
Lemma ParseInt_spec tok v :
  ParseInt tok = (v, None) ↔ decimalInteger tok = Some v ∧ Int64.in_range v.
Proof.
  unfold ParseInt, decimalInteger. destruct tok as [|c rest]; [by split; [|intros [? _]]|].
  destruct (Ascii.eqb_spec c "+") as [->|Hplus].
  - change (Ascii.eqb "+" "-") with false. cbn [orb].
    rewrite (ParseInt_signed false rest v).
    destruct (String.eqb_spec rest "") as [->|Hne].
    + split; [by intros [? _]|by intros [? _]].
    + split.
      * intros (_ & un & Hd & -> & Hr). by rewrite Hd.
      * intros [Hd Hr]. split; [done|]. by exists v.
  - destruct (Ascii.eqb_spec c "-") as [->|Hminus].
    + rewrite orb_true_r. rewrite (ParseInt_signed true rest v).
      destruct (String.eqb_spec rest "") as [->|Hne].
      * split; [by intros [? _]|by intros [? _]].
      * split.
        -- intros (_ & un & Hd & -> & Hr). by rewrite Hd.
        -- intros [Hd Hr]. split; [done|].
           destruct (digitsValue 0 rest) as [un|]; [|done].
           injection Hd as <-. by exists un.
    + cbn [orb]. rewrite (ParseInt_signed false (String c rest) v).
      split.
      * by intros (_ & un & Hd & -> & Hr).
      * intros [Hd Hr]. split; [done|]. by exists v.
Qed.

Lemma spaceWidth_cont c rest k :
  spaceWidth (String c rest) = S k → contBytes k rest = true.
Proof.
  unfold spaceWidth.
  destruct ((9 <=? byteN c) && (byteN c <=? 13) || (byteN c =? 32))%N.
  { by intros [= <-]. }
  destruct rest as [|c1 r1]; [done|].
  destruct ((byteN c =? 194) && ((byteN c1 =? 133) || (byteN c1 =? 160)))%N eqn:E2.
  { intros [= <-]. simpl. rewrite andb_true_r.
    apply andb_true_iff in E2 as [_ E2]. apply orb_true_iff in E2.
    apply N.leb_le. destruct E2 as [E2|E2]; apply N.eqb_eq in E2; lia. }
  destruct r1 as [|c2 r2]; [done|].
  match goal with |- (if ?c then _ else _) = _ → _ => destruct c eqn:E3 end; [|done].
  intros [= <-]. simpl. rewrite andb_true_r.
  apply andb_true_iff. rewrite !N.leb_le.
  repeat
    match goal with
    | H : (_ || _) = true |- _ => apply orb_true_iff in H as [H|H]
    | H : (_ && _) = true |- _ =>
        let H1 := fresh H in let H2 := fresh H in apply andb_true_iff in H as [H1 H2]
    | H : (_ =? _)%N = true |- _ => apply N.eqb_eq in H
    | H : (_ <=? _)%N = true |- _ => apply N.leb_le in H
    end; lia.
Qed.

Lemma string_app_cons (x : ascii) (a b : string) :
  (String x a ++ b)%string = String x (a ++ b).
Proof. reflexivity. Qed.

Lemma string_app_nil_r (a : string) : (a ++ "")%string = a.
Proof. induction a as [|x a IH]; [done|]. by rewrite string_app_cons, IH. Qed.

Lemma string_app_assoc (a b c : string) : ((a ++ b) ++ c = a ++ (b ++ c))%string.
Proof. induction a as [|x a IH]; [done|]. by rewrite !string_app_cons, IH. Qed.

Lemma splitFields_noSpace tok : ∀ cur,
  noSpace tok = true → splitFields 0 cur tok = flushField (cur ++ tok).
Proof.
  induction tok as [|c tok IH]; intros cur Hns.
  - simpl. by rewrite string_app_nil_r.
  - cbn [noSpace] in Hns. apply andb_true_iff in Hns as [Hw Hns].
    apply Nat.eqb_eq in Hw. cbn [splitFields]. rewrite Hw.
    rewrite IH by done. by rewrite string_app_assoc.
Qed.

Lemma flushField_nonempty s : s ≠ "" → flushField s = [s].
Proof. unfold flushField. by destruct (String.eqb_spec s ""). Qed.

(** The last field of a line that ends, after a space, with a token free of
    white space is that token. *)
Lemma last_field pre tok : ∀ skip cur,
  tok ≠ "" → noSpace tok = true →
  contBytes skip (pre ++ String " " tok) = true →
  last (splitFields skip cur (pre ++ String " " tok)) = Some tok.
Proof.
  induction pre as [|c pre IH]; intros skip cur Hne Hns Hk.
  - destruct skip as [|k]; [|done].
    change (("" ++ String " " tok)%string) with (String " " tok).
    cbn [splitFields]. change (spaceWidth (String " " tok)) with 1%nat. cbv iota.
    rewrite splitFields_noSpace by done.
    change (("" ++ tok)%string) with tok.
    rewrite (flushField_nonempty tok Hne), last_app. done.
  - change ((String c pre ++ String " " tok)%string)
      with (String c (pre ++ String " " tok)) in *.
    cbn [splitFields]. destruct skip as [|k].
    + destruct (spaceWidth (String c (pre ++ String " " tok))) as [|k'] eqn:Hw.
      * by apply IH.
      * rewrite last_app, IH; [done..|]. by eapply spaceWidth_cont.
    + cbn [contBytes] in Hk. apply andb_true_iff in Hk as [_ Hk]. by apply IH.
Qed.

Lemma truncToZero_spec (s : bool) (m : positive) (e : Z) (v : Z) :
  truncToZero (S754_finite s m e) = Some v →
  (if s then v <= 0 else 0 <= v)
  ∧ (0 <= e → Z.abs v = Zpos m * 2 ^ e)
  ∧ (e < 0 → Z.abs v * 2 ^ (- e) <= Zpos m < (Z.abs v + 1) * 2 ^ (- e)).
Proof.
  simpl. intros [= <-].
  destruct (Z.leb_spec 0 e) as [He|He].
  - assert (0 < 2 ^ e) by (apply Z.pow_pos_nonneg; lia).
    destruct s; repeat split; try nia; intros; lia.
  - assert (Hp : 0 < 2 ^ (- e)) by (apply Z.pow_pos_nonneg; lia).
    pose proof (Z.div_pos (Zpos m) (2 ^ (- e)) ltac:(lia) Hp) as Hq.
    pose proof (Z.mul_div_le (Zpos m) (2 ^ (- e)) Hp) as Hle.
    pose proof (Z.mul_succ_div_gt (Zpos m) (2 ^ (- e)) Hp) as Hgt.
    destruct s; (split; [lia|]); (split; [lia|]); intros _;
      rewrite ?Z.abs_opp, Z.abs_eq by lia; nia.
Qed.

(** C3, as the code has it. The value of a line is read from its last
    white-space-delimited field, and is zero for a line without fields.  A
    field that is a base-10 integer literal with a value in [int64] yields
    that value.  Otherwise, a field that parses as a float yields the float
    truncated toward zero, provided the float is finite and the truncation is
    in [int64] (for NaN, infinities and larger values the conversion is left
    to the platform).  A field that parses as neither yields zero; no case
    fails.  The field 5.67e+08 yields 567000000. *)
Theorem extractValue_derivation :
  (∀ line, Fields line = [] → extractValue line = 0)
  ∧ (∀ pre tok, tok ≠ "" → noSpace tok = true →
       last (Fields (pre ++ String " " tok)) = Some tok
       ∧ last (Fields tok) = Some tok)
  ∧ (∀ line tok, last (Fields line) = Some tok →
       (∀ v, decimalInteger tok = Some v → Int64.in_range v → extractValue line = v)
       ∧ (snd (ParseInt tok) ≠ None →
          ∀ f v, ParseFloat tok = (f, None) → truncToZero f = Some v →
                 Int64.in_range v → extractValue line = v)
       ∧ (snd (ParseInt tok) ≠ None → snd (ParseFloat tok) ≠ None →
          extractValue line = 0))
  ∧ (∀ tok, snd (ParseInt tok) = None
            ↔ ∃ v, decimalInteger tok = Some v ∧ Int64.in_range v)
  ∧ (∀ s m e v, truncToZero (S754_finite s m e) = Some v →
       (if s then v <= 0 else 0 <= v)
       ∧ (0 <= e → Z.abs v = Zpos m * 2 ^ e)
       ∧ (e < 0 → Z.abs v * 2 ^ (- e) <= Zpos m < (Z.abs v + 1) * 2 ^ (- e)))
  ∧ extractValue "5.67e+08" = 567000000.
Proof.
  split; [|split; [|split; [|split; [|split]]]].
  - intros line Hf. unfold extractValue. by rewrite Hf.
  - intros pre tok Hne Hns. split.
    + unfold Fields. by apply last_field.
    + unfold Fields. rewrite splitFields_noSpace by done.
      change (("" ++ tok)%string) with tok. by rewrite flushField_nonempty.
  - intros line tok Htok. unfold extractValue. rewrite Htok.
    split; [|split].
    + intros v Hd Hr.
      by rewrite (proj2 (ParseInt_spec tok v) (conj Hd Hr)).
    + intros Hint f v Hf Ht Hr.
      destruct (ParseInt tok) as [vi [ei|]]; [|done].
      rewrite Hf. unfold float64_to_int64. rewrite Ht.
      unfold Int64.in_range in Hr. unfold Int64.in_rangeb.
      destruct Hr as [Hlo Hhi].
      apply Z.leb_le in Hlo, Hhi. by rewrite Hlo, Hhi.
    + intros Hint Hfloat.
      destruct (ParseInt tok) as [vi [ei|]]; [|done].
      destruct (ParseFloat tok) as [f [ef|]]; done.
  - intros tok. split.
    + intros Hok. destruct (ParseInt tok) as [v e] eqn:E. simpl in Hok. subst e.
      exists v. by apply ParseInt_spec.
    + intros (v & Hd & Hr). by rewrite (proj2 (ParseInt_spec tok v) (conj Hd Hr)).
  - intros s m e v. apply truncToZero_spec.
  - by vm_compute.
Qed.

Lemma extractValue_derivation_witness :
  extractValue ("minio_cluster_usage_total_bytes" ++ String " " "5.67e+08") = 567000000
  ∧ extractValue ("minio_cluster_usage_object_total" ++ String " " "-12345") = -12345.
Proof.
  destruct extractValue_derivation as (_ & Hlast & Hval & _).
  split.
  - destruct (Hlast "minio_cluster_usage_total_bytes" "5.67e+08") as [Htok _];
      [done|reflexivity|].
    destruct (Hval _ _ Htok) as (_ & Hfloat & _).
    apply (Hfloat ltac:(by vm_compute) (S754_finite false 4756340736000000 (-23)));
      [by vm_compute|by vm_compute|].
    vm_compute. split; discriminate.
  - destruct (Hlast "minio_cluster_usage_object_total" "-12345") as [Htok _];
      [done|reflexivity|].
    destruct (Hval _ _ Htok) as (Hint & _).
    apply Hint; [by vm_compute|]. vm_compute. split; discriminate.
Defined.

(** C3, as stated, fails on a float outside [int64]: 1e19 is no integer
    literal, parses as the float 4882812500000000 * 2^11, whose truncation
    toward zero is 10^19, and the conversion yields the most negative
    [int64]; the infinity that "inf" parses as has no truncation at all. *)
Lemma extractValue_float_out_of_range :
  snd (ParseInt "1e19") = Some ErrSyntax
  ∧ ParseFloat "1e19" = (S754_finite false 4882812500000000 11, None)
  ∧ truncToZero (S754_finite false 4882812500000000 11) = Some 10000000000000000000
  ∧ extractValue "m 1e19" = -9223372036854775808
  ∧ ParseFloat "inf" = (S754_infinity false, None)
  ∧ extractValue "m inf" = -9223372036854775808.
Proof. repeat split; vm_compute; reflexivity. Qed.

(** ** Further properties of the aggregate *)

Lemma applyBucketMetrics_SizeHuman bs line :
  SizeHuman (applyBucketMetrics bs line) =
  if Contains line bytesFamily
  then formatBytes (SizeBytes (applyBucketMetrics bs line)) else SizeHuman bs.
Proof. unfold applyBucketMetrics, bytesFamily. by repeat case_match. Qed.

Lemma addServer_SizeHuman bs s : SizeHuman (addServer bs s) = SizeHuman bs.
Proof. unfold addServer. by destruct (existsb _ _). Qed.

Lemma HumanSizeOf_parseLine mp raw b seen :
  b ≠ "" → HumanSizeOf seen b mp →
  HumanSizeOf (seen || isBucketLine bytesFamily b raw) b (parseLine mp raw).
Proof.
  intros Hb Hmp. unfold HumanSizeOf, isBucketLine in *. rewrite dataLine_parseLine.
  destruct (dataLine raw) as [line|]; [|by rewrite orb_false_r].
  destruct (String.eqb_spec (extractBucketName line) "") as [He|Hne].
  - rewrite parseClusterLine_buckets.
    destruct (String.eqb_spec (extractBucketName line) b) as [<-|_]; [done|].
    simpl. by rewrite orb_false_r.
  - unfold parseBucketLine. simpl.
    destruct (String.eqb_spec (extractBucketName line) b) as [->|Hnb]; simpl.
    + rewrite lookup_insert_eq. unfold HumanSize.
      rewrite applyBucketMetrics_SizeHuman.
      destruct (Contains line bytesFamily) eqn:Hc; [by rewrite orb_true_r|].
      rewrite orb_false_r, applyBucketMetrics_SizeBytes.
      unfold bytesFamily in Hc. rewrite Hc.
      destruct (addServer_fields
                  (match buckets mp !! b with Some b0 => b0 | None => newBucket b end)
                  (extractServerName line)) as (_ & _ & -> & _).
      rewrite addServer_SizeHuman.
      destruct (buckets mp !! b) as [old|] eqn:Hold; [done|]. by subst seen.
    + rewrite lookup_insert_ne by done. by rewrite orb_false_r.
Qed.

Lemma HumanSizeOf_fold lines : ∀ mp b seen,
  b ≠ "" → HumanSizeOf seen b mp →
  HumanSizeOf (seen || existsb (isBucketLine bytesFamily b) lines) b
    (fold_left parseLine lines mp).
Proof.
  induction lines as [|raw lines IH]; intros mp b seen Hb Hmp; simpl.
  - by rewrite orb_false_r.
  - rewrite orb_assoc. apply IH; [done|]. by apply HumanSizeOf_parseLine.
Qed.

(** X1. After a parse, the SizeBytes of every bucket is the [int64] sum of
    the values of the data lines that carry that bucket's name and contain
    minio_bucket_usage_total_bytes, and its SizeHuman is the rendering of
    that size when there is such a line and empty otherwise. *)
Theorem size_bytes_additive (lines : list string) (b : string) (bs : BucketSummary) :
  buckets (parseLines lines) !! b = Some bs →
  SizeBytes bs = Int64.wrap (sumOver (isBucketLine bytesFamily b) lines)
  ∧ SizeHuman bs = (if existsb (isBucketLine bytesFamily b) lines
                    then formatBytes (SizeBytes bs) else "").
Proof.
  intros Hbs.
  assert (Hne : b ≠ "") by (by destruct (WellKeyed_parseLines lines b bs Hbs)).
  split.
  - pose proof (bucketBytes_sum lines b Hne) as Hsum.
    unfold bucketBytes in Hsum. by rewrite Hbs in Hsum.
  - assert (H0 : HumanSizeOf false b NewMetricParser).
    { unfold HumanSizeOf. simpl. by rewrite lookup_empty. }
    pose proof (HumanSizeOf_fold lines NewMetricParser b false Hne H0) as Hh.
    unfold HumanSizeOf in Hh. unfold parseLines in Hbs. simpl in Hbs.
    rewrite Hbs in Hh. exact Hh.
Qed.

Lemma size_bytes_additive_witness :
  (λ bs, (SizeBytes bs, SizeHuman bs)) <$> (buckets (parseLines sizedBucket) !! "media")
  = Some (1536, "1.5 KB").
Proof.
  destruct (buckets (parseLines sizedBucket) !! "media") as [bs|] eqn:Hb;
    [|by vm_compute in Hb].
  destruct (size_bytes_additive sizedBucket "media" bs Hb) as [Hs Hh].
  simpl. rewrite Hh, Hs. reflexivity.
Defined.

(** X2. After a parse, the cluster totals are the [int64] sums of the values
    of the data lines without bucket label whose first cluster family, in
    the order in which the loop tries them, is the object total or the byte
    total; so are, per normalized range key, the counts of the two cluster
    distributions. *)
Theorem cluster_totals_additive (lines : list string) (k : string) :
  ClusterObjects (parseLines lines)
    = Int64.wrap (sumOver (isClusterLine "minio_cluster_usage_object_total") lines)
  ∧ ClusterBytes (parseLines lines)
    = Int64.wrap (sumOver (isClusterLine "minio_cluster_usage_total_bytes") lines)
  ∧ clusterVersions k (parseLines lines)
    = Int64.wrap (sumOver (isClusterRangeLine "minio_cluster_objects_version_distribution" k) lines)
  ∧ clusterSizes k (parseLines lines)
    = Int64.wrap (sumOver (isClusterRangeLine "minio_cluster_objects_size_distribution" k) lines).
Proof.
  repeat split.
  - apply ClusterObjects_sum.
  - apply ClusterBytes_sum.
  - apply clusterVersions_sum.
  - apply clusterSizes_sum.
Qed.

(** X3. After a parse, each count of a bucket's two distributions (a missing
    key read as zero) is the [int64] sum of the values of the data lines of
    that bucket and family whose range label normalizes to the key. *)
Theorem distribution_counts_additive (lines : list string) (b k : string) (bs : BucketSummary) :
  buckets (parseLines lines) !! b = Some bs →
  mapGet (VersionDistribution bs) k
    = Int64.wrap (sumOver (isBucketRangeLine versionFamily b k) lines)
  ∧ mapGet (SizeDistribution bs) k
    = Int64.wrap (sumOver (isBucketRangeLine sizeFamily b k) lines).
Proof.
  intros Hbs.
  assert (Hne : b ≠ "") by (by destruct (WellKeyed_parseLines lines b bs Hbs)).
  pose proof (bucketVersions_sum lines b k Hne) as Hv.
  pose proof (bucketSizes_sum lines b k Hne) as Hs.
  unfold bucketVersions in Hv. unfold bucketSizes in Hs.
  rewrite Hbs in Hv, Hs. done.
Qed.

Lemma distribution_counts_additive_witness :
  (λ bs, mapGet (SizeDistribution bs) "BETWEEN_1024_B_AND_1_MB")
    <$> (buckets (parseLines twoSpellings) !! "b") = Some 111.
Proof.
  destruct (buckets (parseLines twoSpellings) !! "b") as [bs|] eqn:Hb;
    [|by vm_compute in Hb].
  destruct (distribution_counts_additive twoSpellings "b" "BETWEEN_1024_B_AND_1_MB" bs Hb)
    as [_ Hs].
  simpl. rewrite Hs. reflexivity.
Defined.

(** X4. [GetSummary] returns every bucket record exactly once: its result
    is a permutation of the records of the map. *)
Theorem GetSummary_lists_every_bucket `{!GoRuntime} (mp : MetricParser) :
  GetSummary mp ≡ₚ map snd (map_to_list (buckets mp))
  ∧ length (GetSummary mp) = size (buckets mp).
Proof.
  split; [apply GetSummary_perm|].
  by rewrite (Permutation_length (GetSummary_perm mp)), length_map, length_map_to_list.
Qed.

(** X5. After a parse, a bucket has a record exactly when some data line
    carries its name as a bucket label; the record bears that name, which is
    not empty. *)
Theorem bucket_exists_iff_labelled (lines : list string) (b : string) :
  is_Some (buckets (parseLines lines) !! b)
  ↔ ∃ raw line, raw ∈ lines ∧ dataLine raw = Some line
                ∧ extractBucketName line = b ∧ b ≠ "".
Proof.
  rewrite <- not_eq_None_Some, parseLines_lookup_None.
  rewrite <- Exists_Forall_neg by (intros raw; destruct (registers b raw); auto).
  rewrite Exists_exists. unfold registers. split.
  - intros (raw & Hin & Hreg). destruct (dataLine raw) as [line|] eqn:Hd; [|done].
    exists raw, line.
    destruct (String.eqb_spec (extractBucketName line) "") as [He|Hne]; [done|].
    destruct (String.eqb_spec (extractBucketName line) b) as [Hb|Hnb]; [|done].
    subst b. done.
  - intros (raw & line & Hin & Hd & <- & Hne). exists raw. split; [done|].
    rewrite Hd. destruct (String.eqb_spec (extractBucketName line) ""); [done|].
    simpl. by rewrite String.eqb_refl.
Qed.

Lemma collapseLoop_head fuel s : headByte (collapseLoop fuel s) = headByte s.
Proof.
  revert s. induction fuel as [|fuel IH]; intros s; simpl; [done|].
  destruct (Contains s "__"); [|done]. by rewrite IH, replaceDouble_head.
Qed.

Lemma normalizeRange_nonempty r : r ≠ "" → normalizeRange r ≠ "".
Proof.
  intros Hr Hn. assert (Hh : headByte (normalizeRange r) = headByte r).
  { by rewrite normalizeRange_unfold, collapseLoop_head, insertUnderscores_head. }
  rewrite Hn in Hh. by destruct r.
Qed.

Lemma normalizeRange_fixed r : normalizeRange (normalizeRange r) = normalizeRange r.
Proof.
  apply normalizeRange_canonical;
    [apply normalizeRange_no_boundary|apply normalizeRange_no_double].
Qed.

Lemma CanonicalKeys_empty : CanonicalKeys ∅.
Proof. intros k v H. by rewrite lookup_empty in H. Qed.

Lemma CanonicalKeys_mapAdd m r v :
  r ≠ "" → CanonicalKeys m → CanonicalKeys (mapAdd m (normalizeRange r) v).
Proof.
  intros Hr Hm k w. unfold mapAdd.
  destruct (decide (normalizeRange r = k)) as [<-|Hk].
  - intros _. split; [by apply normalizeRange_nonempty|apply normalizeRange_fixed].
  - rewrite lookup_insert_ne by done. apply Hm.
Qed.

Lemma applyBucketMetrics_canonical bs line :
  CanonicalKeys (VersionDistribution bs) → CanonicalKeys (SizeDistribution bs) →
  CanonicalKeys (VersionDistribution (applyBucketMetrics bs line))
  ∧ CanonicalKeys (SizeDistribution (applyBucketMetrics bs line)).
Proof.
  intros Hv Hs. unfold applyBucketMetrics.
  repeat
    match goal with
    | |- context [Contains line ?f] => destruct (Contains line f)
    end;
  destruct (String.eqb_spec (extractRange line) "") as [He|Hne]; simpl;
    split; try done; by apply CanonicalKeys_mapAdd.
Qed.

Lemma AllCanonical_parseLine mp raw : AllCanonical mp → AllCanonical (parseLine mp raw).
Proof.
  intros (Hcv & Hcs & Hb). rewrite dataLine_parseLine.
  destruct (dataLine raw) as [line|]; [|done].
  destruct (String.eqb (extractBucketName line) "").
  - unfold parseClusterLine.
    repeat
      match goal with
      | |- context [Contains line ?f] => destruct (Contains line f)
      end;
    try done;
    destruct (String.eqb_spec (extractRange line) "") as [He|Hne]; simpl; try done;
    (split; [|split]); simpl; try done; by apply CanonicalKeys_mapAdd.
  - split; [done|]. split; [done|]. intros b bs. unfold parseBucketLine. simpl.
    destruct (decide (extractBucketName line = b)) as [<-|Hnb].
    + rewrite lookup_insert_eq. intros [= <-].
      apply applyBucketMetrics_canonical.
      * destruct (addServer_fields
                    (match buckets mp !! extractBucketName line with
                     | Some b0 => b0 | None => newBucket (extractBucketName line) end)
                    (extractServerName line)) as (_ & _ & _ & -> & _).
        destruct (buckets mp !! extractBucketName line) as [old|] eqn:Hold.
        -- by destruct (Hb _ _ Hold).
        -- apply CanonicalKeys_empty.
      * destruct (addServer_fields
                    (match buckets mp !! extractBucketName line with
                     | Some b0 => b0 | None => newBucket (extractBucketName line) end)
                    (extractServerName line)) as (_ & _ & _ & _ & ->).
        destruct (buckets mp !! extractBucketName line) as [old|] eqn:Hold.
        -- by destruct (Hb _ _ Hold).
        -- apply CanonicalKeys_empty.
    + rewrite lookup_insert_ne by done. apply Hb.
Qed.

(** X6. Every key of every distribution map of the aggregate, per bucket and
    at cluster level, is a normalized range label: it is not empty, it is
    its own normal form, and it has neither a digit followed by a letter nor
    two adjacent underscores. *)
Theorem distribution_keys_normalized (lines : list string) :
  let mp := parseLines lines in
  let Normal (m : gmap string Z) :=
    ∀ k, is_Some (m !! k) →
         k ≠ "" ∧ normalizeRange k = k ∧ hasBoundary k = false ∧ hasDouble k = false in
  Normal (ClusterVersionDist mp) ∧ Normal (ClusterSizeDist mp)
  ∧ ∀ b bs, buckets mp !! b = Some bs →
      Normal (VersionDistribution bs) ∧ Normal (SizeDistribution bs).
Proof.
  cbv zeta.
  assert (Hall : AllCanonical (parseLines lines)).
  { unfold parseLines. simpl.
    assert (Hf : ∀ mp, AllCanonical mp → AllCanonical (fold_left parseLine lines mp)).
    { induction lines as [|raw lines IH]; intros mp Hmp; simpl; [done|].
      by apply IH, AllCanonical_parseLine. }
    apply Hf. split; [apply CanonicalKeys_empty|]. split; [apply CanonicalKeys_empty|].
    intros b bs Hb. simpl in Hb. by rewrite lookup_empty in Hb. }
  assert (Hn : ∀ m, CanonicalKeys m →
            ∀ k, is_Some (m !! k) →
              k ≠ "" ∧ normalizeRange k = k ∧ hasBoundary k = false ∧ hasDouble k = false).
  { intros m Hm k [v Hk]. destruct (Hm k v Hk) as [Hne Hfix].
    split; [done|]. split; [done|]. rewrite <- Hfix.
    split; [apply normalizeRange_no_boundary|apply normalizeRange_no_double]. }
  destruct Hall as (Hcv & Hcs & Hb).
  split; [by apply Hn|]. split; [by apply Hn|].
  intros b bs Hbs. destruct (Hb b bs Hbs). split; by apply Hn.
Qed.

(** ** Rendering *)

(** The loop of [formatBytes] on [bytes / div]: it leaves on its own test
    within [fuel] iterations, with the unit that brackets [bytes]. *)
Lemma unitLoop_spec (bytes : Z) : ∀ (fuel : nat) (div : Z) (exp : nat),
  div = 1024 ^ Z.of_nat (S exp) → div <= bytes →
  bytes / div < 1024 ^ Z.of_nat fuel →
  let r := unitLoop fuel (bytes / div) div exp in
  fst r = 1024 ^ Z.of_nat (S (snd r))
  ∧ fst r <= bytes < 1024 * fst r
  ∧ (snd r < exp + fuel)%nat.
Proof.
  induction fuel as [|fuel IH]; intros div exp Hdiv Hle Hlt.
  - assert (0 < div) by (subst div; apply Z.pow_pos_nonneg; lia).
    assert (1 <= bytes / div) by (apply Z.div_le_lower_bound; lia).
    simpl in Hlt. lia.
  - assert (Hpos : 0 < div) by (subst div; apply Z.pow_pos_nonneg; lia).
    cbn [unitLoop]. destruct (Z.leb_spec 1024 (bytes / div)) as [Hbig|Hsmall].
    + rewrite Z.div_div by lia.
      assert (Hdiv' : div * 1024 = 1024 ^ Z.of_nat (S (S exp))).
      { rewrite (Nat2Z.inj_succ (S exp)), Z.pow_succ_r by lia. lia. }
      assert (Hle' : div * 1024 <= bytes).
      { pose proof (Z.mul_div_le bytes div Hpos). nia. }
      assert (Hlt' : bytes / (div * 1024) < 1024 ^ Z.of_nat fuel).
      { rewrite <- Z.div_div by lia. apply Z.div_lt_upper_bound; [lia|].
        rewrite Nat2Z.inj_succ, Z.pow_succ_r in Hlt by lia. lia. }
      specialize (IH (div * 1024) (S exp) Hdiv' Hle' Hlt').
      cbv zeta in IH |- *. destruct IH as (H1 & H2 & H3).
      repeat split; try done; lia.
    + cbv zeta. simpl fst. simpl snd. split; [done|]. split; [|lia].
      split; [done|].
      pose proof (Z.mul_succ_div_gt bytes div Hpos). nia.
Qed.

Lemma string_length_app (a b : string) :
  String.length (a ++ b)%string = (String.length a + String.length b)%nat.
Proof. induction a as [|x a IH]; [done|]. rewrite string_app_cons. simpl. by rewrite IH. Qed.

Lemma string_length_substring (n : nat) (s : string) :
  String.length (String.substring 0 n s) = Nat.min n (String.length s).
Proof.
  revert s. induction n as [|n IH]; intros s.
  - by destruct s.
  - destruct s as [|c s]; [done|]. simpl. by rewrite IH.
Qed.

(** X7. [formatBytes] prints a size below 1024 as the integer and the
    suffix B; from 1024 up to the largest [int64] it picks the unit K, M, G,
    T, P or E whose power of 1024 is the largest not above the size, and
    prints the quotient in binary64 with one decimal.  So 1209462790553 is
    printed as 1.1 TB. *)
Theorem formatBytes_units (bytes : Z) :
  (bytes < 1024 → formatBytes bytes = (formatInt bytes ++ " B")%string)
  ∧ (1024 <= bytes <= Int64.max_int →
     ∃ (exp : nat) (unit : ascii),
       String.get exp "KMGTPE" = Some unit
       ∧ 1024 ^ Z.of_nat (S exp) <= bytes < 1024 ^ Z.of_nat (S (S exp))
       ∧ formatBytes bytes
         = (formatFixed1
              (SFdiv prec64 emax64 (float64_of_int64 bytes)
                 (float64_of_int64 (1024 ^ Z.of_nat (S exp))))
            ++ " " ++ String unit "B")%string)
  ∧ formatBytes 1209462790553 = "1.1 TB"
  ∧ formatBytes 1023 = "1023 B".
Proof.
  split; [|split; [|split; by vm_compute]].
  - intros Hlt. unfold formatBytes. by destruct (Z.ltb_spec bytes 1024); [|lia].
  - intros [Hlo Hhi]. unfold formatBytes.
    destruct (Z.ltb_spec bytes 1024); [lia|].
    assert (Hfuel : bytes / 1024 < 1024 ^ Z.of_nat 6).
    { apply Z.div_lt_upper_bound; [lia|].
      unfold Int64.max_int in Hhi. change (1024 ^ Z.of_nat 6) with (2 ^ 60). lia. }
    pose proof (unitLoop_spec bytes 6 1024 0 eq_refl Hlo Hfuel) as Hspec.
    cbv zeta in Hspec.
    destruct (unitLoop 6 (bytes / 1024) 1024 0) as [div exp].
    simpl in Hspec. destruct Hspec as (Hdiv & Hb & Hexp).
    assert (Hget : ∃ unit, String.get exp "KMGTPE" = Some unit).
    { do 6 (destruct exp as [|exp]; [by eexists|]). lia. }
    destruct Hget as [unit Hget]. exists exp, unit. split; [done|].
    split.
    { rewrite <- Hdiv. split; [lia|].
      rewrite (Nat2Z.inj_succ (S exp)), Z.pow_succ_r, <- Hdiv by lia. lia. }
    by rewrite Hget, Hdiv.
Qed.

Lemma formatBytes_units_witness :
  ∃ (exp : nat) (unit : ascii),
    String.get exp "KMGTPE" = Some unit
    ∧ 1024 ^ Z.of_nat (S exp) <= 567000000 < 1024 ^ Z.of_nat (S (S exp))
    ∧ formatBytes 567000000
      = (formatFixed1
           (SFdiv prec64 emax64 (float64_of_int64 567000000)
              (float64_of_int64 (1024 ^ Z.of_nat (S exp))))
         ++ " " ++ String unit "B")%string.
Proof.
  apply (proj1 (proj2 (formatBytes_units 567000000))).
  vm_compute. split; discriminate.
Defined.

(** X8. In the table a bucket name of at most 40 bytes is printed as it is,
    and a longer one as its first 37 bytes and three dots, 40 bytes in all;
    the record keeps its name. *)
Theorem displayName_truncates (name : string) :
  ((String.length name <= 40)%nat → displayName name = name)
  ∧ ((40 < String.length name)%nat →
     displayName name = (String.substring 0 37 name ++ "...")%string
     ∧ String.length (displayName name) = 40%nat)
  ∧ ∀ opts bucket, rowName (renderRow opts bucket) = displayName (Name bucket).
Proof.
  unfold displayName. split; [|split].
  - intros Hle. by destruct (Nat.ltb_spec 40 (String.length name)); [lia|].
  - intros Hgt. destruct (Nat.ltb_spec 40 (String.length name)); [|lia].
    split; [done|]. rewrite string_length_app, string_length_substring.
    change (String.length "...") with 3%nat. lia.
  - done.
Qed.

Lemma displayName_truncates_witness :
  displayName "a-bucket-name-that-is-far-too-long-for-the-column"
  = "a-bucket-name-that-is-far-too-long-fo...".
Proof.
  destruct (displayName_truncates "a-bucket-name-that-is-far-too-long-for-the-column")
    as (_ & Hlong & _).
  destruct Hlong as [-> _]; [vm_compute; lia|reflexivity].
Defined.

(** ** [normalizeRange] touches underscores only *)

Lemma dropUnderscores_insertUnderscores s :
  dropUnderscores (insertUnderscores s) = dropUnderscores s.
Proof.
  induction s as [|c s IH]; [done|].
  cbn [insertUnderscores]. destruct s as [|d s]; [done|].
  destruct (isDigit c && isLetter d).
  - cbn [dropUnderscores]. rewrite Ascii.eqb_refl.
    cbn [dropUnderscores] in IH. by rewrite IH.
  - cbn [dropUnderscores]. cbn [dropUnderscores] in IH. by rewrite IH.
Qed.

Lemma dropUnderscores_replaceDouble s :
  dropUnderscores (replaceDouble s) = dropUnderscores s.
Proof.
  remember (String.length s) as n eqn:Hn.
  revert s Hn. induction (lt_wf n) as [n _ IH]. intros s ->.
  destruct s as [|c s]; [done|]. cbn [replaceDouble].
  destruct s as [|d s]; [done|].
  destruct (Ascii.eqb_spec c "_") as [->|Hc]; simpl andb.
  - destruct (Ascii.eqb_spec d "_") as [->|Hd].
    + cbn [dropUnderscores]. rewrite !Ascii.eqb_refl.
      apply (IH (String.length s)); [simpl; lia|done].
    + cbn [dropUnderscores]. rewrite Ascii.eqb_refl.
      rewrite (IH (String.length (String d s)) ltac:(simpl; lia) (String d s) eq_refl).
      done.
  - cbn [dropUnderscores]. destruct (Ascii.eqb c "_"); 
      by rewrite (IH (String.length (String d s)) ltac:(simpl; lia) (String d s) eq_refl).
Qed.

Lemma dropUnderscores_collapseLoop fuel s :
  dropUnderscores (collapseLoop fuel s) = dropUnderscores s.
Proof.
  revert s. induction fuel as [|fuel IH]; intros s; simpl; [done|].
  destruct (Contains s "__"); [|done]. by rewrite IH, dropUnderscores_replaceDouble.
Qed.

Lemma hasBoundary_fixed r : normalizeRange r = r → hasBoundary r = false ∧ hasDouble r = false.
Proof.
  intros H. rewrite <- H. split; [apply normalizeRange_no_boundary|apply normalizeRange_no_double].
Qed.

(** X10. [normalizeRange] adds and removes underscores and nothing else: the
    other bytes of the label are kept, in their order ("without losing
    digits").  Its fixed points are the labels with no digit directly before
    a letter and no two adjacent underscores, and only the empty label
    normalizes to the empty one. *)
Theorem normalizeRange_only_underscores (r : string) :
  dropUnderscores (normalizeRange r) = dropUnderscores r
  ∧ (normalizeRange r = r ↔ hasBoundary r = false ∧ hasDouble r = false)
  ∧ (normalizeRange r = "" ↔ r = "").
Proof.
  split; [|split].
  - rewrite normalizeRange_unfold.
    by rewrite dropUnderscores_collapseLoop, dropUnderscores_insertUnderscores.
  - split; [apply hasBoundary_fixed|]. intros [Hb Hd]. by apply normalizeRange_canonical.
  - split.
    + intros Hn. destruct (decide (r = "")) as [|Hne]; [done|].
      by destruct (normalizeRange_nonempty r Hne).
    + by intros ->.
Qed.

(** ** Lines that leave the aggregate as it is *)

Lemma ignored_parseLine mp raw : ignored raw = true → parseLine mp raw = mp.
Proof.
  unfold ignored. rewrite dataLine_parseLine.
  destruct (dataLine raw) as [line|]; [|done].
  destruct (String.eqb (extractBucketName line) ""); [|done]. simpl.
  intros Hf%bool_decide_eq_true. unfold parseClusterLine.
  unfold firstFamily, clusterFamilies in Hf.
  repeat
    match type of Hf with
    | context [Contains line ?f] => destruct (Contains line f); [done|]
    end.
  done.
Qed.

Lemma fold_ignored lines : ∀ mp,
  fold_left parseLine (List.filter (λ raw, negb (ignored raw)) lines) mp
  = fold_left parseLine lines mp.
Proof.
  induction lines as [|raw lines IH]; intros mp; [done|]. simpl.
  destruct (ignored raw) eqn:Hi; simpl.
  - by rewrite IH, ignored_parseLine.
  - apply IH.
Qed.

(** X11. Comment lines, blank lines and lines that have neither a bucket label
    nor one of the four cluster families never change the aggregate: the
    parse of a file is the parse of the file without them, and a file of
    such lines only leaves the parser as [NewMetricParser] made it. *)
Theorem ignored_lines_change_nothing (lines : list string) :
  parseLines (List.filter (λ raw, negb (ignored raw)) lines) = parseLines lines
  ∧ (Forall (λ raw, ignored raw = true) lines → parseLines lines = NewMetricParser).
Proof.
  split; [apply fold_ignored|].
  intros Hall. unfold parseLines. simpl.
  induction Hall as [|raw lines Hi _ IH]; [done|]. simpl. by rewrite ignored_parseLine.
Qed.

Lemma ignored_lines_change_nothing_witness :
  parseLines
    [ "# HELP minio_bucket_usage_object_total Total number of objects"; "";
      metricLine "minio_node_uptime_seconds" [label "server" "s1"] "99" ]
  = NewMetricParser.
Proof.
  apply (proj2 (ignored_lines_change_nothing _)).
  repeat constructor.
Defined.

(** ** The server list of a bucket *)

Lemma firstSeen_elem (l : list string) x : x ∈ firstSeen l ↔ x ∈ l.
Proof.
  induction l as [|y l IH]; simpl; [done|].
  rewrite !elem_of_cons, <- IH. split.
  - intros [->|Hin]; [by left|]. apply list_elem_of_In, filter_In in Hin as [Hin _].
    right. by apply list_elem_of_In.
  - intros [->|Hin]; [by left|].
    destruct (decide (x = y)) as [->|Hne]; [by left|]. right.
    apply list_elem_of_In, filter_In. split; [by apply list_elem_of_In|].
    by apply negb_true_iff, String.eqb_neq.
Qed.

Lemma firstSeen_snoc (l : list string) s :
  firstSeen (l ++ [s]) = if bool_decide (s ∈ l) then firstSeen l else (firstSeen l ++ [s])%list.
Proof.
  induction l as [|x l IH].
  - done.
  - change ((x :: l) ++ [s])%list with (x :: (l ++ [s]))%list.
    cbn [firstSeen]. rewrite IH. destruct (decide (s = x)) as [->|Hne].
    + rewrite (bool_decide_eq_true_2 (x ∈ x :: l)) by apply list_elem_of_here.
      case_bool_decide; [done|].
      rewrite List.filter_app. simpl. rewrite String.eqb_refl. simpl.
      by rewrite app_nil_r.
    + case_bool_decide as Hin.
      * by rewrite bool_decide_eq_true_2 by (by apply list_elem_of_further).
      * rewrite bool_decide_eq_false_2.
        2:{ rewrite elem_of_cons. tauto. }
        rewrite List.filter_app. simpl.
        by rewrite (proj2 (String.eqb_neq s x) Hne).
Qed.

Lemma bucketServers_step b mp raw :
  b ≠ "" →
  bucketServers b (parseLine mp raw) =
  if registers b raw then
    if bool_decide (serverOf raw ∈ bucketServers b mp) then bucketServers b mp
    else (bucketServers b mp ++ [serverOf raw])%list
  else bucketServers b mp.
Proof.
  intros Hb. unfold bucketServers, registers, serverOf. rewrite dataLine_parseLine.
  destruct (dataLine raw) as [line|] eqn:Hd; [|done].
  rewrite <- (dataLine_trimmed raw line Hd).
  destruct (String.eqb_spec (extractBucketName line) "") as [He|Hne]; simpl.
  - by rewrite parseClusterLine_buckets.
  - unfold parseBucketLine. simpl.
    destruct (String.eqb_spec (extractBucketName line) b) as [->|Hnb].
    + rewrite lookup_insert_eq. simpl.
      rewrite applyBucketMetrics_Servers, addServer_Servers.
      by destruct (buckets mp !! b).
    + by rewrite lookup_insert_ne.
Qed.

Lemma parseLines_snoc lines raw :
  parseLines (lines ++ [raw]) = parseLine (parseLines lines) raw.
Proof. unfold parseLines. simpl. by rewrite fold_left_app. Qed.

Lemma bucketServers_parseLines lines b :
  b ≠ "" →
  bucketServers b (parseLines lines)
  = firstSeen (map serverOf (List.filter (registers b) lines)).
Proof.
  intros Hb. induction lines as [|raw lines IH] using rev_ind.
  - unfold bucketServers, parseLines. simpl. by rewrite lookup_empty.
  - rewrite parseLines_snoc, bucketServers_step, IH by done.
    rewrite List.filter_app. simpl.
    destruct (registers b raw); simpl; [|by rewrite app_nil_r].
    rewrite map_app. simpl. rewrite firstSeen_snoc.
    case_bool_decide as H1; case_bool_decide as H2; try done.
    + exfalso. apply H2. exact (proj1 (firstSeen_elem _ _) H1).
    + exfalso. apply H1. exact (proj2 (firstSeen_elem _ _) H2).
Qed.

(** X12. The server list of a bucket holds the server labels of the lines that
    carry the bucket's label (the empty string for a line without server
    label), each once, in the order in which they first appear in the file;
    no label of another bucket's line is in it. *)
Theorem servers_in_order_of_first_appearance (lines : list string) (b : string)
    (bs : BucketSummary) :
  buckets (parseLines lines) !! b = Some bs →
  Servers bs = firstSeen (map serverOf (List.filter (registers b) lines))
  ∧ (∀ s, s ∈ Servers bs ↔ ∃ raw, raw ∈ lines ∧ registers b raw = true ∧ serverOf raw = s).
Proof.
  intros Hbs.
  assert (Hne : b ≠ "") by (by destruct (WellKeyed_parseLines lines b bs Hbs)).
  pose proof (bucketServers_parseLines lines b Hne) as Hs.
  unfold bucketServers in Hs. rewrite Hbs in Hs. simpl in Hs.
  split; [done|]. intros s. rewrite Hs, firstSeen_elem, list_elem_of_fmap. split.
  - intros (raw & -> & Hin). apply list_elem_of_In, filter_In in Hin as [Hin Hr].
    exists raw. split; [by apply list_elem_of_In|done].
  - intros (raw & Hin & Hr & <-). exists raw. split; [done|].
    apply list_elem_of_In, filter_In. split; [by apply list_elem_of_In|done].
Qed.

Lemma servers_in_order_of_first_appearance_witness :
  Servers <$> (buckets (parseLines repeatedServers) !! "a") = Some ["s2"; "s1"; ""].
Proof.
  destruct (buckets (parseLines repeatedServers) !! "a") as [bs|] eqn:Hb;
    [|by vm_compute in Hb].
  destruct (servers_in_order_of_first_appearance repeatedServers "a" bs Hb) as [Hs _].
  simpl. rewrite Hs. reflexivity.
Defined.

(** ** Which range keys a parse creates *)

Lemma hasKey_mapAdd m k v k' : hasKey (mapAdd m k v) k' = String.eqb k k' || hasKey m k'.
Proof.
  unfold hasKey, mapAdd. destruct (String.eqb_spec k k') as [->|Hne]; simpl.
  - rewrite lookup_insert_eq. by apply bool_decide_eq_true_2.
  - by rewrite lookup_insert_ne.
Qed.

Lemma hasKey_empty k : hasKey ∅ k = false.
Proof. unfold hasKey. rewrite lookup_empty. apply bool_decide_eq_false_2. by intros [? ?]. Qed.

Lemma hasKey_lookup m m' k :
  hasKey m k = hasKey m' k → mapGet m k = mapGet m' k → m !! k = m' !! k.
Proof.
  unfold hasKey, mapGet. destruct (m !! k) as [v|], (m' !! k) as [v'|]; simpl.
  - by intros _ ->.
  - intros H. by vm_compute in H.
  - intros H. by vm_compute in H.
  - done.
Qed.

Lemma applyBucketMetrics_hasVersionKey bs line k :
  hasKey (VersionDistribution (applyBucketMetrics bs line)) k =
  hasKey (VersionDistribution bs) k || (Contains line versionFamily && rangeKeyIs k line).
Proof.
  unfold applyBucketMetrics, rangeKeyIs, versionFamily.
  repeat
    match goal with
    | |- context [Contains line ?f] => destruct (Contains line f)
    end;
  destruct (String.eqb (extractRange line) ""); simpl;
    rewrite ?hasKey_mapAdd, ?orb_false_r; try done; apply orb_comm.
Qed.

Lemma applyBucketMetrics_hasSizeKey bs line k :
  hasKey (SizeDistribution (applyBucketMetrics bs line)) k =
  hasKey (SizeDistribution bs) k || (Contains line sizeFamily && rangeKeyIs k line).
Proof.
  unfold applyBucketMetrics, rangeKeyIs, sizeFamily.
  repeat
    match goal with
    | |- context [Contains line ?f] => destruct (Contains line f)
    end;
  destruct (String.eqb (extractRange line) ""); simpl;
    rewrite ?hasKey_mapAdd, ?orb_false_r; try done; apply orb_comm.
Qed.

Section BucketFlag.

(** A mark that [applyBucketMetrics] sets on the lines that [hit] selects
    and never clears. *)
Variable flag : BucketSummary → bool.
Variable hit : string → bool.
Hypothesis flag_new : ∀ b, flag (newBucket b) = false.
Hypothesis flag_addServer : ∀ bs s, flag (addServer bs s) = flag bs.
Hypothesis flag_apply : ∀ bs line, flag (applyBucketMetrics bs line) = flag bs || hit line.

Lemma bucketFlag_step b mp raw :
  b ≠ "" →
  bucketFlag flag b (parseLine mp raw) = bucketFlag flag b mp || hitsBucket hit b raw.
Proof.
  intros Hb. unfold bucketFlag, hitsBucket. rewrite dataLine_parseLine.
  destruct (dataLine raw) as [line|] eqn:Hd; [|by rewrite orb_false_r].
  destruct (String.eqb_spec (extractBucketName line) "") as [He|Hne].
  - rewrite parseClusterLine_buckets.
    destruct (String.eqb_spec (extractBucketName line) b); [congruence|].
    by rewrite orb_false_r.
  - unfold parseBucketLine. simpl.
    destruct (String.eqb_spec (extractBucketName line) b) as [->|Hnb]; simpl.
    + rewrite lookup_insert_eq. simpl. rewrite flag_apply, flag_addServer.
      destruct (buckets mp !! b); simpl; [done|]. by rewrite flag_new.
    + rewrite lookup_insert_ne by done. by rewrite orb_false_r.
Qed.

End BucketFlag.

Lemma flag_parseLines (c : MetricParser → bool) (p : string → bool) :
  (∀ mp raw, c (parseLine mp raw) = c mp || p raw) →
  c NewMetricParser = false →
  ∀ lines, c (parseLines lines) = existsb p lines.
Proof.
  intros Hstep H0 lines. induction lines as [|raw lines IH] using rev_ind; [done|].
  rewrite parseLines_snoc, Hstep, IH, existsb_app. simpl. by rewrite orb_false_r.
Qed.

Lemma addServer_VersionDistribution bs s :
  VersionDistribution (addServer bs s) = VersionDistribution bs.
Proof. apply addServer_fields. Qed.

Lemma addServer_SizeDistribution bs s :
  SizeDistribution (addServer bs s) = SizeDistribution bs.
Proof. apply addServer_fields. Qed.

Lemma bucketVersionKeys lines b k :
  b ≠ "" →
  bucketFlag (λ bs, hasKey (VersionDistribution bs) k) b (parseLines lines)
  = existsb (isBucketRangeLine versionFamily b k) lines.
Proof.
  intros Hb.
  apply (flag_parseLines (bucketFlag (λ bs, hasKey (VersionDistribution bs) k) b)
           (isBucketRangeLine versionFamily b k)); [|done].
  intros mp raw.
  apply (bucketFlag_step (λ bs, hasKey (VersionDistribution bs) k)
           (λ line, Contains line versionFamily && rangeKeyIs k line)); try done.
  - intros bs s. by rewrite addServer_VersionDistribution.
  - intros bs line. apply applyBucketMetrics_hasVersionKey.
Qed.

Lemma bucketSizeKeys lines b k :
  b ≠ "" →
  bucketFlag (λ bs, hasKey (SizeDistribution bs) k) b (parseLines lines)
  = existsb (isBucketRangeLine sizeFamily b k) lines.
Proof.
  intros Hb.
  apply (flag_parseLines (bucketFlag (λ bs, hasKey (SizeDistribution bs) k) b)
           (isBucketRangeLine sizeFamily b k)); [|done].
  intros mp raw.
  apply (bucketFlag_step (λ bs, hasKey (SizeDistribution bs) k)
           (λ line, Contains line sizeFamily && rangeKeyIs k line)); try done.
  - intros bs s. by rewrite addServer_SizeDistribution.
  - intros bs line. apply applyBucketMetrics_hasSizeKey.
Qed.

Ltac cluster_key_step :=
  intros; unfold isClusterRangeLine;
  rewrite dataLine_parseLine;
  match goal with
  | |- context [dataLine ?raw] =>
      let line := fresh "line" in
      destruct (dataLine raw) as [line|]; [|by rewrite orb_false_r];
      destruct (String.eqb (extractBucketName line) ""); [|by rewrite orb_false_r];
      unfold parseClusterLine, firstFamily, clusterFamilies, rangeKeyIs;
      repeat
        match goal with
        | |- context [Contains line ?f] => destruct (Contains line f)
        end;
      repeat
        match goal with
        | |- context [String.eqb (extractRange line) ""] =>
            destruct (String.eqb (extractRange line) "")
        end;
      simpl; rewrite ?hasKey_mapAdd, ?orb_false_r;
      repeat case_bool_decide; simpl; rewrite ?orb_false_r;
      try done; try congruence; try apply orb_comm
  end.

Lemma clusterVersionKeys_step k mp raw :
  hasKey (ClusterVersionDist (parseLine mp raw)) k
  = hasKey (ClusterVersionDist mp) k
    || isClusterRangeLine "minio_cluster_objects_version_distribution" k raw.
Proof. cluster_key_step. Qed.

Lemma clusterSizeKeys_step k mp raw :
  hasKey (ClusterSizeDist (parseLine mp raw)) k
  = hasKey (ClusterSizeDist mp) k
    || isClusterRangeLine "minio_cluster_objects_size_distribution" k raw.
Proof. cluster_key_step. Qed.

Lemma clusterVersionKeys lines k :
  hasKey (ClusterVersionDist (parseLines lines)) k
  = existsb (isClusterRangeLine "minio_cluster_objects_version_distribution" k) lines.
Proof.
  apply (flag_parseLines (λ mp, hasKey (ClusterVersionDist mp) k));
    [apply clusterVersionKeys_step|apply hasKey_empty].
Qed.

Lemma clusterSizeKeys lines k :
  hasKey (ClusterSizeDist (parseLines lines)) k
  = existsb (isClusterRangeLine "minio_cluster_objects_size_distribution" k) lines.
Proof.
  apply (flag_parseLines (λ mp, hasKey (ClusterSizeDist mp) k));
    [apply clusterSizeKeys_step|apply hasKey_empty].
Qed.

(** X13. A distribution map holds a key exactly when some line of its scope and
    family carries a range label that normalizes to the key, whatever that
    line's value: a count of zero, or a value that does not parse, creates
    the key all the same.  This holds per bucket and for the two cluster
    distributions. *)
Theorem range_key_created_by_any_line (lines : list string) (k : string) :
  hasKey (ClusterVersionDist (parseLines lines)) k
    = existsb (isClusterRangeLine "minio_cluster_objects_version_distribution" k) lines
  ∧ hasKey (ClusterSizeDist (parseLines lines)) k
    = existsb (isClusterRangeLine "minio_cluster_objects_size_distribution" k) lines
  ∧ ∀ b bs, buckets (parseLines lines) !! b = Some bs →
      hasKey (VersionDistribution bs) k = existsb (isBucketRangeLine versionFamily b k) lines
      ∧ hasKey (SizeDistribution bs) k = existsb (isBucketRangeLine sizeFamily b k) lines.
Proof.
  split; [apply clusterVersionKeys|]. split; [apply clusterSizeKeys|].
  intros b bs Hbs.
  assert (Hne : b ≠ "") by (by destruct (WellKeyed_parseLines lines b bs Hbs)).
  pose proof (bucketVersionKeys lines b k Hne) as Hv.
  pose proof (bucketSizeKeys lines b k Hne) as Hs.
  unfold bucketFlag in Hv, Hs. rewrite Hbs in Hv, Hs. done.
Qed.

Lemma range_key_created_by_any_line_witness :
  (λ bs, (hasKey (VersionDistribution bs) "BETWEEN_2_AND_10",
          hasKey (SizeDistribution bs) "LESS_THAN_1024_B",
          hasKey (SizeDistribution bs) "GREATER_THAN_512_MB"))
    <$> (buckets (parseLines zeroCountRange) !! "b") = Some (true, true, false).
Proof.
  destruct (buckets (parseLines zeroCountRange) !! "b") as [bs|] eqn:Hb;
    [|by vm_compute in Hb].
  simpl.
  destruct (proj2 (proj2 (range_key_created_by_any_line zeroCountRange "BETWEEN_2_AND_10")) "b" bs Hb)
    as [-> _].
  destruct (proj2 (proj2 (range_key_created_by_any_line zeroCountRange "LESS_THAN_1024_B")) "b" bs Hb)
    as [_ ->].
  destruct (proj2 (proj2 (range_key_created_by_any_line zeroCountRange "GREATER_THAN_512_MB")) "b" bs Hb)
    as [_ ->].
  reflexivity.
Defined.

(** ** The entries of a line *)

Lemma existsb_false_Forall {A : Type} (p : A → bool) (l : list A) :
  existsb p l = false ↔ Forall (λ x, p x = false) l.
Proof.
  induction l as [|x l IH]; simpl.
  - split; [constructor|done].
  - rewrite orb_false_iff, Forall_cons, IH. tauto.
Qed.

Lemma firstFamily_cluster line family :
  firstFamily clusterFamilies line = Some family → family ∈ clusterFamilies.
Proof.
  unfold clusterFamilies. simpl. intros Hf.
  repeat (destruct (Contains line _); [injection Hf as <-; rewrite !elem_of_cons; tauto|]). done.
Qed.

Ltac entry_cases :=
  repeat match goal with
         | |- context [String.eqb ?x ?y] =>
             let v := eval vm_compute in (String.eqb x y) in
             match v with
             | true => change (String.eqb x y) with true
             | false => change (String.eqb x y) with false
             end; cbn [negb andb orb]
         | |- context [bool_decide (Some ?x = Some ?y)] =>
             let v := eval vm_compute in (bool_decide (Some x = Some y)) in
             match v with
             | true => change (bool_decide (Some x = Some y)) with true
             | false => change (bool_decide (Some x = Some y)) with false
             end; cbn [negb andb orb]
         | |- context [String.eqb ?x ?y] =>
             destruct (String.eqb_spec x y); subst; cbn [negb andb orb]
         | |- context [if ?c then _ else _] => destruct c eqn:?; cbn [negb andb orb app]
         end;
  try congruence;
  try (by apply bool_decide_eq_true_2; rewrite ?elem_of_cons, ?elem_of_nil;
       intuition congruence);
  try (by apply bool_decide_eq_false_2; rewrite ?elem_of_cons, ?elem_of_nil;
       intuition congruence).

(** What the entries of a line are, in the words of the sums. *)
Lemma adds_spec e raw :
  adds e raw =
  match e with
  | BucketRecord b => registers b raw
  | SizeRendering b => negb (String.eqb b "") && isBucketLine bytesFamily b raw
  | VersionKey b k => negb (String.eqb b "") && isBucketRangeLine versionFamily b k raw
  | SizeKey b k => negb (String.eqb b "") && isBucketRangeLine sizeFamily b k raw
  | ClusterVersionKey k =>
      isClusterRangeLine "minio_cluster_objects_version_distribution" k raw
  | ClusterSizeKey k =>
      isClusterRangeLine "minio_cluster_objects_size_distribution" k raw
  end.
Proof.
  unfold adds, entriesOf, registers, isBucketLine, isBucketRangeLine, isClusterRangeLine,
    rangeKeyIs.
  destruct (dataLine raw) as [line|];
    [|by destruct e; rewrite ?andb_false_r; apply bool_decide_eq_false_2, not_elem_of_nil].
  generalize (extractBucketName line) (normalizeRange (extractRange line))
    (negb (String.eqb (extractRange line) "")). intros b key ranged.
  destruct (String.eqb_spec b "") as [->|Hb].
  - cbn [negb andb].
    destruct (firstFamily clusterFamilies line) as [family|] eqn:Hf.
    + apply firstFamily_cluster in Hf. unfold clusterFamilies in Hf.
      repeat (apply elem_of_cons in Hf as [->|Hf]); [..|by apply elem_of_nil in Hf];
        destruct ranged;
        destruct e as [b'|b'|b' k|b' k|k|k]; cbn [negb andb]; entry_cases.
    + destruct e as [b'|b'|b' k|b' k|k|k]; cbn [negb andb]; entry_cases.
  - cbn [negb andb].
    generalize (Contains line bytesFamily) (Contains line versionFamily)
      (Contains line sizeFamily). intros c1 c2 c3.
    destruct e as [b'|b'|b' k|b' k|k|k]; cbn [negb andb];
      destruct c1, c2, c3, ranged; cbn [negb andb app]; entry_cases.
Qed.

Lemma existsb_without {A : Type} (p : A → bool) (pre post : list A) (bad : A) :
  existsb p (pre ++ bad :: post) = existsb p (pre ++ post) || p bad.
Proof. rewrite !existsb_app. simpl. by destruct (existsb p pre), (p bad), (existsb p post). Qed.

Lemma existsb_same {A : Type} (p q : A → bool) (l : list A) :
  (∀ x, p x = q x) → existsb p l = existsb q l.
Proof. intros Hpq. induction l as [|x l IH]; simpl; [done|]. by rewrite Hpq, IH. Qed.

Lemma existsb_never {A : Type} (l : list A) : existsb (λ _, false) l = false.
Proof. by induction l. Qed.

Lemma formatBytes_written bytes : formatBytes bytes ≠ "".
Proof.
  assert (Hs : ∀ a b : string, b ≠ "" → (a ++ b)%string ≠ "").
  { intros a b Hb. by destruct a. }
  unfold formatBytes. destruct (bytes <? 1024); [by apply Hs|].
  destruct (unitLoop _ _ _ _) as [d e]. cbv zeta. by apply Hs.
Qed.

Lemma registers_empty raw : registers "" raw = false.
Proof.
  unfold registers. destruct (dataLine raw) as [line|]; [|done].
  by destruct (String.eqb_spec (extractBucketName line) "").
Qed.

Lemma bucket_SizeHuman lines b bs :
  buckets (parseLines lines) !! b = Some bs →
  SizeHuman bs = if existsb (isBucketLine bytesFamily b) lines
                 then formatBytes (SizeBytes bs) else "".
Proof.
  intros Hbs.
  assert (Hne : b ≠ "") by (by destruct (WellKeyed_parseLines lines b bs Hbs)).
  assert (H0 : HumanSizeOf false b NewMetricParser).
  { unfold HumanSizeOf. simpl. by rewrite lookup_empty. }
  pose proof (HumanSizeOf_fold lines NewMetricParser b false Hne H0) as Hh.
  unfold HumanSizeOf in Hh. unfold parseLines in Hbs. simpl in Hbs.
  rewrite Hbs in Hh. exact Hh.
Qed.

(** The aggregate has the entries that its lines leave. *)
Lemma present_parseLines e lines : present e (parseLines lines) = existsb (adds e) lines.
Proof.
  rewrite (existsb_same _ _ _ (adds_spec e)).
  assert (Hnone : ∀ flag, bucketFlag flag "" (parseLines lines) = false).
  { intros flag. unfold bucketFlag.
    destruct (buckets (parseLines lines) !! "") as [bs|] eqn:E; [|done].
    by destruct (WellKeyed_parseLines lines "" bs E). }
  destruct e as [b|b|b k|b k|k|k]; cbn [present].
  - destruct (existsb (registers b) lines) eqn:E.
    + apply bool_decide_eq_true_2, not_eq_None_Some. rewrite parseLines_lookup_None.
      rewrite <- existsb_false_Forall. by rewrite E.
    + apply bool_decide_eq_false_2. rewrite <- not_eq_None_Some. intros Hn. apply Hn.
      by apply parseLines_lookup_None, existsb_false_Forall.
  - destruct (String.eqb_spec b "") as [->|Hb]; cbn [negb andb].
    { by rewrite Hnone, existsb_never. }
    assert (H0 : HumanSizeOf false b NewMetricParser).
    { unfold HumanSizeOf. simpl. by rewrite lookup_empty. }
    pose proof (HumanSizeOf_fold lines NewMetricParser b false Hb H0) as Hh.
    unfold HumanSizeOf, HumanSize in Hh. cbn [orb] in Hh.
    unfold bucketFlag, parseLines. cbn [ParseFile fst].
    destruct (buckets (fold_left parseLine lines NewMetricParser) !! b) as [bs|]; [|done].
    cbn [from_option]. rewrite Hh.
    destruct (existsb (isBucketLine bytesFamily b) lines); [|done].
    pose proof (formatBytes_written (SizeBytes bs)) as Hw.
    by destruct (String.eqb_spec (formatBytes (SizeBytes bs)) "").
  - destruct (String.eqb_spec b "") as [->|Hb]; cbn [negb andb].
    { by rewrite Hnone, existsb_never. }
    by apply bucketVersionKeys.
  - destruct (String.eqb_spec b "") as [->|Hb]; cbn [negb andb].
    { by rewrite Hnone, existsb_never. }
    by apply bucketSizeKeys.
  - apply clusterVersionKeys.
  - apply clusterSizeKeys.
Qed.

(** Two inputs with the same sums and the same entries leave the same
    aggregate, but for the server lists. *)
Lemma aggregate_same lines lines' :
  (∀ p, sumOver p lines = sumOver p lines') →
  (∀ e, existsb (adds e) lines = existsb (adds e) lines') →
  ClusterObjects (parseLines lines) = ClusterObjects (parseLines lines')
  ∧ ClusterBytes (parseLines lines) = ClusterBytes (parseLines lines')
  ∧ ClusterVersionDist (parseLines lines) = ClusterVersionDist (parseLines lines')
  ∧ ClusterSizeDist (parseLines lines) = ClusterSizeDist (parseLines lines')
  ∧ withoutServers <$> buckets (parseLines lines)
    = withoutServers <$> buckets (parseLines lines').
Proof.
  intros Hsum Hex.
  assert (Hp : ∀ e, present e (parseLines lines) = present e (parseLines lines')).
  { intros e. by rewrite !present_parseLines. }
  split; [by rewrite !ClusterObjects_sum, Hsum|].
  split; [by rewrite !ClusterBytes_sum, Hsum|].
  split.
  { apply map_eq. intros k. apply hasKey_lookup; [exact (Hp (ClusterVersionKey k))|].
    pose proof (clusterVersions_sum lines k) as H1.
    pose proof (clusterVersions_sum lines' k) as H2.
    unfold clusterVersions in H1, H2. by rewrite H1, H2, Hsum. }
  split.
  { apply map_eq. intros k. apply hasKey_lookup; [exact (Hp (ClusterSizeKey k))|].
    pose proof (clusterSizes_sum lines k) as H1.
    pose proof (clusterSizes_sum lines' k) as H2.
    unfold clusterSizes in H1, H2. by rewrite H1, H2, Hsum. }
  apply map_eq. intros b. rewrite !lookup_fmap.
  pose proof (Hp (BucketRecord b)) as Hrec. cbn [present] in Hrec.
  destruct (buckets (parseLines lines) !! b) as [bs|] eqn:Hbs;
    destruct (buckets (parseLines lines') !! b) as [bs'|] eqn:Hbs'; cbn [fmap option_fmap option_map];
    [|by vm_compute in Hrec|by vm_compute in Hrec|done].
  clear Hrec. f_equal.
  destruct (WellKeyed_parseLines lines b bs Hbs) as (Hne & Hn & _).
  destruct (WellKeyed_parseLines lines' b bs' Hbs') as (_ & Hn' & _).
  assert (Ho : ObjectCount bs = ObjectCount bs').
  { pose proof (bucketObjects_sum lines b Hne) as H1.
    pose proof (bucketObjects_sum lines' b Hne) as H2.
    unfold bucketObjects in H1, H2. rewrite Hbs in H1. rewrite Hbs' in H2. simpl in H1, H2.
    by rewrite H1, H2, Hsum. }
  assert (Hb : SizeBytes bs = SizeBytes bs').
  { pose proof (bucketBytes_sum lines b Hne) as H1.
    pose proof (bucketBytes_sum lines' b Hne) as H2.
    unfold bucketBytes in H1, H2. rewrite Hbs in H1. rewrite Hbs' in H2. simpl in H1, H2.
    by rewrite H1, H2, Hsum. }
  assert (Hh : SizeHuman bs = SizeHuman bs').
  { rewrite (bucket_SizeHuman lines b bs Hbs), (bucket_SizeHuman lines' b bs' Hbs'), Hb.
    assert (Hadds : ∀ raw, adds (SizeRendering b) raw = isBucketLine bytesFamily b raw).
    { intros raw. by rewrite adds_spec, (proj2 (String.eqb_neq b "") Hne). }
    by rewrite <- !(existsb_same _ _ _ Hadds), Hex. }
  assert (Hv : VersionDistribution bs = VersionDistribution bs').
  { apply map_eq. intros k. apply hasKey_lookup.
    - pose proof (Hp (VersionKey b k)) as He. cbn [present] in He.
      unfold bucketFlag in He. by rewrite Hbs, Hbs' in He.
    - pose proof (bucketVersions_sum lines b k Hne) as H1.
      pose proof (bucketVersions_sum lines' b k Hne) as H2.
      unfold bucketVersions in H1, H2. rewrite Hbs in H1. rewrite Hbs' in H2.
      simpl in H1, H2. by rewrite H1, H2, Hsum. }
  assert (Hs : SizeDistribution bs = SizeDistribution bs').
  { apply map_eq. intros k. apply hasKey_lookup.
    - pose proof (Hp (SizeKey b k)) as He. cbn [present] in He.
      unfold bucketFlag in He. by rewrite Hbs, Hbs' in He.
    - pose proof (bucketSizes_sum lines b k Hne) as H1.
      pose proof (bucketSizes_sum lines' b k Hne) as H2.
      unfold bucketSizes in H1, H2. rewrite Hbs in H1. rewrite Hbs' in H2.
      simpl in H1, H2. by rewrite H1, H2, Hsum. }
  unfold withoutServers. by rewrite Hn, Hn', Ho, Hb, Hh, Hv, Hs.
Qed.

(** Whether an aggregate has an entry can be read without its server
    lists. *)
Lemma present_erased mp mp' e :
  ClusterVersionDist mp = ClusterVersionDist mp' →
  ClusterSizeDist mp = ClusterSizeDist mp' →
  withoutServers <$> buckets mp = withoutServers <$> buckets mp' →
  present e mp = present e mp'.
Proof.
  intros Hcv Hcs Hb.
  assert (Hl : ∀ b, withoutServers <$> (buckets mp !! b) = withoutServers <$> (buckets mp' !! b)).
  { intros b. by rewrite <- !lookup_fmap, Hb. }
  assert (Hflag : ∀ (f : BucketSummary → bool) b,
            (∀ bs, f bs = f (withoutServers bs)) → bucketFlag f b mp = bucketFlag f b mp').
  { intros f b Hf. unfold bucketFlag. specialize (Hl b).
    destruct (buckets mp !! b) as [bs|], (buckets mp' !! b) as [bs'|]; try done.
    assert (Hw : withoutServers bs = withoutServers bs') by (apply (inj Some); exact Hl).
    simpl. by rewrite (Hf bs), (Hf bs'), Hw. }
  destruct e as [b|b|b k|b k|k|k]; cbn [present].
  - specialize (Hl b).
    by destruct (buckets mp !! b) as [bs|], (buckets mp' !! b) as [bs'|].
  - by apply Hflag.
  - by apply Hflag.
  - by apply Hflag.
  - by rewrite Hcv.
  - by rewrite Hcs.
Qed.

Lemma covered_spec others raw :
  covered others raw = true ↔ ∀ e, adds e raw = true → existsb (adds e) others = true.
Proof.
  unfold covered. rewrite forallb_forall. unfold adds at 1. split.
  - intros Hc e He. apply Hc. apply list_elem_of_In. by apply bool_decide_eq_true in He.
  - intros Hc e He. apply Hc. apply bool_decide_eq_true_2. by apply list_elem_of_In.
Qed.

(** ** The order of the lines *)

Lemma sumOver_cons p raw lines :
  sumOver p (raw :: lines) = (if p raw then lineValue raw else 0) + sumOver p lines.
Proof. unfold sumOver. simpl. by destruct (p raw). Qed.

Lemma sumOver_perm p (l l' : list string) : l ≡ₚ l' → sumOver p l = sumOver p l'.
Proof.
  induction 1 as [|x l l' _ IH|x y l|l l' l'' _ IH1 _ IH2].
  - done.
  - by rewrite !sumOver_cons, IH.
  - rewrite !sumOver_cons. lia.
  - by rewrite IH1.
Qed.

Lemma existsb_perm {A : Type} (p : A → bool) (l l' : list A) :
  l ≡ₚ l' → existsb p l = existsb p l'.
Proof.
  induction 1 as [|x l l' _ IH|x y l|l l' l'' _ IH1 _ IH2]; simpl.
  - done.
  - by rewrite IH.
  - by destruct (p x), (p y).
  - by rewrite IH1.
Qed.

Lemma lookup_perm lines lines' b :
  lines ≡ₚ lines' →
  buckets (parseLines lines) !! b = None → buckets (parseLines lines') !! b = None.
Proof.
  intros Hp. rewrite !parseLines_lookup_None. by rewrite Hp.
Qed.

Lemma bucketServers_perm lines lines' b :
  lines ≡ₚ lines' → bucketServers b (parseLines lines) ≡ₚ bucketServers b (parseLines lines').
Proof.
  intros Hp. unfold bucketServers.
  destruct (buckets (parseLines lines) !! b) as [bs|] eqn:Hbs;
    destruct (buckets (parseLines lines') !! b) as [bs'|] eqn:Hbs'; simpl.
  - destruct (WellKeyed_parseLines lines b bs Hbs) as (Hne & _ & Hnd).
    destruct (WellKeyed_parseLines lines' b bs' Hbs') as (_ & _ & Hnd').
    apply NoDup_Permutation; [done|done|]. intros s.
    pose proof (bucketServers_parseLines lines b Hne) as H1.
    pose proof (bucketServers_parseLines lines' b Hne) as H2.
    unfold bucketServers in H1, H2. rewrite Hbs in H1. rewrite Hbs' in H2. simpl in H1, H2.
    rewrite H1, H2, !firstSeen_elem, !list_elem_of_fmap.
    split; intros (raw & -> & Hin); exists raw; (split; [done|]);
      apply list_elem_of_In, filter_In; apply list_elem_of_In, filter_In in Hin as [Hin Hr];
      (split; [|done]); apply list_elem_of_In; apply list_elem_of_In in Hin.
    + by rewrite <- Hp.
    + by rewrite Hp.
  - symmetry in Hp. by rewrite (lookup_perm _ _ _ Hp Hbs') in Hbs.
  - by rewrite (lookup_perm _ _ _ Hp Hbs) in Hbs'.
  - done.
Qed.

(** X14. The aggregate does not depend on the order of the lines of the file:
    two files with the same lines in different orders give the same cluster
    totals and distributions and the same record for every bucket (name,
    object count, size and its rendering, both distributions with their
    keys), except that the server list of a bucket holds the same labels in
    a possibly different order. *)
Theorem parse_order_independent (lines lines' : list string) :
  lines ≡ₚ lines' →
  ClusterObjects (parseLines lines) = ClusterObjects (parseLines lines')
  ∧ ClusterBytes (parseLines lines) = ClusterBytes (parseLines lines')
  ∧ ClusterVersionDist (parseLines lines) = ClusterVersionDist (parseLines lines')
  ∧ ClusterSizeDist (parseLines lines) = ClusterSizeDist (parseLines lines')
  ∧ withoutServers <$> buckets (parseLines lines)
    = withoutServers <$> buckets (parseLines lines')
  ∧ ∀ b, bucketServers b (parseLines lines) ≡ₚ bucketServers b (parseLines lines').
Proof.
  intros Hp.
  destruct (aggregate_same lines lines') as (Hco & Hcb & Hcv & Hcs & Hb);
    [by intros p; apply sumOver_perm|by intros e; apply existsb_perm|].
  repeat split; try done.
  intros b. by apply bucketServers_perm.
Qed.

Lemma parse_order_independent_witness :
  withoutServers <$> buckets (parseLines (rev repeatedServers))
  = withoutServers <$> buckets (parseLines repeatedServers)
  ∧ bucketServers "a" (parseLines (rev repeatedServers)) = ["s2"; ""; "s1"]
  ∧ bucketServers "a" (parseLines repeatedServers) = ["s2"; "s1"; ""].
Proof.
  split; [|split; reflexivity].
  apply (parse_order_independent (rev repeatedServers) repeatedServers).
  symmetry. apply Permutation_rev.
Defined.

(** ** The itemised details *)







(** ** The two spellings of a size range *)

Lemma AllCanonical_parseLines lines : AllCanonical (parseLines lines).
Proof.
  unfold parseLines. simpl.
  assert (Hf : ∀ mp, AllCanonical mp → AllCanonical (fold_left parseLine lines mp)).
  { induction lines as [|raw lines IH]; intros mp Hmp; simpl; [done|].
    by apply IH, AllCanonical_parseLine. }
  apply Hf. split; [apply CanonicalKeys_empty|]. split; [apply CanonicalKeys_empty|].
  intros b bs Hb. simpl in Hb. by rewrite lookup_empty in Hb.
Qed.

Lemma CanonicalKeys_unspaced m : CanonicalKeys m → m !! unspacedRange = None.
Proof.
  intros Hm. destruct (m !! unspacedRange) as [v|] eqn:Hk; [|done].
  destruct (Hm _ _ Hk) as [_ Hfix]. by vm_compute in Hfix.
Qed.

Lemma sublist_List_filter {A : Type} (p : A → bool) (l : list A) :
  List.filter p l `sublist_of` l.
Proof.
  induction l as [|x l IH]; simpl; [done|].
  destruct (p x); by constructor.
Qed.

Lemma positiveRanges_spaced m :
  m !! unspacedRange = None →
  positiveRanges sizeRangeOrder m = positiveRanges spacedSizeRanges m.
Proof.
  intros Hk. unfold positiveRanges, spacedSizeRanges.
  generalize sizeRangeOrder. intros order.
  induction order as [|kl order IH]; [done|]. cbn [List.filter].
  destruct (String.eqb_spec (fst kl) unspacedRange) as [He|Hne]; cbn [negb].
  - unfold mapGet at 1. rewrite He, Hk. simpl. apply IH.
  - cbn [List.filter]. by rewrite IH.
Qed.

(** X16. Because the parser normalizes every range label, no distribution of a
    parse has the key BETWEEN_1024B_AND_1_MB: the counts of both spellings
    sit under BETWEEN_1024_B_AND_1_MB, the case of the other spelling in
    [formatSizeDistribution] and its term in [getSizeStatus] find nothing,
    and the size details never show the label 1KB-1MB (or any other) twice,
    as they do for a map that holds both keys. *)
Theorem parsed_sizes_merge_spellings (lines : list string) :
  let Merged (m : gmap string Z) :=
    m !! "BETWEEN_1024B_AND_1_MB" = None
    ∧ mapGet m "BETWEEN_1024B_AND_1_MB" = 0
    ∧ NoDup (map snd (positiveRanges sizeRangeOrder m)) in
  Merged (ClusterSizeDist (parseLines lines))
  ∧ (∀ b bs, buckets (parseLines lines) !! b = Some bs → Merged (SizeDistribution bs))
  ∧ map snd (positiveRanges sizeRangeOrder bothSpellings) = ["1KB-1MB"; "1KB-1MB"].
Proof.
  cbv zeta.
  assert (Hm : ∀ m, CanonicalKeys m →
    m !! "BETWEEN_1024B_AND_1_MB" = None
    ∧ mapGet m "BETWEEN_1024B_AND_1_MB" = 0
    ∧ NoDup (map snd (positiveRanges sizeRangeOrder m))).
  { intros m Hc. pose proof (CanonicalKeys_unspaced m Hc) as Hk.
    rewrite (positiveRanges_spaced m Hk). unfold unspacedRange in Hk.
    split; [done|]. split; [unfold mapGet; by rewrite Hk|].
    apply (sublist_NoDup _ (map snd spacedSizeRanges)).
    - apply (bool_decide_unpack _). by vm_compute.
    - apply fmap_sublist, sublist_List_filter. }
  destruct (AllCanonical_parseLines lines) as (_ & Hcs & Hb).
  split; [by apply Hm|]. split; [|by vm_compute].
  intros b bs Hbs. apply Hm. by destruct (Hb b bs Hbs).
Qed.

Lemma parsed_sizes_merge_spellings_witness :
  (λ bs, (SizeDistribution bs !! "BETWEEN_1024B_AND_1_MB",
          SizeDistribution bs !! "BETWEEN_1024_B_AND_1_MB"))
    <$> (buckets (parseLines twoSpellings) !! "b") = Some (None, Some 111).
Proof.
  destruct (buckets (parseLines twoSpellings) !! "b") as [bs|] eqn:Hb.
  - destruct (proj1 (proj2 (parsed_sizes_merge_spellings twoSpellings)) "b" bs Hb) as [Hk _].
    simpl. rewrite Hk. f_equal. f_equal. by vm_compute in Hb; injection Hb as <-.
  - by vm_compute in Hb.
Defined.

(** ** The shape of the table *)

Lemma GetSummary_length `{H : !GoRuntime} mp : length (GetSummary mp) = size (buckets mp).
Proof.
  by rewrite (Permutation_length (GetSummary_perm mp)), length_map, length_map_to_list.
Qed.

Section TableShape.
Context `{H : !GoRuntime}.

Lemma named_aggregate mp (l : list BucketSummary) :
  WellKeyed mp → l ≡ₚ map snd (map_to_list (buckets mp)) →
  existsb (λ b, String.eqb (Name b) clusterName) l
  = negb (bool_decide (buckets mp !! clusterName = None)).
Proof.
  intros Hwk Hl. apply eq_true_iff_eq. rewrite existsb_exists, negb_true_iff.
  rewrite bool_decide_eq_false. split.
  - intros (bs & Hin & Hn%String.eqb_eq).
    apply list_elem_of_In in Hin. rewrite Hl in Hin.
    apply list_elem_of_fmap in Hin as ([k bs'] & -> & Hin).
    apply elem_of_map_to_list in Hin. simpl in Hn.
    destruct (Hwk k bs' Hin) as (_ & Hk & _). rewrite Hn in Hk. subst k.
    by rewrite Hin.
  - intros Hsome. destruct (buckets mp !! clusterName) as [bs|] eqn:Hbs; [|done].
    exists bs. split.
    + apply list_elem_of_In. rewrite Hl. apply list_elem_of_fmap.
      exists (clusterName, bs). split; [done|]. by apply elem_of_map_to_list.
    + destruct (Hwk _ _ Hbs) as (_ & -> & _). apply String.eqb_refl.
Qed.

Lemma PrintSummaryTable_unfold mp opts :
  PrintSummaryTable mp opts =
  match renderedSummaries opts mp with
  | None => NoBucketData
  | Some l =>
      SummaryTable (bool_decide (buckets mp = ∅)) (tableHeader opts)
        (map (renderRow opts) l)
        {| totalCount := length l;
           totalObjects := Int64.wrap (sumZ (map ObjectCount l));
           totalBytes := Int64.wrap (sumZ (map SizeBytes l));
           totalHuman := formatBytes (Int64.wrap (sumZ (map SizeBytes l))) |}
  end.
Proof.
  unfold PrintSummaryTable, renderedSummaries.
  destruct (orClusterFallback mp (GetSummary (H := within 0 H) mp)) as [l|]; [|done].
  rewrite renderLoop_spec. f_equal.
  rewrite GetSummary_length. apply eq_true_iff_eq.
  rewrite Nat.eqb_eq, bool_decide_eq_true. apply map_size_empty_iff.
Qed.

Lemma renderedSummaries_perm mp opts :
  WellKeyed mp →
  default [] (renderedSummaries opts mp)
  ≡ₚ (map snd (map_to_list (buckets mp))
      ++ (if clusterHasData mp
             && (bool_decide (buckets mp = ∅)
                 || Cluster opts && bool_decide (buckets mp !! clusterName = None))
          then [clusterSummary mp] else []))%list
  ∧ (renderedSummaries opts mp = None ↔ buckets mp = ∅ ∧ clusterHasData mp = false).
Proof.
  intros Hwk. destruct (decide (buckets mp = ∅)) as [He|Hne].
  - rewrite He, map_to_list_empty, (bool_decide_eq_true_2 _ eq_refl). simpl.
    rewrite andb_true_r. destruct (clusterHasData mp) eqn:Hc.
    + rewrite (renderedSummaries_fallback opts mp He Hc). split; [done|].
      split; [done|]. by intros [_ ?].
    + unfold renderedSummaries, orClusterFallback.
      rewrite (GetSummary_empty (H := within 0 H) mp He), Hc. done.
  - rewrite (bool_decide_eq_false_2 _ Hne). cbn [orb].
    unfold renderedSummaries, orClusterFallback.
    pose proof (GetSummary_length (H := within 0 H) mp) as Hlen.
    assert (Hpos : size (buckets mp) ≠ 0%nat) by (by rewrite map_size_empty_iff).
    destruct (length (GetSummary (H := within 0 H) mp) =? 0)%nat eqn:Hz.
    { apply Nat.eqb_eq in Hz. lia. }
    split; [|split; [done|by intros [? _]]].
    unfold withRequestedCluster. rewrite (andb_comm (Cluster opts)).
    cbn [default from_option id].
    destruct (clusterHasData mp); cbn [andb];
      [|by rewrite app_nil_r, GetSummary_perm].
    destruct (Cluster opts); cbn [andb]; [|by rewrite app_nil_r, GetSummary_perm].
    rewrite (named_aggregate mp _ Hwk (GetSummary_perm (H := within 0 H) mp)).
    destruct (bool_decide (buckets mp !! clusterName = None)); cbn [negb];
      [|by rewrite app_nil_r, GetSummary_perm].
    by rewrite sortSlice_perm, GetSummary_perm.
Qed.

End TableShape.

(** X17. The shape of the summary table after a parse.  The no-data message
    replaces the table exactly when there is no bucket and the cluster
    aggregate holds nothing, and then the top-N view, printed from a call
    of its own, prints it too.  The
    rows of the table are those of the buckets, one each, and one more for
    the cluster aggregate, which is added when it holds data and either
    there is no bucket or the aggregate was asked for and no bucket bears
    its name; the totals row counts that row among its buckets and renders
    its byte total with [formatBytes]; the notice that the aggregate stands
    in is printed exactly when there is no bucket. *)
Theorem table_rows_and_aggregate `{H : !GoRuntime} (lines : list string)
    (opts : DisplayOptions) (n : Z) :
  let mp := parseLines lines in
  let out := PrintSummaryTable mp opts in
  let aggregateRow :=
    clusterHasData mp
    && (bool_decide (buckets mp = ∅)
        || Cluster opts && bool_decide (buckets mp !! clusterName = None)) in
  (out = NoBucketData ↔ buckets mp = ∅ ∧ clusterHasData mp = false)
  ∧ (∀ H' : GoRuntime, @PrintTopBuckets H' mp n opts = NoTopData ↔ out = NoBucketData)
  ∧ tableRows out
    ≡ₚ map (renderRow opts)
         (map snd (map_to_list (buckets mp))
          ++ (if aggregateRow then [clusterSummary mp] else []))
  ∧ totalCount (tableTotals out) = (size (buckets mp) + (if aggregateRow then 1 else 0))%nat
  ∧ (out = NoBucketData
     ∨ out = SummaryTable (bool_decide (buckets mp = ∅)) (tableHeader opts)
               (tableRows out) (tableTotals out)
       ∧ totalHuman (tableTotals out) = formatBytes (totalBytes (tableTotals out))).
Proof.
  cbv zeta. set (mp := parseLines lines).
  destruct (renderedSummaries_perm mp opts (WellKeyed_parseLines lines)) as [Hperm Hnone].
  pose proof (PrintSummaryTable_unfold mp opts) as Hout.
  assert (Htop : ∀ H' : GoRuntime,
            @PrintTopBuckets H' mp n opts = NoTopData ↔ @renderedSummaries H opts mp = None).
  { intros H'.
    pose proof (proj2 (@renderedSummaries_perm H' mp opts (WellKeyed_parseLines lines)))
      as Hnone'.
    transitivity (@renderedSummaries H' opts mp = None); [|tauto].
    unfold PrintTopBuckets. by destruct (@renderedSummaries H' opts mp). }
  rewrite Hout. clear Hout.
  assert (Hsize : ∀ l : list BucketSummary,
    l ≡ₚ (map snd (map_to_list (buckets mp))
          ++ (if clusterHasData mp
                 && (bool_decide (buckets mp = ∅)
                     || Cluster opts && bool_decide (buckets mp !! clusterName = None))
              then [clusterSummary mp] else []))%list →
    length l = (size (buckets mp)
                + (if clusterHasData mp
                      && (bool_decide (buckets mp = ∅)
                          || Cluster opts && bool_decide (buckets mp !! clusterName = None))
                   then 1 else 0))%nat).
  { intros l Hl. rewrite (Permutation_length Hl), length_app, length_map, length_map_to_list.
    by destruct (clusterHasData mp
                 && (bool_decide (buckets mp = ∅)
                     || Cluster opts && bool_decide (buckets mp !! clusterName = None))). }
  destruct (renderedSummaries opts mp) as [l|]; cbn [default from_option id] in Hperm;
    cbn [tableRows tableTotals totalCount totalHuman totalBytes].
  - split; [rewrite <- Hnone; done|]. split; [by intros H'; rewrite Htop; split|].
    split; [by rewrite Hperm|]. split; [by apply Hsize|]. by right.
  - split; [rewrite <- Hnone; done|]. split; [by intros H'; rewrite Htop; split|].
    split; [by rewrite <- Hperm|]. split; [by rewrite <- (Hsize [] Hperm)|]. by left.
Qed.

(** ** The reports and the order of the lines *)

Lemma NoDup_fmap_inj {A B : Type} (f : A → B) (l : list A) x y :
  NoDup (f <$> l) → x ∈ l → y ∈ l → f x = f y → x = y.
Proof.
  induction l as [|a l IH]; [by intros _ ?%elem_of_nil|].
  rewrite fmap_cons, NoDup_cons, !elem_of_cons.
  intros [Hna Hnd] [->|Hx] [->|Hy] Hf; try done.
  - destruct Hna. rewrite Hf. by apply list_elem_of_fmap_2.
  - destruct Hna. rewrite <- Hf. by apply list_elem_of_fmap_2.
  - by apply IH.
Qed.

Lemma sorted_by_size_unique (l1 l2 : list BucketSummary) :
  SortedBy bySizeDesc l1 → SortedBy bySizeDesc l2 → l1 ≡ₚ l2 →
  NoDup (map SizeBytes l1) → l1 = l2.
Proof.
  intros H1 H2 Hp Hnd. unfold SortedBy in *.
  apply (StronglySorted_unique_strong (λ a b, bySizeDesc b a = false)); try done.
  intros x1 x2 Hx1 Hx2 Ha Hb. rewrite <- Hp in Hx2.
  apply (NoDup_fmap_inj SizeBytes l1); try done.
  unfold bySizeDesc in Ha, Hb. apply Z.ltb_ge in Ha, Hb. lia.
Qed.

Lemma sumZ_map_erased (f : BucketSummary → Z) (l : list BucketSummary) :
  (∀ bs, f (withoutServers bs) = f bs) →
  map f (map withoutServers l) = map f l.
Proof. intros Hf. rewrite map_map. apply map_ext. intros bs. apply Hf. Qed.

Lemma SortedBy_sizes_strong (l : list BucketSummary) :
  SortedBy bySizeDesc l → StronglySorted (λ a b, b <= a) (map SizeBytes l).
Proof.
  intros Hs. unfold SortedBy in Hs.
  induction Hs as [|a l Hs IH Ha]; simpl; constructor; [done|].
  apply List.Forall_map. eapply Forall_impl; [exact Ha|].
  intros b Hb. simpl in Hb. unfold bySizeDesc in Hb. by apply Z.ltb_ge in Hb.
Qed.

(** Two sorted listings of the same records show the same sizes in the same
    places, whatever the order among records of one size. *)
Lemma sorted_sizes_unique (l1 l2 : list BucketSummary) :
  SortedBy bySizeDesc l1 → SortedBy bySizeDesc l2 →
  map SizeBytes l1 ≡ₚ map SizeBytes l2 → map SizeBytes l1 = map SizeBytes l2.
Proof.
  intros H1 H2 Hp.
  apply (StronglySorted_unique_strong (λ a b : Z, b <= a)); [|by apply SortedBy_sizes_strong..|done].
  intros x1 x2 _ _ Ha Hb. lia.
Qed.

(** Two aggregates that differ at most in the server lists of their
    records, each reported under a runtime of its own. *)
Section ErasedSummaries.
Variable H H' : GoRuntime.
Variable mp mp' : MetricParser.
Hypothesis Hwk : WellKeyed mp.
Hypothesis Hwk' : WellKeyed mp'.
Hypothesis Hco : ClusterObjects mp = ClusterObjects mp'.
Hypothesis Hcb : ClusterBytes mp = ClusterBytes mp'.
Hypothesis Hcv : ClusterVersionDist mp = ClusterVersionDist mp'.
Hypothesis Hcs : ClusterSizeDist mp = ClusterSizeDist mp'.
Hypothesis Hbuckets : withoutServers <$> buckets mp = withoutServers <$> buckets mp'.

Lemma erased_GetSummary (K K' : GoRuntime) :
  map withoutServers (@GetSummary K mp) ≡ₚ map withoutServers (@GetSummary K' mp').
Proof.
  assert (He : ∀ (R : GoRuntime) m,
            map withoutServers (@GetSummary R m)
            ≡ₚ map snd (map_to_list (withoutServers <$> buckets m))).
  { intros R m. rewrite (GetSummary_perm (H := R) m), map_to_list_fmap.
    rewrite !map_map. simpl. done. }
  by rewrite (He K mp), (He K' mp'), Hbuckets.
Qed.

Lemma erased_empty : buckets mp = ∅ ↔ buckets mp' = ∅.
Proof.
  rewrite <- (fmap_empty_iff withoutServers (buckets mp)).
  rewrite <- (fmap_empty_iff withoutServers (buckets mp')). by rewrite Hbuckets.
Qed.

Lemma erased_lookup b : buckets mp !! b = None ↔ buckets mp' !! b = None.
Proof.
  pose proof (f_equal (λ m, m !! b) Hbuckets) as Hl. simpl in Hl.
  rewrite !lookup_fmap in Hl.
  destruct (buckets mp !! b), (buckets mp' !! b); done.
Qed.

Lemma erased_cluster :
  clusterHasData mp = clusterHasData mp' ∧ clusterSummary mp = clusterSummary mp'.
Proof. unfold clusterHasData, clusterSummary. by rewrite Hco, Hcb, Hcv, Hcs. Qed.

Lemma erased_renderedSummaries opts :
  match @renderedSummaries H opts mp, @renderedSummaries H' opts mp' with
  | Some l, Some l' => map withoutServers l ≡ₚ map withoutServers l'
  | None, None => True
  | _, _ => False
  end.
Proof.
  destruct erased_cluster as [Hhas Hsum].
  destruct (decide (buckets mp = ∅)) as [He|Hne].
  - pose proof (proj1 erased_empty He) as He'.
    destruct (clusterHasData mp) eqn:Hc.
    + rewrite (renderedSummaries_fallback (H := H) opts mp He Hc).
      rewrite (renderedSummaries_fallback (H := H') opts mp' He' ltac:(by rewrite <- Hhas)).
      by rewrite Hsum.
    + unfold renderedSummaries, orClusterFallback.
      rewrite (GetSummary_empty (H := within 0 H) mp He).
      rewrite (GetSummary_empty (H := within 0 H') mp' He'), <- Hhas, Hc. done.
  - assert (Hne' : buckets mp' ≠ ∅) by (by rewrite <- erased_empty).
    unfold renderedSummaries, orClusterFallback.
    assert (Hz : ∀ (R : GoRuntime) m,
              buckets m ≠ ∅ → (length (@GetSummary R m) =? 0)%nat = false).
    { intros R m Hm. apply Nat.eqb_neq. rewrite GetSummary_length.
      by rewrite map_size_empty_iff. }
    rewrite (Hz _ mp Hne), (Hz _ mp' Hne'). unfold withRequestedCluster.
    rewrite <- Hhas, <- Hsum.
    pose proof (erased_GetSummary (within 0 H) (within 0 H')) as Hg.
    destruct (Cluster opts && clusterHasData mp); [|exact Hg].
    rewrite (named_aggregate mp _ Hwk (GetSummary_perm (H := within 0 H) mp)).
    rewrite (named_aggregate mp' _ Hwk' (GetSummary_perm (H := within 0 H') mp')).
    assert (Hl : bool_decide (buckets mp !! clusterName = None)
                 = bool_decide (buckets mp' !! clusterName = None)).
    { apply bool_decide_ext, erased_lookup. }
    rewrite <- Hl.
    destruct (bool_decide (buckets mp !! clusterName = None)); cbn [negb];
      [|exact Hg].
    rewrite !sortSlice_perm, !map_app. by rewrite Hg.
Qed.

(** The two reports: the same rows up to their order, the same totals, the
    same sizes in the same places, and the same reports altogether when no
    two rows have the same size. *)
Lemma erased_reports opts n :
  tableRows (@PrintSummaryTable H mp opts) ≡ₚ tableRows (@PrintSummaryTable H' mp' opts)
  ∧ tableTotals (@PrintSummaryTable H mp opts) = tableTotals (@PrintSummaryTable H' mp' opts)
  ∧ map rowBytes (tableRows (@PrintSummaryTable H mp opts))
    = map rowBytes (tableRows (@PrintSummaryTable H' mp' opts))
  ∧ map topBytes (topEntries (@PrintTopBuckets H mp n opts))
    = map topBytes (topEntries (@PrintTopBuckets H' mp' n opts))
  ∧ (NoDup (map rowBytes (tableRows (@PrintSummaryTable H mp opts))) →
     @PrintSummaryTable H mp opts = @PrintSummaryTable H' mp' opts
     ∧ @PrintTopBuckets H mp n opts = @PrintTopBuckets H' mp' n opts).
Proof.
  pose proof (erased_renderedSummaries opts) as Hr.
  pose proof (renderedSummaries_sorted (H := H) opts mp) as Hs.
  pose proof (renderedSummaries_sorted (H := H') opts mp') as Hs'.
  assert (Hempty : bool_decide (buckets mp = ∅) = bool_decide (buckets mp' = ∅)).
  { apply bool_decide_ext. by apply erased_empty. }
  rewrite !PrintTopBuckets_entries, !PrintSummaryTable_unfold.
  unfold PrintTopBuckets. rewrite <- Hempty.
  destruct (@renderedSummaries H opts mp) as [l|],
    (@renderedSummaries H' opts mp') as [l'|]; try done.
  cbn [tableRows tableTotals default from_option id].
  assert (Hrow : ∀ (R : GoRuntime) l0,
            map (@renderRow R opts) l0 = map (@renderRow H opts) (map withoutServers l0)).
  { intros R l0. rewrite map_map. apply map_ext. intros bs.
    by rewrite (renderRow_runtime R H). }
  assert (Hsum : ∀ f : BucketSummary → Z, (∀ bs, f (withoutServers bs) = f bs) →
            map f l ≡ₚ map f l').
  { intros f Hf. rewrite <- (sumZ_map_erased f l Hf), <- (sumZ_map_erased f l' Hf).
    by apply Permutation_map. }
  assert (Hlen : length l = length l').
  { apply Permutation_length in Hr. by rewrite !length_map in Hr. }
  assert (Hsizes : map SizeBytes l = map SizeBytes l').
  { apply sorted_sizes_unique; [by apply Hs|by apply Hs'|by apply Hsum]. }
  split; [by rewrite (Hrow H l), (Hrow H' l'), Hr|]. split.
  { by rewrite Hlen, (sumZ_perm _ _ (Hsum ObjectCount ltac:(done))), Hsizes. }
  split; [by rewrite !map_map|]. split; [by rewrite Hsizes|].
  intros Hnd. rewrite map_map in Hnd. simpl in Hnd.
  assert (Heq : map withoutServers l = map withoutServers l').
  { apply sorted_by_size_unique; try done.
    - apply (StronglySorted_fmap withoutServers (λ a b, bySizeDesc b a = false));
        [done|by apply Hs].
    - apply (StronglySorted_fmap withoutServers (λ a b, bySizeDesc b a = false));
        [done|by apply Hs'].
    - by rewrite map_map. }
  split.
  - by rewrite (Hrow H l), (Hrow H' l'), Heq, Hlen,
         (sumZ_perm _ _ (Hsum ObjectCount ltac:(done))), Hsizes.
  - rewrite Hlen. f_equal.
    set (k := Z.to_nat (if Z.of_nat (length l') <? n then Z.of_nat (length l') else n)).
    assert (Htop : ∀ (R : GoRuntime) l0,
              imap (@renderTop R opts) (take k l0)
              = imap (@renderTop H opts) (take k (map withoutServers l0))).
    { intros R l0. rewrite <- fmap_take, imap_fmap. apply imap_ext.
      intros i bs _. by rewrite (renderTop_runtime R H). }
    by rewrite (Htop H l), (Htop H' l'), Heq.
Qed.

End ErasedSummaries.

(** X18. The reports do not depend on the order of the lines of the file.  For
    two files with the same lines, read in two runs with map loops of their
    own, the summary tables have the same rows, up to their order, and the
    same totals row; and when no two rows have the same size in bytes, so
    that the sort leaves no choice, the two tables are equal and so are the
    two top-N views. *)
Theorem reports_order_independent (H H' : GoRuntime) (lines lines' : list string)
    (opts : DisplayOptions) (n : Z) :
  lines ≡ₚ lines' →
  let out := @PrintSummaryTable H (parseLines lines) opts in
  let out' := @PrintSummaryTable H' (parseLines lines') opts in
  tableRows out ≡ₚ tableRows out'
  ∧ tableTotals out = tableTotals out'
  ∧ (NoDup (map rowBytes (tableRows out)) →
     out = out'
     ∧ @PrintTopBuckets H (parseLines lines) n opts
       = @PrintTopBuckets H' (parseLines lines') n opts).
Proof.
  intros Hp. cbv zeta.
  destruct (aggregate_same lines lines') as (Hco & Hcb & Hcv & Hcs & Hb);
    [by intros p; apply sumOver_perm|by intros e; apply existsb_perm|].
  destruct (erased_reports H H' _ _ (WellKeyed_parseLines lines)
              (WellKeyed_parseLines lines') Hco Hcb Hcv Hcs Hb opts n)
    as (Hrows & Htot & _ & _ & Heq).
  done.
Qed.

Lemma reports_order_independent_witness :
  PrintSummaryTable (parseLines (rev repeatedServers)) plainOptions
  = PrintSummaryTable (parseLines repeatedServers) plainOptions
  ∧ PrintTopBuckets (parseLines (rev repeatedServers)) 1 plainOptions
    = PrintTopBuckets (parseLines repeatedServers) 1 plainOptions.
Proof.
  refine (proj2 (proj2 (reports_order_independent insertionRuntime insertionRuntime
                          (rev repeatedServers) repeatedServers plainOptions 1 _)) _).
  - symmetry. apply Permutation_rev.
  - apply (bool_decide_unpack _). by vm_compute.
Defined.

(** ** A line with an unparseable value *)

Lemma Malformed_value raw : Malformed raw → lineValue raw = 0.
Proof.
  intros (tok & Htok & Hi & Hf). unfold lineValue, extractValue. rewrite Htok.
  destruct (ParseInt tok) as [v [e|]]; [|done].
  destruct (ParseFloat tok) as [f [e'|]]; done.
Qed.

Lemma sumOver_without p pre bad post :
  lineValue bad = 0 → sumOver p (pre ++ bad :: post) = sumOver p (pre ++ post).
Proof.
  intros Hbad. unfold sumOver. rewrite !List.filter_app, !map_app. simpl.
  destruct (p bad); [|done]. simpl.
  unfold sumZ. rewrite !foldr_app. simpl. by rewrite Hbad.
Qed.

Lemma bucketCounter_empty_name (g : BucketSummary → Z) lines :
  from_option g 0 (buckets (parseLines lines) !! "") = 0.
Proof.
  destruct (buckets (parseLines lines) !! "") as [bs|] eqn:E; [|done].
  by destruct (WellKeyed_parseLines lines "" bs E) as (Hne & _).
Qed.

(** The rows of the table, read through [f], are the records of the
    aggregate in some order, with the cluster's where it stands in. *)
Lemma tableRows_perm `{H : !GoRuntime} {A : Type} (f : TableRow → A) (g : BucketSummary → A)
    (lines : list string) (opts : DisplayOptions) :
  (∀ bucket, f (renderRow opts bucket) = g bucket) →
  let mp := parseLines lines in
  map f (tableRows (PrintSummaryTable mp opts))
  ≡ₚ map g (map snd (map_to_list (buckets mp))
            ++ (if clusterHasData mp
                   && (bool_decide (buckets mp = ∅)
                       || Cluster opts && bool_decide (buckets mp !! clusterName = None))
                then [clusterSummary mp] else []))%list.
Proof.
  intros Hfg mp. rewrite PrintSummaryTable_rows, map_map.
  rewrite (map_ext _ g Hfg).
  apply Permutation_map, renderedSummaries_perm, WellKeyed_parseLines.
Qed.

(** C9, as the code has it. A line whose value parses neither as an integer
    nor as a float never makes the parse fail and adds nothing to any counter:
    the cluster totals, every bucket's ObjectCount and SizeBytes, and every
    count of every distribution (a missing key read as zero) are those of the
    input without the line, and every bucket of that input is still there.
    What the line does leave are its entries: the record of its bucket, the
    rendering of that bucket's size, a range key with a zero count (and its
    server label, which no report prints).  The aggregate has the entries of
    the input without the line and those of the line, and apart from the
    server lists it is the aggregate of the input without the line exactly
    when every entry of the line is the entry of another line too.  The
    reports are then those of the input without the line: under any two
    orders of the map loops the two tables have the same rows up to their
    order, the same totals and the same sizes in the same places, as have
    the two top-N views, and when no two rows have the same size in bytes
    the tables are equal and so are the top-N views. *)
Theorem malformed_line_adds_nothing (pre post : list string) (bad : string) :
  Malformed bad →
  let withBad := parseLines (pre ++ bad :: post) in
  let without := parseLines (pre ++ post) in
  snd (ParseFile NewMetricParser (Scanned (pre ++ bad :: post) false)) = None
  ∧ ClusterObjects withBad = ClusterObjects without
  ∧ ClusterBytes withBad = ClusterBytes without
  ∧ (∀ k, clusterVersions k withBad = clusterVersions k without)
  ∧ (∀ k, clusterSizes k withBad = clusterSizes k without)
  ∧ (∀ b, bucketObjects b withBad = bucketObjects b without)
  ∧ (∀ b, bucketBytes b withBad = bucketBytes b without)
  ∧ (∀ b k, bucketVersions b k withBad = bucketVersions b k without)
  ∧ (∀ b k, bucketSizes b k withBad = bucketSizes b k without)
  ∧ (∀ b, is_Some (buckets without !! b) → is_Some (buckets withBad !! b))
  ∧ (∀ e, present e withBad = present e without || adds e bad)
  ∧ (covered (pre ++ post) bad = true
     ↔ ClusterVersionDist withBad = ClusterVersionDist without
       ∧ ClusterSizeDist withBad = ClusterSizeDist without
       ∧ withoutServers <$> buckets withBad = withoutServers <$> buckets without)
  ∧ (covered (pre ++ post) bad = true →
     ∀ (H H' : GoRuntime) (opts : DisplayOptions) (n : Z),
       let out := @PrintSummaryTable H withBad opts in
       let out' := @PrintSummaryTable H' without opts in
       let top := @PrintTopBuckets H withBad n opts in
       let top' := @PrintTopBuckets H' without n opts in
       tableRows out ≡ₚ tableRows out'
       ∧ tableTotals out = tableTotals out'
       ∧ map rowBytes (tableRows out) = map rowBytes (tableRows out')
       ∧ map topBytes (topEntries top) = map topBytes (topEntries top')
       ∧ (NoDup (map rowBytes (tableRows out)) → out = out' ∧ top = top')).
Proof.
  intros Hbad. cbv zeta. apply Malformed_value in Hbad.
  assert (Hpresent : ∀ e, present e (parseLines (pre ++ bad :: post))
                          = present e (parseLines (pre ++ post)) || adds e bad).
  { intros e. by rewrite !present_parseLines, existsb_without. }
  assert (Hsame : covered (pre ++ post) bad = true →
            ClusterObjects (parseLines (pre ++ bad :: post))
            = ClusterObjects (parseLines (pre ++ post))
            ∧ ClusterBytes (parseLines (pre ++ bad :: post))
              = ClusterBytes (parseLines (pre ++ post))
            ∧ ClusterVersionDist (parseLines (pre ++ bad :: post))
              = ClusterVersionDist (parseLines (pre ++ post))
            ∧ ClusterSizeDist (parseLines (pre ++ bad :: post))
              = ClusterSizeDist (parseLines (pre ++ post))
            ∧ withoutServers <$> buckets (parseLines (pre ++ bad :: post))
              = withoutServers <$> buckets (parseLines (pre ++ post))).
  { intros Hc. apply aggregate_same.
    - intros p. by apply sumOver_without.
    - intros e. rewrite existsb_without.
      destruct (adds e bad) eqn:He; [|by rewrite orb_false_r].
      by rewrite (proj1 (covered_spec _ _) Hc e He). }
  split; [done|].
  split; [by rewrite !ClusterObjects_sum, sumOver_without|].
  split; [by rewrite !ClusterBytes_sum, sumOver_without|].
  split; [by intros k; rewrite !clusterVersions_sum, sumOver_without|].
  split; [by intros k; rewrite !clusterSizes_sum, sumOver_without|].
  split.
  { intros b. destruct (decide (b = "")) as [->|Hb].
    - unfold bucketObjects. by rewrite !bucketCounter_empty_name.
    - by rewrite !bucketObjects_sum, sumOver_without. }
  split.
  { intros b. destruct (decide (b = "")) as [->|Hb].
    - unfold bucketBytes. by rewrite !bucketCounter_empty_name.
    - by rewrite !bucketBytes_sum, sumOver_without. }
  split.
  { intros b k. destruct (decide (b = "")) as [->|Hb].
    - unfold bucketVersions. by rewrite !bucketCounter_empty_name.
    - by rewrite !bucketVersions_sum, sumOver_without. }
  split.
  { intros b k. destruct (decide (b = "")) as [->|Hb].
    - unfold bucketSizes. by rewrite !bucketCounter_empty_name.
    - by rewrite !bucketSizes_sum, sumOver_without. }
  split.
  { intros b. rewrite <- !not_eq_None_Some, !parseLines_lookup_None.
    intros Hsome Hall. apply Hsome.
    apply Forall_app in Hall as [Hpre Hpost]. apply Forall_cons in Hpost as [_ Hpost].
    apply Forall_app. by split. }
  split; [exact Hpresent|].
  split.
  { split.
    - intros Hc. by destruct (Hsame Hc) as (_ & _ & Hcv & Hcs & Hb).
    - intros (Hcv & Hcs & Hb). apply covered_spec. intros e He.
      rewrite <- present_parseLines, <- (present_erased _ _ e Hcv Hcs Hb).
      by rewrite Hpresent, He, orb_true_r. }
  intros Hc H H' opts n.
  destruct (Hsame Hc) as (Hco & Hcb & Hcv & Hcs & Hb).
  exact (erased_reports H H' _ _ (WellKeyed_parseLines _) (WellKeyed_parseLines _)
           Hco Hcb Hcv Hcs Hb opts n).
Qed.

Lemma malformedRepeat_Malformed : Malformed malformedRepeat.
Proof. exists "abc". repeat split; vm_compute; discriminate. Qed.

Lemma malformed_line_adds_nothing_witness :
  covered ([validLine] ++ []) malformedRepeat = true
  ∧ @PrintSummaryTable insertionRuntime
      (parseLines ([validLine] ++ malformedRepeat :: [])) plainOptions
    = @PrintSummaryTable (reversedAt (λ _, true) insertionRuntime)
        (parseLines ([validLine] ++ [])) plainOptions
  ∧ @PrintTopBuckets insertionRuntime
      (parseLines ([validLine] ++ malformedRepeat :: [])) 1 plainOptions
    = @PrintTopBuckets (reversedAt (λ _, true) insertionRuntime)
        (parseLines ([validLine] ++ [])) 1 plainOptions.
Proof.
  split; [reflexivity|].
  pose proof (malformed_line_adds_nothing [validLine] [] malformedRepeat
                malformedRepeat_Malformed) as Hm.
  cbv zeta in Hm. destruct Hm as (_ & _ & _ & _ & _ & _ & _ & _ & _ & _ & _ & _ & Hreports).
  destruct (Hreports eq_refl insertionRuntime (reversedAt (λ _, true) insertionRuntime)
              plainOptions 1) as (_ & _ & _ & _ & Heq).
  apply Heq. apply (bool_decide_unpack _). by vm_compute.
Defined.

Lemma malformedLine_Malformed : Malformed malformedLine.
Proof. exists "abc". repeat split; vm_compute; discriminate. Qed.

Lemma malformedSize_Malformed : Malformed malformedSize.
Proof. exists "abc". repeat split; vm_compute; discriminate. Qed.

(** C9, as stated, fails.  The malformed line still creates the record of
    its bucket, and the table gains a row, in whatever order the rows of
    one size are printed; and a malformed line of the size family has the
    size of its bucket rendered, so that the row of a bucket without any
    other size line reads 0 B where it was blank. *)
Lemma malformed_line_changes_report :
  snd (ParseInt "abc") = Some ErrSyntax
  ∧ snd (ParseFloat "abc") = Some ErrSyntax
  ∧ Malformed malformedLine
  ∧ Malformed malformedSize
  ∧ (∀ H : GoRuntime,
       map rowName
         (tableRows (@PrintSummaryTable H (parseLines [validLine; malformedLine; validLine])
                       plainOptions))
       ≡ₚ ["a"; "b"])
  ∧ (∀ H : GoRuntime,
       map rowName
         (tableRows (@PrintSummaryTable H (parseLines [validLine; validLine]) plainOptions))
       = ["a"])
  ∧ (∀ H : GoRuntime,
       map rowHuman
         (tableRows (@PrintSummaryTable H (parseLines [validLine; malformedSize; validLine])
                       plainOptions))
       = ["0 B"])
  ∧ (∀ H : GoRuntime,
       map rowHuman
         (tableRows (@PrintSummaryTable H (parseLines [validLine; validLine]) plainOptions))
       = [""]).
Proof.
  split; [by vm_compute|]. split; [by vm_compute|].
  split; [exact malformedLine_Malformed|]. split; [exact malformedSize_Malformed|].
  split; [|split; [|split]]; intros H.
  - etrans; [by apply (tableRows_perm rowName (λ bs, displayName (Name bs)))|].
    vm_compute. reflexivity.
  - apply Permutation_singleton_r.
    etrans; [by apply (tableRows_perm rowName (λ bs, displayName (Name bs)))|].
    vm_compute. reflexivity.
  - apply Permutation_singleton_r.
    etrans; [by apply (tableRows_perm rowHuman SizeHuman)|].
    vm_compute. reflexivity.
  - apply Permutation_singleton_r.
    etrans; [by apply (tableRows_perm rowHuman SizeHuman)|].
    vm_compute. reflexivity.
Qed.

(** ** The table and the top-N view *)

(** What a view goes on to print is, under any two runtimes, the same
    summaries up to their order. *)
Lemma renderedSummaries_runtime (H H' : GoRuntime) opts mp :
  match @renderedSummaries H opts mp, @renderedSummaries H' opts mp with
  | Some l, Some l' => l ≡ₚ l'
  | None, None => True
  | _, _ => False
  end.
Proof.
  unfold renderedSummaries, orClusterFallback.
  assert (Hg : @GetSummary (within 0 H) mp ≡ₚ @GetSummary (within 0 H') mp).
  { by rewrite !GetSummary_perm. }
  rewrite <- (Permutation_length Hg).
  assert (Hw : ∀ l l', l ≡ₚ l' →
            @withRequestedCluster H opts mp l ≡ₚ @withRequestedCluster H' opts mp l').
  { intros l l' Hl. unfold withRequestedCluster.
    destruct (Cluster opts && clusterHasData mp); [|done].
    rewrite (existsb_perm _ l l' Hl).
    destruct (existsb _ l'); [done|]. by rewrite !sortSlice_perm, Hl. }
  destruct (length (@GetSummary (within 0 H) mp) =? 0)%nat.
  - destruct (clusterHasData mp); [|done]. apply Hw. by rewrite Hg.
  - by apply Hw.
Qed.

Lemma imap_renderTop (H : GoRuntime) opts (l : list BucketSummary) :
  map topName (imap (@renderTop H opts) l) = map Name l
  ∧ map topBytes (imap (@renderTop H opts) l) = map SizeBytes l
  ∧ map topRank (imap (@renderTop H opts) l) = seq 1 (length l).
Proof.
  assert (Hk : ∀ k,
    map topName (imap (λ i, @renderTop H opts (k + i)) l) = map Name l
    ∧ map topBytes (imap (λ i, @renderTop H opts (k + i)) l) = map SizeBytes l
    ∧ map topRank (imap (λ i, @renderTop H opts (k + i)) l) = seq (S k) (length l)).
  { induction l as [|x l IH]; intros k; simpl; [done|].
    destruct (IH (S k)) as (H1 & H2 & H3).
    assert (He : imap ((λ i, @renderTop H opts (k + i)) ∘ S) l
                 = imap (λ i, @renderTop H opts (S k + i)) l).
    { apply imap_ext. intros i y _. simpl. f_equal. lia. }
    rewrite He, H1, H2, H3. rewrite Nat.add_0_r. done. }
  exact (Hk 0%nat).
Qed.

(** X9. The top-N view against the table, each printed from a call of
    [GetSummary] of its own.  The view lists as many entries as the table
    has rows, and N of them when the table has more (none for a negative
    N), ranked from 1.  Their sizes are the first N sizes of the table and
    every entry is a row of the table; when no two rows have the same
    size, the entries are the first N rows of the table, in its order.
    Rows of one size can come in another order in the view than in the
    table: in one run of [main], of two buckets of 7 bytes the table lists
    a before b while the view of the largest bucket shows b. *)
Theorem top_buckets_clipped (H H' : GoRuntime) (mp : MetricParser) (n : Z)
    (opts : DisplayOptions) :
  let top := topEntries (@PrintTopBuckets H mp n opts) in
  let rows := tableRows (@PrintSummaryTable H' mp opts) in
  length top = Nat.min (Z.to_nat n) (length rows)
  ∧ map topRank top = seq 1 (length top)
  ∧ map topBytes top = take (Z.to_nat n) (map rowBytes rows)
  ∧ map (λ e, displayName (topName e)) top ⊆+ map rowName rows
  ∧ (NoDup (map rowBytes rows) →
     map (λ e, displayName (topName e)) top = take (Z.to_nat n) (map rowName rows))
  ∧ ∃ table view,
      @main (reversedAt inSecondCall insertionRuntime) ["metrics.txt"; "1"]
        (λ _, Scanned tiedBuckets false) = Reports "metrics.txt" table view
      ∧ map rowName (tableRows table) = ["a"; "b"]
      ∧ map rowBytes (tableRows table) = [7; 7]
      ∧ map topName (topEntries view) = ["b"].
Proof.
  cbv zeta.
  assert (Htie : ∃ table view,
      @main (reversedAt inSecondCall insertionRuntime) ["metrics.txt"; "1"]
        (λ _, Scanned tiedBuckets false) = Reports "metrics.txt" table view
      ∧ map rowName (tableRows table) = ["a"; "b"]
      ∧ map rowBytes (tableRows table) = [7; 7]
      ∧ map topName (topEntries view) = ["b"]).
  { do 2 eexists. split; [by vm_compute|]. by vm_compute. }
  pose proof (renderedSummaries_runtime H H' opts mp) as Hr.
  pose proof (renderedSummaries_sorted (H := H) opts mp) as Hs.
  pose proof (renderedSummaries_sorted (H := H') opts mp) as Hs'.
  rewrite (PrintSummaryTable_rows (H := H') mp opts).
  unfold PrintTopBuckets.
  destruct (@renderedSummaries H opts mp) as [l|], (@renderedSummaries H' opts mp) as [l'|];
    try done; cbn [topEntries default from_option id].
  2:{ cbn [map length]. rewrite !take_nil, Nat.min_0_r. done. }
  set (n1 := if Z.of_nat (length l) <? n then Z.of_nat (length l) else n).
  assert (Hn : take (Z.to_nat n1) l = take (Z.to_nat n) l).
  { subst n1. destruct (Z.ltb_spec (Z.of_nat (length l)) n); [|done].
    rewrite Nat2Z.id, firstn_all. symmetry. apply firstn_all2. lia. }
  rewrite Hn.
  destruct (imap_renderTop H opts (take (Z.to_nat n) l)) as (Hname & Hbytes & Hrank).
  assert (Hsizes : map SizeBytes l = map SizeBytes l').
  { apply sorted_sizes_unique; [by apply Hs|by apply Hs'|by apply Permutation_map]. }
  assert (Hnames : map (λ e, displayName (topName e)) (imap (@renderTop H opts) (take (Z.to_nat n) l))
                   = map displayName (map Name (take (Z.to_nat n) l))).
  { by rewrite <- Hname, map_map. }
  assert (Hrows : ∀ f : TableRow → Z, True) by done. clear Hrows.
  rewrite !map_map. cbn [renderRow rowBytes rowName].
  rewrite length_imap, length_map, length_take, <- (Permutation_length Hr).
  split; [done|]. split; [by rewrite Hrank, length_take|].
  split; [by rewrite Hbytes, <- firstn_map, Hsizes|].
  split.
  { rewrite Hnames, map_map.
    transitivity (map (λ x, displayName (Name x)) l).
    - apply fmap_submseteq, sublist_submseteq, sublist_take.
    - apply Permutation_submseteq. by apply Permutation_map. }
  split; [|exact Htie].
  intros Hnd.
  assert (Heq : l = l').
  { apply sorted_by_size_unique; [by apply Hs|by apply Hs'|done|by rewrite Hsizes]. }
  by rewrite Hnames, map_map, Heq, <- firstn_map.
Qed.

(** ** Label extraction *)

Lemma stripPrefix_spec p s rest : stripPrefix p s = Some rest ↔ s = (p ++ rest)%string.
Proof.
  revert s. induction p as [|a p IH]; intros s; simpl.
  - split; [by intros [= ->]|by intros ->].
  - destruct s as [|b s]; [done|].
    destruct (Ascii.eqb_spec a b) as [->|Hne].
    + rewrite IH. split; [by intros ->|by intros [= ->]].
    + split; [done|]. intros [= -> _]. done.
Qed.

Lemma untilQuote_sound s : ∀ v,
  untilQuote s = Some v → noQuote v = true ∧ ∃ post, s = (v ++ String dquote post)%string.
Proof.
  induction s as [|c s IH]; intros v; simpl; [done|].
  destruct (Ascii.eqb_spec c dquote) as [->|Hne].
  - intros [= <-]. split; [done|]. by exists s.
  - destruct (untilQuote s) as [w|]; [|done]. simpl. intros [= <-].
    destruct (IH w eq_refl) as [Hq [post ->]]. split.
    + simpl. by rewrite (proj2 (Ascii.eqb_neq c dquote) Hne).
    + by exists post.
Qed.

Lemma untilQuote_complete v post :
  noQuote v = true → untilQuote (v ++ String dquote post) = Some v.
Proof.
  induction v as [|c v IH]; simpl.
  - intros _. reflexivity.
  - intros [Hc Hq]%andb_true_iff. apply negb_true_iff in Hc. by rewrite Hc, IH.
Qed.

Lemma untilQuote_spec s v :
  untilQuote s = Some v ↔ noQuote v = true ∧ ∃ post, s = (v ++ String dquote post)%string.
Proof.
  split; [apply untilQuote_sound|]. intros [Hq [post ->]]. by apply untilQuote_complete.
Qed.

Lemma matchLabelAt_spec key s v :
  matchLabelAt key s = Some v
  ↔ v ≠ "" ∧ noQuote v = true
    ∧ ∃ post, s = (labelOpening key ++ v ++ String dquote post)%string.
Proof.
  unfold matchLabelAt. fold (labelOpening key).
  destruct (stripPrefix (labelOpening key) s) as [rest|] eqn:Hp.
  - apply stripPrefix_spec in Hp as ->.
    destruct (untilQuote rest) as [w|] eqn:Hw.
    + destruct (proj1 (untilQuote_spec rest w) Hw) as [Hq [post ->]].
      destruct (String.eqb_spec w "") as [->|Hne].
      * split; [done|]. intros (Hv & Hqv & post' & H).
        apply (f_equal (stripPrefix (labelOpening key))) in H.
        rewrite !(proj2 (stripPrefix_spec _ _ _) eq_refl) in H. injection H as H.
        destruct v; [done|]. simpl in Hqv. injection H as <- _.
        by rewrite Ascii.eqb_refl in Hqv.
      * split.
        -- intros [= <-]. split; [done|]. split; [done|]. by exists post.
        -- intros (Hv & Hqv & post' & H).
           apply (f_equal (stripPrefix (labelOpening key))) in H.
           rewrite !(proj2 (stripPrefix_spec _ _ _) eq_refl) in H. injection H as H.
           assert (Hsome : untilQuote (w ++ String dquote post) = Some v).
           { apply untilQuote_spec. split; [done|]. by exists post'. }
           congruence.
    + split; [done|]. intros (Hv & Hqv & post' & H).
      apply (f_equal (stripPrefix (labelOpening key))) in H.
      rewrite !(proj2 (stripPrefix_spec _ _ _) eq_refl) in H. injection H as H.
      assert (Hsome : untilQuote rest = Some v).
      { apply untilQuote_spec. split; [done|]. by exists post'. }
      congruence.
  - split; [done|]. intros (Hv & Hqv & post' & H).
    assert (Hsome : stripPrefix (labelOpening key) s = Some (v ++ String dquote post')%string).
    { by apply stripPrefix_spec. }
    congruence.
Qed.

Lemma findLabel_sound key s v :
  findLabel key s = Some v →
  v ≠ "" ∧ noQuote v = true
  ∧ ∃ pre post, s = (pre ++ labelOpening key ++ v ++ String dquote post)%string.
Proof.
  induction s as [|c s IH]; cbn [findLabel].
  - destruct (matchLabelAt key "") as [w|] eqn:Hm; [|done].
    intros [= ->]. apply matchLabelAt_spec in Hm as (Hv & Hq & post & H).
    split; [done|]. split; [done|]. by exists "", post.
  - destruct (matchLabelAt key (String c s)) as [w|] eqn:Hm.
    + intros [= ->]. apply matchLabelAt_spec in Hm as (Hv & Hq & post & H).
      split; [done|]. split; [done|]. by exists "", post.
    + intros Hf. destruct (IH Hf) as (Hv & Hq & pre & post & ->).
      split; [done|]. split; [done|]. by exists (String c pre), post.
Qed.

Lemma isPrefix_spec p s : isPrefix p s = true ↔ ∃ rest, s = (p ++ rest)%string.
Proof.
  revert s. induction p as [|a p IH]; intros s; simpl.
  - split; [by exists s|done].
  - destruct s as [|b s]; [split; [done|by intros [? ?]]|].
    rewrite andb_true_iff, IH. split.
    + intros [->%Ascii.eqb_eq [rest ->]]. by exists rest.
    + intros [rest [= -> ->]]. split; [apply Ascii.eqb_refl|by exists rest].
Qed.

Lemma isPrefix_shorter p a b :
  isPrefix p (a ++ b)%string = true → (String.length p <= String.length a)%nat →
  isPrefix p a = true.
Proof.
  revert a. induction p as [|x p IH]; intros a; [done|].
  destruct a as [|y a]; simpl; [lia|].
  rewrite !andb_true_iff. intros [Hxy Hp] Hlen. split; [done|]. apply IH; [done|lia].
Qed.

Lemma findLabel_first key pre v post :
  v ≠ "" → noQuote v = true →
  Contains (pre ++ key ++ "=") (labelOpening key) = false →
  findLabel key (pre ++ labelOpening key ++ v ++ String dquote post) = Some v.
Proof.
  intros Hv Hq. induction pre as [|c pre IH]; intros Hfirst.
  - change ("" ++ ?x)%string with x.
    assert (Hm : matchLabelAt key (labelOpening key ++ v ++ String dquote post) = Some v).
    { apply matchLabelAt_spec. split; [done|]. split; [done|]. by exists post. }
    destruct (labelOpening key ++ v ++ String dquote post)%string; simpl; by rewrite Hm.
  - rewrite string_app_cons in *. cbn [Contains] in Hfirst.
    apply orb_false_iff in Hfirst as [Hhere Hlater].
    cbn [findLabel].
    destruct (matchLabelAt key (String c (pre ++ labelOpening key ++ v ++ String dquote post)))
      as [w|] eqn:Hm; [|by apply IH].
    exfalso. apply matchLabelAt_spec in Hm as (_ & _ & post' & Hm).
    assert (Hp : isPrefix (labelOpening key)
                   (String c (pre ++ key ++ "=")
                    ++ String dquote (v ++ String dquote post)) = true).
    { apply isPrefix_spec. exists (w ++ String dquote post')%string.
      rewrite <- Hm. rewrite string_app_cons. f_equal.
      unfold labelOpening. by rewrite !string_app_assoc. }
    apply isPrefix_shorter in Hp; [congruence|].
    unfold labelOpening. simpl. rewrite !string_length_app. simpl. lia.
Qed.



(** ** Lines with a bucket label always register *)

Lemma findLabel_absent key s :
  Contains s (labelOpening key) = false → findLabel key s = None.
Proof.
  induction s as [|c s IH]; cbn [findLabel Contains]; intros [Hp Hc]%orb_false_iff.
  - destruct (matchLabelAt key "") as [w|] eqn:Hm; [|done].
    apply matchLabelAt_spec in Hm as (_ & _ & post & Hm).
    assert (isPrefix (labelOpening key) "" = true); [|congruence].
    apply isPrefix_spec. by eexists.
  - destruct (matchLabelAt key (String c s)) as [w|] eqn:Hm; [|by apply IH].
    apply matchLabelAt_spec in Hm as (_ & _ & post & Hm).
    assert (isPrefix (labelOpening key) (String c s) = true); [|congruence].
    apply isPrefix_spec. by eexists.
Qed.

Lemma extractLabel_text key pre v post :
  v ≠ "" → noQuote v = true →
  Contains (pre ++ key ++ "=") (labelOpening key) = false →
  extractLabel key (pre ++ label key v ++ post) = v.
Proof.
  intros Hv Hq Hfirst. unfold extractLabel.
  replace (label key v ++ post)%string
    with (labelOpening key ++ v ++ String dquote post)%string.
  - by rewrite findLabel_first.
  - unfold label, labelOpening.
    by rewrite !string_app_assoc, !string_app_cons, !string_app_assoc.
Qed.

(** C10. A line that is neither a comment nor blank and carries a bucket
    label leaves, after the parse, a record under that bucket name whose
    server list holds the line's server label exactly once, whether or not
    the line matches a metric family.  The server label is read from the
    text of the line: the value, not empty, of the first server label that
    the line spells out is in the list, and the empty string is in the
    list when the line spells out no server label; the bucket name is
    read in the same way.  In the loop body the label is appended to the
    list unless it is there. *)
Theorem bucket_line_registers_server (lines : list string) (raw line : string) :
  raw ∈ lines → dataLine raw = Some line → extractBucketName line ≠ "" →
  (∃ bs, buckets (parseLines lines) !! extractBucketName line = Some bs
         ∧ Name bs = extractBucketName line
         ∧ extractServerName line ∈ Servers bs
         ∧ NoDup (Servers bs)
         ∧ (∀ pre s post,
              line = (pre ++ label "server" s ++ post)%string →
              s ≠ "" → noQuote s = true →
              Contains (pre ++ "server=") (labelOpening "server") = false →
              s ∈ Servers bs)
         ∧ (Contains line (labelOpening "server") = false → "" ∈ Servers bs))
  ∧ (∀ pre b post,
       line = (pre ++ label "bucket" b ++ post)%string →
       b ≠ "" → noQuote b = true →
       Contains (pre ++ "bucket=") (labelOpening "bucket") = false →
       extractBucketName line = b)
  ∧ (findLabel "server" line = None → extractServerName line = "")
  ∧ (extractServerName line = ""
     ∨ ∃ pre post, line = (pre ++ label "server" (extractServerName line) ++ post)%string)
  ∧ (∀ mp, ∃ bs, buckets (parseLine mp raw) !! extractBucketName line = Some bs
        ∧ Servers bs =
            let old := from_option Servers [] (buckets mp !! extractBucketName line) in
            if bool_decide (extractServerName line ∈ old) then old
            else (old ++ [extractServerName line])%list).
Proof.
  intros Hin Hd Hne. split; [|split; [|split; [|split]]].
  - apply list_elem_of_In, in_split in Hin as (pre & post & ->).
    unfold parseLines. simpl. rewrite fold_left_app. simpl.
    set (mp := fold_left parseLine pre NewMetricParser).
    destruct (parseLine_registers mp raw line Hd Hne) as (bs & Hbs & Hsrv).
    assert (Hs : extractServerName line ∈ Servers bs).
    { rewrite Hsrv. cbv zeta. case_bool_decide; [done|].
      apply elem_of_app. right. by apply list_elem_of_singleton. }
    destruct (fold_keeps post _ _ _ _ Hbs Hs) as (bs' & Hbs' & Hs').
    exists bs'. split; [done|].
    assert (Hwk : WellKeyed (fold_left parseLine post (parseLine mp raw))).
    { apply WellKeyed_fold, WellKeyed_parseLine, WellKeyed_fold, WellKeyed_new. }
    destruct (Hwk _ _ Hbs') as (_ & Hn & Hnd).
    split; [done|]. split; [done|]. split; [done|]. split.
    + intros p s q -> Hs0 Hq Hfirst.
      replace s with (extractServerName (p ++ label "server" s ++ q)); [done|].
      by apply extractLabel_text.
    + intros Habs.
      replace "" with (extractServerName line); [done|].
      unfold extractServerName, extractLabel. by rewrite findLabel_absent.
  - intros p b q -> Hb Hq Hfirst. by apply extractLabel_text.
  - intros Hnone. unfold extractServerName, extractLabel. by rewrite Hnone.
  - unfold extractServerName, extractLabel.
    destruct (findLabel "server" line) as [v|] eqn:Hf; [right|by left].
    destruct (findLabel_sound _ _ _ Hf) as (_ & _ & p & q & ->).
    exists p, q. unfold label, labelOpening.
    by rewrite !string_app_assoc, !string_app_cons, !string_app_assoc.
  - intros mp. by apply parseLine_registers.
Qed.

Lemma bucket_line_registers_server_witness :
  ∃ bs, buckets (parseLines unrecognizedFamily) !! "archive" = Some bs
        ∧ Name bs = "archive" ∧ "s1" ∈ Servers bs ∧ NoDup (Servers bs).
Proof.
  destruct (bucket_line_registers_server unrecognizedFamily
              (metricLine "minio_bucket_replication_total"
                 [label "bucket" "archive"; label "server" "s1"] "3")
              (metricLine "minio_bucket_replication_total"
                 [label "bucket" "archive"; label "server" "s1"] "3"))
    as [(bs & Hbs & Hn & _ & Hnd & Htext & _) _].
  - apply list_elem_of_here.
  - reflexivity.
  - vm_compute. discriminate.
  - exists bs. split; [exact Hbs|]. split; [exact Hn|]. split; [|exact Hnd].
    apply (Htext ("minio_bucket_replication_total{" ++ label "bucket" "archive" ++ ",")%string
             "s1" "} 3"); [reflexivity|discriminate|reflexivity|reflexivity].
Defined.

(** ** Integers in decimal are read back *)

Lemma digitsValue_app a b : ∀ acc,
  digitsValue acc (a ++ b) = digitsValue acc a ≫= λ v, digitsValue v b.
Proof.
  induction a as [|c a IH]; intros acc; [done|].
  rewrite string_app_cons. cbn [digitsValue]. destruct (isDigit c); [apply IH|done].
Qed.

Lemma pretty_N_char_digit x :
  (x < 10)%N →
  isDigit (pretty_N_char x) = true ∧ digitValue (pretty_N_char x) = Z.of_N x.
Proof.
  intros Hx. rewrite <- (N2Nat.id x).
  assert (Hn : (N.to_nat x < 10)%nat) by lia.
  revert Hn. generalize (N.to_nat x). intros n Hn.
  do 10 (destruct n as [|n]; [by vm_compute|]). lia.
Qed.

(** The digits that [pretty] puts in front of [s] for [x]. *)
Lemma pretty_N_go_digits x : ∀ s,
  ∃ d, pretty_N_go x s = (d ++ s)%string
       ∧ ((0 < x)%N → d ≠ "")
       ∧ ∀ acc, ∃ k, 0 <= k ∧ digitsValue acc d = Some (acc * 10 ^ k + Z.of_N x).
Proof.
  induction (N.lt_wf_0 x) as [x _ IH]. intros s.
  destruct (decide (x = 0)%N) as [->|Hx].
  - exists "". split; [by rewrite pretty_N_go_0|]. split; [lia|].
    intros acc. exists 0. simpl. split; [lia|]. f_equal. lia.
  - rewrite pretty_N_go_step by lia.
    destruct (IH (x `div` 10)%N ltac:(apply N.div_lt; lia)
                (String (pretty_N_char (x `mod` 10)) s)) as (d & Hd & _ & Hval).
    exists (d ++ String (pretty_N_char (x `mod` 10)) "")%string.
    split; [by rewrite Hd, string_app_assoc|]. split; [intros _; by destruct d|].
    intros acc. destruct (Hval acc) as (k & Hk & Hacc). exists (k + 1).
    split; [lia|]. rewrite digitsValue_app, Hacc. simpl.
    destruct (pretty_N_char_digit (x `mod` 10)%N ltac:(apply N.mod_lt; lia)) as [Hdig Hv].
    rewrite Hdig, Hv. f_equal.
    rewrite Z.pow_add_r, Z.pow_1_r by lia.
    pose proof (N.div_mod x 10 ltac:(lia)) as Hdm.
    assert (Z.of_N x = 10 * Z.of_N (x `div` 10) + Z.of_N (x `mod` 10)) by lia.
    lia.
Qed.

Lemma spaceWidth_digit c rest : isDigit c = true → spaceWidth (String c rest) = 0%nat.
Proof.
  unfold isDigit, byte_in. simpl. intros [H1 H2]%andb_true_iff.
  apply N.leb_le in H1, H2. unfold spaceWidth, byteN.
  assert (E1 : ((9 <=? N_of_ascii c) && (N_of_ascii c <=? 13) || (N_of_ascii c =? 32))%N = false).
  { apply orb_false_iff. split; [apply andb_false_iff; right; apply N.leb_gt; lia|].
    apply N.eqb_neq. lia. }
  rewrite E1. destruct rest as [|c1 r1]; [done|].
  assert (E2 : (N_of_ascii c =? 194)%N = false) by (apply N.eqb_neq; lia).
  rewrite E2. cbn [andb]. destruct r1 as [|c2 r2]; [done|].
  assert (E3 : (N_of_ascii c =? 225)%N = false) by (apply N.eqb_neq; lia).
  assert (E4 : (N_of_ascii c =? 226)%N = false) by (apply N.eqb_neq; lia).
  assert (E5 : (N_of_ascii c =? 227)%N = false) by (apply N.eqb_neq; lia).
  by rewrite E3, E4, E5.
Qed.

Lemma digitsValue_noSpace d : ∀ acc v, digitsValue acc d = Some v → noSpace d = true.
Proof.
  induction d as [|c d IH]; intros acc v; [done|]. cbn [digitsValue noSpace].
  destruct (isDigit c) eqn:Hc; [|done]. intros Hv.
  rewrite (spaceWidth_digit c d Hc). simpl. by eapply IH.
Qed.

Lemma digitsValue_head c d acc v :
  digitsValue acc (String c d) = Some v → Ascii.eqb c "+" = false ∧ Ascii.eqb c "-" = false.
Proof.
  cbn [digitsValue]. destruct (isDigit c) eqn:Hc; [|done]. intros _.
  unfold isDigit, byte_in in Hc. apply andb_true_iff in Hc as [H1 H2].
  apply N.leb_le in H1, H2. simpl in H1, H2.
  split; apply Ascii.eqb_neq; intros ->; simpl in *; lia.
Qed.

Lemma formatInt_decimal (n : Z) :
  decimalInteger (formatInt n) = Some n
  ∧ noSpace (formatInt n) = true ∧ formatInt n ≠ "".
Proof.
  assert (Hpos : ∀ p : positive, ∃ d,
    pretty (N.pos p) = d ∧ d ≠ "" ∧ digitsValue 0 d = Some (Z.pos p)).
  { intros p. unfold pretty, pretty_N. rewrite decide_False by done.
    destruct (pretty_N_go_digits (N.pos p) "") as (d & Hd & Hne & Hval).
    exists d. rewrite Hd, string_app_nil_r. split; [done|]. split; [apply Hne; lia|].
    destruct (Hval 0) as (k & _ & ->). f_equal. }
  unfold formatInt. destruct n as [|p|p].
  - by vm_compute.
  - change (pretty (Z.pos p)) with (pretty (N.pos p)).
    destruct (Hpos p) as (d & -> & Hne & Hval).
    split; [|split; [by eapply digitsValue_noSpace|done]].
    destruct d as [|c d]; [done|]. unfold decimalInteger.
    destruct (digitsValue_head c d 0 _ Hval) as [-> ->]. done.
  - change (pretty (Z.neg p)) with ("-" +:+ pretty (N.pos p)).
    destruct (Hpos p) as (d & -> & Hne & Hval).
    change ("-" +:+ d) with (String "-" d).
    split; [|split; [|done]].
    + unfold decimalInteger. change (Ascii.eqb "-" "+") with false.
      rewrite Ascii.eqb_refl. cbv iota.
      destruct (String.eqb_spec d "") as [->|_]; [done|]. rewrite Hval. reflexivity.
    + cbn [noSpace]. rewrite (digitsValue_noSpace d 0 _ Hval).
      by destruct d as [|c1 [|c2 d]].
Qed.

(** X20. Every [int64] written in decimal, as [fmt]'s %d writes it, is read back
    exactly: it is accepted by the integer parse, so the float parse and its
    rounding are not reached, and it is the value of every line that ends
    with it after a space, and of the line that consists of it. *)
Theorem extractValue_reads_back_int64 (pre : string) (n : Z) :
  Int64.in_range n →
  ParseInt (formatInt n) = (n, None)
  ∧ extractValue (pre ++ String " " (formatInt n)) = n
  ∧ extractValue (formatInt n) = n.
Proof.
  intros Hr. destruct (formatInt_decimal n) as (Hd & Hns & Hne).
  pose proof (proj2 (ParseInt_spec (formatInt n) n) (conj Hd Hr)) as Hp.
  split; [done|]. unfold extractValue, Fields. split.
  - rewrite (last_field pre (formatInt n) 0 "" Hne Hns eq_refl). by rewrite Hp.
  - rewrite splitFields_noSpace by done.
    change (("" ++ formatInt n)%string) with (formatInt n).
    rewrite flushField_nonempty by done. simpl. by rewrite Hp.
Qed.

Lemma extractValue_reads_back_int64_witness :
  extractValue ("minio_bucket_usage_total_bytes" ++ String " " (formatInt (-9223372036854775808)))
  = -9223372036854775808.
Proof.
  apply (extractValue_reads_back_int64 "minio_bucket_usage_total_bytes" (-9223372036854775808)).
  vm_compute. split; discriminate.
Defined.

(** ** The command line *)

Ltac flag_case flag :=
  let E1 := fresh "E" in
  let E2 := fresh "E" in
  assert (E1 : isFlag flag = true) by (by vm_compute);
  assert (E2 : isNumber flag = false) by (by vm_compute);
  unfold fileNames, setOptions; cbn [List.filter filename topN options];
  rewrite E1, E2; cbn [negb andb head default from_option id];
  rewrite ?orb_true_r, ?orb_false_r;
  repeat
    match goal with
    | |- context [String.eqb ?a ?b] =>
        lazymatch a with
        | String _ _ =>
            let b' := eval vm_compute in (String.eqb a b) in
            change (String.eqb a b) with b'
        end
    end;
  rewrite ?orb_true_r, ?orb_false_r;
  match goal with
  | |- context [String.eqb ?f ""] => by destruct (String.eqb_spec f "") as [->|]
  end.

Lemma parseArg_flag c arg :
  isHelp arg = false →
  parseArg c arg
  = Some {| filename :=
              if String.eqb (filename c) "" then default "" (head (fileNames [arg]))
              else filename c;
            topN := if isNumber arg then fst (Atoi arg) else topN c;
            options :=
              {| ShowVersions := ShowVersions (options c)
                                 || String.eqb arg "--versions" || String.eqb arg "--both";
                 ShowSizes := ShowSizes (options c)
                              || String.eqb arg "--sizes" || String.eqb arg "--both";
                 Cluster := Cluster (options c) || String.eqb arg "--cluster" |} |}.
Proof.
  intros Hh. unfold parseArg. fold (isHelp arg). rewrite Hh.
  destruct c as [f n [v s cl]]. cbn [filename topN options ShowVersions ShowSizes Cluster].
  destruct (String.eqb_spec arg "--versions") as [->|H1]; [flag_case "--versions"|].
  destruct (String.eqb_spec arg "--sizes") as [->|H2]; [flag_case "--sizes"|].
  destruct (String.eqb_spec arg "--cluster") as [->|H3]; [flag_case "--cluster"|].
  destruct (String.eqb_spec arg "--both") as [->|H4]; [flag_case "--both"|].
  rewrite !orb_false_r.
  assert (Hflag : isFlag arg = false).
  { unfold isFlag. apply bool_decide_eq_false_2. rewrite !elem_of_cons, elem_of_nil. tauto. }
  unfold fileNames. cbn [List.filter]. rewrite Hflag. unfold isNumber.
  destruct (Atoi arg) as [m [e|]]; cbn [negb andb fst].
  - destruct (String.eqb_spec f "") as [->|Hf]; [|done].
    by destruct (String.eqb_spec arg "") as [->|Ha].
  - by destruct (String.eqb_spec f "") as [->|Hf].
Qed.

Lemma elem_of_eqb (x y : string) (l : list string) :
  bool_decide (x ∈ y :: l) = String.eqb y x || bool_decide (x ∈ l).
Proof.
  apply eq_true_iff_eq.
  rewrite orb_true_iff, !bool_decide_eq_true, elem_of_cons, String.eqb_eq.
  split; (intros [?|?]; [by left|by right]).
Qed.

Lemma either_eqb (x y z : string) (l : list string) :
  bool_decide (x ∈ z :: l ∨ y ∈ z :: l)
  = String.eqb z x || String.eqb z y || bool_decide (x ∈ l ∨ y ∈ l).
Proof.
  apply eq_true_iff_eq.
  rewrite !orb_true_iff, !bool_decide_eq_true, !elem_of_cons, !String.eqb_eq.
  split; [intros [[?|?]|[?|?]]|intros [[?|?]|[?|?]]]; auto.
Qed.

Lemma parseArgs_spec args : ∀ c,
  existsb isHelp args = false →
  parseArgs c args
  = Some {| filename :=
              if String.eqb (filename c) "" then default "" (head (fileNames args))
              else filename c;
            topN := from_option (λ arg, fst (Atoi arg)) (topN c)
                      (last (List.filter isNumber args));
            options :=
              {| ShowVersions := ShowVersions (options c)
                                 || ShowVersions (requestedOptions args);
                 ShowSizes := ShowSizes (options c) || ShowSizes (requestedOptions args);
                 Cluster := Cluster (options c) || Cluster (requestedOptions args) |} |}.
Proof.
  induction args as [|arg args IH]; intros c Hh.
  - destruct c as [f n [v s cl]]. cbn. rewrite !orb_false_r.
    by destruct (String.eqb_spec f "") as [->|].
  - cbn [existsb] in Hh. apply orb_false_iff in Hh as [Ha Hrest].
    cbn [parseArgs]. rewrite (parseArg_flag c arg Ha), (IH _ Hrest).
    cbn [filename topN options ShowVersions ShowSizes Cluster requestedOptions].
    f_equal. f_equal.
    + unfold fileNames. cbn [List.filter].
      destruct (String.eqb_spec (filename c) "") as [Hf|Hf].
      * destruct (negb (isFlag arg) && negb (isNumber arg) && negb (String.eqb arg "")) eqn:Hn.
        -- cbn [head default from_option id].
           apply andb_true_iff in Hn as [_ Hn]. apply negb_true_iff in Hn.
           by rewrite Hn.
        -- cbn [head default from_option id]. by rewrite String.eqb_refl.
      * match goal with
        | |- context [if String.eqb ?x "" then _ else _] =>
            destruct (String.eqb_spec x "") as [Hx|Hx]
        end; done.
    + cbn [List.filter]. destruct (isNumber arg); [|done].
      rewrite last_cons. by destruct (last (List.filter isNumber args)).
    + f_equal.
      * rewrite either_eqb. rewrite !(String.eqb_sym arg). by rewrite !orb_assoc.
      * rewrite either_eqb. rewrite !(String.eqb_sym arg). by rewrite !orb_assoc.
      * rewrite elem_of_eqb. rewrite !(String.eqb_sym arg). by rewrite !orb_assoc.
Qed.

(** X21. When --help or -h is among the arguments, [main] prints the usage and
    exits without opening any file, whatever else is on the command line:
    with status 1 when the help is asked for by the first argument and with
    status 0 when it is asked for later.  Without arguments it exits with
    status 1. *)
Theorem main_help_reads_no_file `{!GoRuntime} (args : list string) (open : string → InputFile) :
  existsb isHelp args = true →
  main args open = UsageExit (if from_option isHelp false (head args) then 1 else 0)
  ∧ main [] open = UsageExit 1.
Proof.
  intros Hh. split; [|done]. unfold main.
  destruct args as [|first rest]; [done|]. cbn [head from_option].
  fold (isHelp first). destruct (isHelp first) eqn:Hf; [done|].
  assert (Hnone : ∀ l c, existsb isHelp l = true → parseArgs c l = None).
  { induction l as [|a l IH]; intros c; [done|]. cbn [existsb parseArgs].
    destruct (isHelp a) eqn:Ha.
    - intros _. unfold parseArg. fold (isHelp a). rewrite Ha.
      unfold isHelp in Ha.
      destruct (String.eqb_spec a "--versions") as [->|_]; [done|].
      destruct (String.eqb_spec a "--sizes") as [->|_]; [done|].
      destruct (String.eqb_spec a "--cluster") as [->|_]; [done|].
      destruct (String.eqb_spec a "--both") as [->|_]; [done|]. done.
    - cbn [orb]. intros Hl. rewrite (parseArg_flag c a Ha). by apply IH. }
  by rewrite (Hnone _ initialCommandLine Hh).
Qed.

Lemma main_help_reads_no_file_witness :
  main ["metrics.txt"; "--sizes"; "-h"] (λ _, Scanned clusterOnlyInput false) = UsageExit 0
  ∧ main ["--help"; "metrics.txt"] (λ _, Scanned clusterOnlyInput false) = UsageExit 1.
Proof.
  split.
  - apply (main_help_reads_no_file ["metrics.txt"; "--sizes"; "-h"]). reflexivity.
  - apply (main_help_reads_no_file ["--help"; "metrics.txt"]). reflexivity.
Defined.

(** X22. Without a request for help, the command line is read as follows,
    wherever the flags stand.  The file is the first argument that is not
    one of the four flags, not an integer and not empty, so an unknown flag
    is taken for a file name and a file whose name is an integer cannot be
    given; without such an argument [main] prints the usage and exits with
    status 1.  An option is on when its flag, or --both for the two
    distributions, occurs anywhere; the top-N view gets the last integer on
    the line, and 5 without one.  When the file cannot be opened or the scan
    fails, [main] ends with the error and prints no report; otherwise it
    prints the table and the top-N view of the parse of the file's lines,
    each from a call of its own. *)
Theorem main_reads_command_line `{H : !GoRuntime} (args : list string)
    (open : string → InputFile) :
  existsb isHelp args = false →
  main args open =
  match head (fileNames args) with
  | None => UsageExit 1
  | Some file =>
      match open file with
      | Unopenable => FatalExit file ErrOpen
      | Scanned lines true => FatalExit file ErrScan
      | Scanned lines false =>
          Reports file
            (PrintSummaryTable (H := within 0 H) (parseLines lines) (requestedOptions args))
            (PrintTopBuckets (H := within 1 H) (parseLines lines) (requestedTop args)
               (requestedOptions args))
      end
  end.
Proof.
  intros Hh. unfold main. destruct args as [|first rest] eqn:Hargs; [done|].
  rewrite <- Hargs in *.
  assert (Hfirst : String.eqb first "--help" || String.eqb first "-h" = false).
  { rewrite Hargs in Hh. cbn [existsb] in Hh. by apply orb_false_iff in Hh as [? _]. }
  rewrite Hfirst, (parseArgs_spec args initialCommandLine Hh). clear Hargs Hfirst.
  cbn [initialCommandLine filename topN options ShowVersions ShowSizes Cluster orb].
  change (String.eqb "" "") with true. cbv iota.
  assert (Hnames : ∀ file, head (fileNames args) = Some file → file ≠ "").
  { intros file Hfile. apply head_Some_elem_of, list_elem_of_In, filter_In in Hfile as [_ Hfile].
    apply andb_true_iff in Hfile as [_ Hfile]. by apply negb_true_iff, String.eqb_neq in Hfile. }
  destruct (head (fileNames args)) as [file|]; [|done]. cbn [default from_option id].
  rewrite (proj2 (String.eqb_neq file "") (Hnames file eq_refl)).
  unfold ParseFile, parseLines, requestedTop.
  destruct (open file) as [|lines [|]]; done.
Qed.

Lemma main_reads_command_line_witness :
  main sampleArguments (λ _, Scanned twoSmallBuckets false)
  = Reports "metrics.txt"
      (PrintSummaryTable (H := within 0 insertionRuntime) (parseLines twoSmallBuckets)
         {| ShowVersions := true; ShowSizes := true; Cluster := true |})
      (PrintTopBuckets (H := within 1 insertionRuntime) (parseLines twoSmallBuckets) 2
         {| ShowVersions := true; ShowSizes := true; Cluster := true |}).
Proof.
  apply (main_reads_command_line sampleArguments (λ _, Scanned twoSmallBuckets false)).
  reflexivity.
Defined.

(** ** White space around a line *)

Lemma spaceWidth_blank c rest : isBlank c = true → spaceWidth (String c rest) = 1%nat.
Proof. unfold isBlank, spaceWidth. by intros ->. Qed.

Lemma isBlank_range c : isBlank c = true → (byteN c <= 32)%N.
Proof.
  unfold isBlank. intros [[H1 H2]%andb_true_iff|H]%orb_true_iff.
  - apply N.leb_le in H2. lia.
  - apply N.eqb_eq in H. lia.
Qed.

(** Blank bytes after [y] do not change the white-space rune, if any, that
    starts [String c y]. *)
Lemma spaceWidth_blanks_suffix c y ws :
  blanks ws = true → spaceWidth (String c (y ++ ws)) = spaceWidth (String c y).
Proof.
  intros Hws. unfold spaceWidth.
  destruct ((9 <=? byteN c) && (byteN c <=? 13) || (byteN c =? 32))%N; [done|].
  destruct y as [|y1 y].
  - change ("" ++ ws)%string with ws. destruct ws as [|b1 ws]; [done|].
    cbn [blanks] in Hws. apply andb_true_iff in Hws as [Hb1 Hws].
    pose proof (isBlank_range b1 Hb1) as Hr1.
    assert (E1 : ((byteN b1 =? 133) || (byteN b1 =? 160))%N = false).
    { apply orb_false_iff. split; apply N.eqb_neq; lia. }
    rewrite E1, andb_false_r. destruct ws as [|b2 ws]; [done|].
    assert (E2 : (byteN b1 =? 154)%N = false) by (apply N.eqb_neq; lia).
    assert (E3 : (byteN b1 =? 128)%N = false) by (apply N.eqb_neq; lia).
    assert (E4 : (byteN b1 =? 129)%N = false) by (apply N.eqb_neq; lia).
    by rewrite E2, E3, E4, !andb_false_r.
  - rewrite string_app_cons.
    destruct ((byteN c =? 194) && ((byteN y1 =? 133) || (byteN y1 =? 160)))%N; [done|].
    destruct y as [|y2 y]; [|done].
    change ("" ++ ws)%string with ws. destruct ws as [|b2 ws]; [done|].
    cbn [blanks] in Hws. apply andb_true_iff in Hws as [Hb2 Hws].
    pose proof (isBlank_range b2 Hb2) as Hr2.
    assert (E1 : (byteN b2 =? 128)%N = false) by (apply N.eqb_neq; lia).
    assert (E2 : ((128 <=? byteN b2) && (byteN b2 <=? 138))%N = false).
    { apply andb_false_iff. left. apply N.leb_gt. lia. }
    assert (E3 : (byteN b2 =? 168)%N = false) by (apply N.eqb_neq; lia).
    assert (E4 : (byteN b2 =? 169)%N = false) by (apply N.eqb_neq; lia).
    assert (E5 : (byteN b2 =? 175)%N = false) by (apply N.eqb_neq; lia).
    assert (E6 : (byteN b2 =? 159)%N = false) by (apply N.eqb_neq; lia).
    by rewrite E1, E2, E3, E4, E5, E6, !andb_false_r.
Qed.

Lemma contBytes_length k s : contBytes k s = true → (k <= String.length s)%nat.
Proof.
  revert s. induction k as [|k IH]; intros s; simpl; [lia|].
  destruct s as [|c s]; [done|]. intros [_ H]%andb_true_iff. simpl.
  specialize (IH s H). lia.
Qed.

Lemma allSpace_blanks ws : blanks ws = true → allSpace 0 ws = true.
Proof.
  induction ws as [|c ws IH]; [done|]. cbn [blanks allSpace].
  intros [Hc Hws]%andb_true_iff. rewrite (spaceWidth_blank c ws Hc). by apply IH.
Qed.

Lemma allSpace_blanks_suffix ws : blanks ws = true →
  ∀ y k, (k <= String.length y)%nat → allSpace k (y ++ ws) = allSpace k y.
Proof.
  intros Hws. induction y as [|c y IH]; intros k Hk.
  - simpl in Hk. assert (k = 0%nat) as -> by lia.
    change ("" ++ ws)%string with ws. by rewrite allSpace_blanks.
  - rewrite string_app_cons. cbn [allSpace]. destruct k as [|k].
    + rewrite (spaceWidth_blanks_suffix c y ws Hws).
      destruct (spaceWidth (String c y)) as [|w] eqn:Hw; [done|].
      apply IH. by apply contBytes_length, (spaceWidth_cont c).
    + apply IH. simpl in Hk. lia.
Qed.

Lemma trimRight_blanks_suffix ws : blanks ws = true →
  ∀ x, trimRight (x ++ ws) = trimRight x.
Proof.
  intros Hws. induction x as [|c x IH].
  - change ("" ++ ws)%string with ws. destruct ws as [|b ws]; [done|].
    cbn [trimRight]. by rewrite (allSpace_blanks _ Hws).
  - rewrite string_app_cons. cbn [trimRight]. rewrite <- string_app_cons.
    rewrite (allSpace_blanks_suffix ws Hws (String c x) 0 ltac:(lia)).
    by rewrite IH.
Qed.

Lemma trimLeft_blanks_prefix ws x : blanks ws = true → trimLeft 0 (ws ++ x) = trimLeft 0 x.
Proof.
  induction ws as [|c ws IH]; [done|]. cbn [blanks].
  intros [Hc Hws]%andb_true_iff. rewrite string_app_cons. cbn [trimLeft].
  rewrite (spaceWidth_blank c _ Hc). by apply IH.
Qed.

Lemma trimLeft_blanks_suffix ws : blanks ws = true →
  ∀ x k, (k <= String.length x)%nat →
    trimRight (trimLeft k (x ++ ws)) = trimRight (trimLeft k x).
Proof.
  intros Hws. induction x as [|c x IH]; intros k Hk.
  - simpl in Hk. assert (k = 0%nat) as -> by lia.
    change ("" ++ ws)%string with ws.
    rewrite <- (string_app_nil_r ws) at 1. rewrite trimLeft_blanks_prefix by done. done.
  - rewrite string_app_cons. cbn [trimLeft]. destruct k as [|k].
    + rewrite (spaceWidth_blanks_suffix c x ws Hws).
      destruct (spaceWidth (String c x)) as [|w] eqn:Hw.
      * rewrite <- string_app_cons. by apply trimRight_blanks_suffix.
      * apply IH. by apply contBytes_length, (spaceWidth_cont c).
    + apply IH. simpl in Hk. lia.
Qed.

Lemma TrimSpace_blanks ws x ws' :
  blanks ws = true → blanks ws' = true → TrimSpace (ws ++ x ++ ws') = TrimSpace x.
Proof.
  intros Hws Hws'. unfold TrimSpace.
  rewrite trimLeft_blanks_prefix by done.
  apply (trimLeft_blanks_suffix ws' Hws' x 0). lia.
Qed.

(** X23. ASCII white space around a line never matters: tabs, spaces and carriage
    returns before and after a line are trimmed before anything is read, so
    the line changes the aggregate exactly as the bare line does, wherever
    it stands in the file. *)
Theorem surrounding_blanks_ignored (ws raw ws' : string) :
  blanks ws = true → blanks ws' = true →
  TrimSpace (ws ++ raw ++ ws') = TrimSpace raw
  ∧ (∀ mp, parseLine mp (ws ++ raw ++ ws') = parseLine mp raw)
  ∧ (∀ pre post, parseLines (pre ++ (ws ++ raw ++ ws')%string :: post)
                 = parseLines (pre ++ raw :: post)).
Proof.
  intros Hws Hws'. pose proof (TrimSpace_blanks ws raw ws' Hws Hws') as Ht.
  assert (Hline : ∀ mp, parseLine mp (ws ++ raw ++ ws') = parseLine mp raw).
  { intros mp. unfold parseLine. by rewrite Ht. }
  split; [done|]. split; [done|]. intros pre post. unfold parseLines. simpl.
  rewrite !fold_left_app. simpl. by rewrite Hline.
Qed.

Lemma surrounding_blanks_ignored_witness :
  parseLines [indentedLine]
  = parseLines [metricLine "minio_bucket_usage_object_total" [label "bucket" "a"] "7"].
Proof.
  apply (proj2 (proj2 (surrounding_blanks_ignored (String "009" "  ")
                         (metricLine "minio_bucket_usage_object_total" [label "bucket" "a"] "7")
                         (String " " (String "013" "")) eq_refl eq_refl)) [] []).
Defined.

(** ** Distributions of a single class *)

Lemma iter_pos_nat {A : Type} (f : A → A) (n : positive) : ∀ x,
  SpecFloat.iter_pos f n x = Nat.iter (Pos.to_nat n) f x.
Proof.
  induction n as [n IH|n IH|]; intros x; cbn [SpecFloat.iter_pos].
  - rewrite !IH, Pos2Nat.inj_xI. rewrite <- Nat.iter_add.
    replace (Pos.to_nat n + Pos.to_nat n)%nat with (2 * Pos.to_nat n)%nat by lia.
    by rewrite <- Nat.iter_succ_r.
  - rewrite !IH, Pos2Nat.inj_xO. rewrite <- Nat.iter_add.
    by replace (Pos.to_nat n + Pos.to_nat n)%nat with (2 * Pos.to_nat n)%nat by lia.
  - done.
Qed.

Lemma shr_1_digits (p : positive) r s :
  (1 < digits2_pos p)%positive →
  ∃ q r' s', shr_1 (Build_shr_record (Zpos p) r s) = Build_shr_record (Zpos q) r' s'
             ∧ (digits2_pos p = Pos.succ (digits2_pos q)).
Proof.
  intros Hd. destruct p as [p|p|]; simpl; [by eauto|by eauto|]. simpl in Hd. lia.
Qed.

Lemma shr_iter_digits (n : nat) : ∀ (p : positive) r s,
  (Z.of_nat n < Zpos (digits2_pos p)) →
  ∃ q r' s', Nat.iter n shr_1 (Build_shr_record (Zpos p) r s) = Build_shr_record (Zpos q) r' s'
             ∧ Zpos (digits2_pos p) = Zpos (digits2_pos q) + Z.of_nat n.
Proof.
  induction n as [|n IH]; intros p r s Hd.
  - exists p, r, s. split; [done|]. simpl. lia.
  - destruct (IH p r s ltac:(lia)) as (q & r' & s' & Hq & Hdq).
    destruct (shr_1_digits q r' s' ltac:(lia)) as (q' & r'' & s'' & Hq' & Hdq').
    exists q', r'', s''. rewrite Nat.iter_succ, Hq, Hq'. split; [done|]. lia.
Qed.

Lemma digits2_pos_iter_xO (p : positive) (n : positive) :
  Zpos (digits2_pos (Pos.iter xO p n)) = Zpos (digits2_pos p) + Zpos n.
Proof.
  induction n as [|n IH] using Pos.peano_ind.
  - simpl. lia.
  - rewrite Pos.iter_succ. cbn [digits2_pos]. lia.
Qed.

Lemma digits2_pos_succ (q : positive) :
  digits2_pos (Pos.succ q) = digits2_pos q
  ∨ digits2_pos (Pos.succ q) = Pos.succ (digits2_pos q).
Proof.
  induction q as [q IH|q IH|]; simpl; [|by left|by right].
  destruct IH as [->| ->]; [by left|by right].
Qed.

Lemma digits2_pos_bound (p : positive) (d : Z) :
  Zpos p < 2 ^ d → 0 <= d → Zpos (digits2_pos p) <= d.
Proof.
  revert d. induction p as [p IH|p IH|]; intros d Hp Hd; cbn [digits2_pos].
  - assert (0 < d) by (destruct (decide (d = 0)) as [->|]; [simpl in Hp|]; lia).
    specialize (IH (d - 1)).
    replace (2 ^ d) with (2 * 2 ^ (d - 1)) in Hp
      by (rewrite <- Z.pow_succ_r by lia; f_equal; lia).
    rewrite Pos2Z.inj_succ. lia.
  - assert (0 < d) by (destruct (decide (d = 0)) as [->|]; [simpl in Hp|]; lia).
    specialize (IH (d - 1)).
    replace (2 ^ d) with (2 * 2 ^ (d - 1)) in Hp
      by (rewrite <- Z.pow_succ_r by lia; f_equal; lia).
    rewrite Pos2Z.inj_succ. lia.
  - assert (0 < d) by (destruct (decide (d = 0)) as [->|]; [simpl in Hp|]; lia). lia.
Qed.

Lemma fexp64 (x : Z) : -1021 <= x → fexp prec64 emax64 x = x - 53.
Proof. unfold fexp, emin, prec64, emax64. lia. Qed.

(** A mantissa of 53 bits is not shifted. *)
Lemma shr_fexp_53 (q : positive) (e : Z) (l : location) :
  Zpos (digits2_pos q) = 53 → -1074 <= e →
  shr_fexp prec64 emax64 (Zpos q) e l = (shr_record_of_loc (Zpos q) l, e).
Proof.
  intros Hd He. unfold shr_fexp. cbn [Zdigits2]. rewrite Hd, fexp64 by lia.
  replace (53 + e - 53 - e) with 0 by lia. done.
Qed.

(** A mantissa of 54 bits is shifted by one bit. *)
Lemma shr_fexp_54 (q : positive) (e : Z) :
  Zpos (digits2_pos q) = 54 → -1074 <= e →
  ∃ q' r s, shr_fexp prec64 emax64 (Zpos q) e loc_Exact
            = (Build_shr_record (Zpos q') r s, e + 1).
Proof.
  intros Hd He. unfold shr_fexp. cbn [Zdigits2]. rewrite Hd, fexp64 by lia.
  replace (54 + e - 53 - e) with 1 by lia. cbn [shr SpecFloat.iter_pos shr_record_of_loc].
  destruct (shr_1_digits q false false ltac:(lia)) as (q' & r & s & -> & _). by eauto.
Qed.

(** The second half of [binary_round_aux] on a mantissa of 53 or 54 bits. *)
Lemma round_finish (sx : bool) (q : positive) (e : Z) :
  Zpos (digits2_pos q) = 53 ∨ Zpos (digits2_pos q) = 54 →
  -1074 <= e <= 900 →
  ∃ m e',
    (let '(mrs, e'') := shr_fexp prec64 emax64 (Zpos q) e loc_Exact in
     match shr_m mrs with
     | Z0 => S754_zero sx
     | Zpos m => if Z.leb e'' (emax64 - prec64) then S754_finite sx m e'' else S754_infinity sx
     | _ => S754_nan
     end) = S754_finite sx m e'.
Proof.
  intros [Hd|Hd] He.
  - rewrite (shr_fexp_53 q e loc_Exact Hd) by lia. cbn [shr_record_of_loc shr_m].
    assert (Hle : (e <=? emax64 - prec64) = true) by (apply Z.leb_le; unfold emax64, prec64; lia).
    rewrite Hle. by eauto.
  - destruct (shr_fexp_54 q e Hd ltac:(lia)) as (q' & r & s & ->). cbn [shr_m].
    assert (Hle : (e + 1 <=? emax64 - prec64) = true)
      by (apply Z.leb_le; unfold emax64, prec64; lia).
    rewrite Hle. by eauto.
Qed.

Lemma round_nearest_even_digits (q : positive) (l : location) :
  Zpos (digits2_pos q) = 53 →
  ∃ q', round_nearest_even (Zpos q) l = Zpos q'
        ∧ (Zpos (digits2_pos q') = 53 ∨ Zpos (digits2_pos q') = 54).
Proof.
  intros Hd.
  assert (Hup : ∃ q', Zpos q + 1 = Zpos q'
                      ∧ (Zpos (digits2_pos q') = 53 ∨ Zpos (digits2_pos q') = 54)).
  { exists (Pos.succ q). split; [lia|].
    destruct (digits2_pos_succ q) as [->| ->]; [by left|right; lia]. }
  unfold round_nearest_even. destruct l as [|[| |]]; try (by exists q; split; [|left]); try done.
  destruct (Z.even (Zpos q)); [by exists q; split; [|left]|done].
Qed.

(** The binary64 of an integer of at most 64 bits other than zero is a
    finite number, with the sign of the integer. *)
Lemma binary_round_finite (s : bool) (p : positive) :
  Zpos p < 2 ^ 64 →
  ∃ m e, binary_round prec64 emax64 s p 0 = S754_finite s m e.
Proof.
  intros Hp. pose proof (digits2_pos_bound p 64 Hp ltac:(lia)) as Hd.
  unfold binary_round, shl_align.
  set (d := Zpos (digits2_pos p)) in *.
  assert (Hd1 : 1 <= d) by (subst d; lia).
  rewrite Z.add_0_r, fexp64, Z.sub_0_r by lia.
  destruct (d - 53) as [|k|k] eqn:Hk.
  - (* exactly 53 bits *)
    unfold binary_round_aux.
    rewrite (shr_fexp_53 p 0 loc_Exact) by (fold d; lia).
    cbn [shr_record_of_loc shr_m loc_of_shr_record round_nearest_even].
    apply round_finish; [left; fold d; lia|lia].
  - (* more than 53 bits: the first shift drops the excess *)
    unfold binary_round_aux. unfold shr_fexp at 1. cbn [Zdigits2]. fold d.
    rewrite Z.add_0_r, fexp64, Z.sub_0_r, Hk by lia.
    cbn [shr shr_record_of_loc]. rewrite iter_pos_nat.
    destruct (shr_iter_digits (Pos.to_nat k) p false false ltac:(fold d; lia))
      as (q & r' & s' & -> & Hq).
    fold d in Hq. rewrite positive_nat_Z in Hq.
    destruct (round_nearest_even_digits q (loc_of_shr_record (Build_shr_record (Zpos q) r' s'))
                ltac:(lia)) as (q' & Hq' & Hd').
    cbn [shr_m]. rewrite Hq'. apply round_finish; [done|lia].
  - (* fewer than 53 bits: the mantissa is shifted up to 53 bits *)
    unfold binary_round_aux.
    assert (Hmz : Zpos (digits2_pos (Pos.iter xO p k)) = 53).
    { rewrite digits2_pos_iter_xO. fold d. lia. }
    rewrite (shr_fexp_53 _ (Z.neg k) loc_Exact Hmz) by lia.
    cbn [shr_record_of_loc shr_m loc_of_shr_record round_nearest_even].
    apply round_finish; [by left|lia].
Qed.

Lemma float64_of_int64_finite (n : Z) :
  n ≠ 0 → Int64.in_range n →
  ∃ m e, float64_of_int64 n = S754_finite (n <? 0) m e.
Proof.
  intros Hn [Hlo Hhi]. unfold Int64.min_int, Int64.max_int in *.
  unfold float64_of_int64, binary_normalize. destruct n as [|p|p]; [done|..].
  - apply binary_round_finite. lia.
  - apply binary_round_finite. lia.
Qed.

(** A finite binary64 divided by itself is one. *)
Lemma SFdiv_self (s : bool) (m : positive) (e : Z) :
  SFdiv prec64 emax64 (S754_finite s m e) (S754_finite s m e)
  = S754_finite false 4503599627370496 (-52).
Proof.
  unfold SFdiv, SFdiv_core_binary. cbn [Zdigits2].
  replace (Zpos (digits2_pos m) + e - (Zpos (digits2_pos m) + e)) with 0 by lia.
  rewrite Z.sub_diag.
  change (Z.min (fexp prec64 emax64 0) 0) with (-53).
  change (0 - -53) with 53.
  assert (Hdiv : Z.div_eucl (Z.shiftl (Zpos m) 53) (Zpos m) = (2 ^ 53, 0)).
  { rewrite Z.shiftl_mul_pow2 by lia.
    pose proof (Z.div_eucl_eq (Zpos m * 2 ^ 53) (Zpos m) ltac:(lia)) as Heq.
    pose proof (Z.mod_pos_bound (Zpos m * 2 ^ 53) (Zpos m) ltac:(lia)) as Hb.
    unfold Z.modulo in Hb.
    destruct (Z.div_eucl (Zpos m * 2 ^ 53) (Zpos m)) as [q r].
    assert (Hr : r = 0).
    { assert (Hm : r mod Zpos m = 0).
      { replace r with (Zpos m * 2 ^ 53 + (- q) * Zpos m) by lia.
        by rewrite Z.mod_add, Z.mul_comm, Z.mod_mul by lia. }
      rewrite Z.mod_small in Hm by lia. done. }
    subst r. f_equal. nia. }
  cbv iota.
  match goal with
  | |- context [IntDef.Z.div_eucl ?a ?b] => change (IntDef.Z.div_eucl a b) with (Z.div_eucl (Z.shiftl (Zpos m) 53) (Zpos m))
  end.
  rewrite Hdiv.
  assert (Hloc : new_location (Zpos m) 0 = loc_Exact).
  { unfold new_location, new_location_even, new_location_odd. by destruct (Z.even (Zpos m)). }
  rewrite Hloc. by destruct s; vm_compute.
Qed.

Lemma percentOf_self (x : Z) :
  x ≠ 0 → Int64.in_range x → percentOf x x = float64_of_int64 100.
Proof.
  intros Hx Hr. unfold percentOf.
  destruct (float64_of_int64_finite x Hx Hr) as (m & e & ->).
  rewrite SFdiv_self. by vm_compute.
Qed.

Lemma percentOf_zero (x : Z) (n : Z) :
  x ≠ 0 → Int64.in_range x → 0 < n <= 100 → atLeast (percentOf 0 x) n = false.
Proof.
  intros Hx Hr Hn. unfold percentOf, atLeast.
  destruct (float64_of_int64_finite x Hx Hr) as (m & e & ->).
  change (float64_of_int64 0) with (S754_zero false). cbn [SFdiv].
  change (float64_of_int64 100) with (S754_finite false 7036874417766400 (-46)).
  cbn [SFmul].
  destruct (float64_of_int64_finite n ltac:(lia)
              ltac:(unfold Int64.in_range, Int64.min_int, Int64.max_int; lia))
    as (m' & e' & ->).
  assert (Hs : (n <? 0) = false) by (apply Z.ltb_ge; lia). rewrite Hs.
  unfold SFleb, SFcompare. done.
Qed.

Lemma total_of_one (x : Z) : Int64.in_range x → Int64.add (Int64.add x 0) 0 = x.
Proof.
  intros Hr. unfold Int64.add. rewrite !Z.add_0_r.
  by rewrite !Int64Facts.wrap_small by (rewrite ?Int64Facts.wrap_small; done).
Qed.

Lemma count_in_range (a b : Z) : Int64.in_range (Int64.add a b).
Proof. apply Int64Facts.wrap_in_range. Qed.

(** X24. When all the objects counted fall in one class, the status names that
    class, whatever the counts: the percentage of the class is computed as
    exactly 100 and those of the two others as zero.  When the three classes
    count nothing, a map that is not empty is called Empty. *)
Theorem single_class_size_status (m : gmap string Z) :
  m ≠ ∅ →
  (smallCount m ≠ 0 → mediumCount m = 0 → largeCount m = 0 →
   getSizeStatus m = "Mostly Small")
  ∧ (smallCount m = 0 → mediumCount m ≠ 0 → largeCount m = 0 →
     getSizeStatus m = "Mostly Medium")
  ∧ (smallCount m = 0 → mediumCount m = 0 → largeCount m ≠ 0 →
     getSizeStatus m = "Mostly Large")
  ∧ (smallCount m = 0 → mediumCount m = 0 → largeCount m = 0 →
     getSizeStatus m = "Empty").
Proof.
  intros Hne.
  assert (Hsize : (size m =? 0)%nat = false).
  { apply Nat.eqb_neq. by rewrite map_size_empty_iff. }
  assert (Hs : Int64.in_range (smallCount m)) by apply count_in_range.
  assert (Hm : Int64.in_range (mediumCount m)) by apply count_in_range.
  assert (Hl : Int64.in_range (largeCount m)) by apply count_in_range.
  unfold getSizeStatus. rewrite Hsize.
  split; [|split; [|split]].
  - intros Hs0 -> ->. rewrite (total_of_one _ Hs).
    rewrite (proj2 (Z.eqb_neq _ _) Hs0), (percentOf_self _ Hs0 Hs). by vm_compute.
  - intros -> Hm0 ->.
    assert (Ht : Int64.add (Int64.add 0 (mediumCount m)) 0 = mediumCount m).
    { unfold Int64.add. rewrite Z.add_0_l, Z.add_0_r.
      by rewrite !Int64Facts.wrap_small by (rewrite ?Int64Facts.wrap_small; done). }
    rewrite Ht, (proj2 (Z.eqb_neq _ _) Hm0).
    rewrite (percentOf_zero _ 80 Hm0 Hm ltac:(lia)), (percentOf_self _ Hm0 Hm).
    by vm_compute.
  - intros -> -> Hl0.
    assert (Ht : Int64.add (Int64.add 0 0) (largeCount m) = largeCount m).
    { unfold Int64.add. change (Int64.wrap (0 + 0)) with 0. rewrite Z.add_0_l.
      by apply Int64Facts.wrap_small. }
    rewrite Ht, (proj2 (Z.eqb_neq _ _) Hl0).
    rewrite (percentOf_zero _ 80 Hl0 Hl ltac:(lia)), (percentOf_zero _ 60 Hl0 Hl ltac:(lia)).
    rewrite (percentOf_self _ Hl0 Hl). by vm_compute.
  - by intros -> -> ->.
Qed.

Lemma single_class_size_status_witness : getSizeStatus onlySmallObjects = "Mostly Small".
Proof.
  apply (proj1 (single_class_size_status onlySmallObjects ltac:(done))); by vm_compute.
Defined.

(** ** The percentages on [float64] *)

Lemma div_eucl_div_mod (a b : Z) : Z.div_eucl a b = (a / b, a mod b).
Proof. unfold Z.div, Z.modulo. by destruct (Z.div_eucl a b). Qed.

Lemma new_location_Located (num den : Z) :
  0 <= num → 0 < den →
  Located num den (num / den) (new_location den (num mod den)).
Proof.
  intros Hn Hd.
  pose proof (Z.div_mod num den ltac:(lia)) as Hdm.
  pose proof (Z.mod_pos_bound num den Hd) as Hb.
  set (q := num / den) in *. set (r := num mod den) in *.
  assert (Hr : num - q * den = r) by lia.
  split; [done|]. split; [nia|].
  unfold new_location, new_location_even, new_location_odd.
  destruct (Z.even den) eqn:Hev.
  - destruct (Z.eqb_spec r 0) as [H0|H0]; [lia|].
    split; [lia|]. by rewrite Hr.
  - destruct (Z.eqb_spec r 0) as [H0|H0]; [lia|].
    split; [lia|]. rewrite Hr.
    assert (Hodd : Z.odd den = true) by (by rewrite <- Z.negb_even, Hev).
    apply Z.odd_spec in Hodd as [h Hh].
    destruct (Z.compare_spec (2 * r + 1) den), (Z.compare_spec (2 * r) den); try done; lia.
Qed.

Lemma shr_1_Located (num den q : Z) (l : location) :
  0 <= q → Located num den q l →
  ∃ l', shr_1 (shr_record_of_loc q l) = shr_record_of_loc (Z.div2 q) l'
        ∧ Located num (2 * den) (Z.div2 q) l'.
Proof.
  intros Hq (Hd & Hb & Hl).
  assert (Hlow : ∀ c, l = loc_Inexact c → num ≠ q * den).
  { intros c ->. by destruct Hl. }
  destruct q as [|[p|p|]|]; [| | | |lia]; cbn [Z.div2 Pos.div2].
  - (* q = 0 *)
    destruct l as [|c].
    + exists loc_Exact. split; [done|]. split; [lia|]. split; lia.
    + exists (loc_Inexact Lt). split; [by destruct c|].
      specialize (Hlow c eq_refl).
      split; [lia|]. split; [lia|]. split; [lia|]. apply Z.compare_lt_iff. lia.
  - (* q = 2 p + 1 *)
    destruct l as [|c].
    + exists (loc_Inexact Eq). split; [done|].
      split; [lia|]. split; [lia|]. split; [lia|]. apply Z.compare_eq_iff. lia.
    + exists (loc_Inexact Gt). split; [by destruct c|].
      specialize (Hlow c eq_refl).
      split; [lia|]. split; [lia|]. split; [lia|]. apply Z.compare_gt_iff. lia.
  - (* q = 2 p *)
    destruct l as [|c].
    + exists loc_Exact. split; [done|]. split; [lia|]. split; lia.
    + exists (loc_Inexact Lt). split; [by destruct c|].
      specialize (Hlow c eq_refl).
      split; [lia|]. split; [lia|]. split; [lia|]. apply Z.compare_lt_iff. lia.
  - (* q = 1 *)
    destruct l as [|c].
    + exists (loc_Inexact Eq). split; [done|].
      split; [lia|]. split; [lia|]. split; [lia|]. apply Z.compare_eq_iff. lia.
    + exists (loc_Inexact Gt). split; [by destruct c|].
      specialize (Hlow c eq_refl).
      split; [lia|]. split; [lia|]. split; [lia|]. apply Z.compare_gt_iff. lia.
Qed.

Lemma shr_iter_Located (k : nat) : ∀ (num den q : Z) (l : location),
  0 <= q → Located num den q l →
  ∃ l', Nat.iter k shr_1 (shr_record_of_loc q l) = shr_record_of_loc (q / 2 ^ Z.of_nat k) l'
        ∧ Located num (2 ^ Z.of_nat k * den) (q / 2 ^ Z.of_nat k) l'.
Proof.
  induction k as [|k IH]; intros num den q l Hq Hl.
  - exists l. change (2 ^ Z.of_nat 0) with 1. rewrite Z.div_1_r, Z.mul_1_l. done.
  - destruct (IH num den q l Hq Hl) as (l1 & Hi & Hl1).
    assert (Hq1 : 0 <= q / 2 ^ Z.of_nat k) by (apply Z.div_pos; lia).
    destruct (shr_1_Located _ _ _ _ Hq1 Hl1) as (l2 & Hs & Hl2).
    exists l2. rewrite Nat.iter_succ, Hi, Hs.
    rewrite Z.div2_div, Z.div_div in * by lia.
    replace (2 ^ Z.of_nat (S k)) with (2 ^ Z.of_nat k * 2)
      by (rewrite Nat2Z.inj_succ, Z.pow_succ_r by lia; lia).
    split; [done|].
    by replace (2 ^ Z.of_nat k * 2 * den) with (2 * (2 ^ Z.of_nat k * den)) by lia.
Qed.

Lemma round_Located (num den q : Z) (l : location) :
  Located num den q l →
  q <= round_nearest_even q l <= q + 1
  ∧ (2 * round_nearest_even q l - 1) * den <= 2 * num
    <= (2 * round_nearest_even q l + 1) * den.
Proof.
  intros (Hd & Hb & Hl). destruct l as [|c]; cbn [round_nearest_even].
  - split; [lia|]. subst num. split; nia.
  - destruct Hl as [Hne Hc]. destruct c.
    + rewrite Z.compare_eq_iff in Hc. destruct (Z.even q); (split; [lia|]); split; nia.
    + rewrite Z.compare_lt_iff in Hc. split; [lia|]. split; nia.
    + rewrite Z.compare_gt_iff in Hc. split; [lia|]. split; nia.
Qed.

Lemma digits2_pos_spec (p : positive) :
  2 ^ (Zpos (digits2_pos p) - 1) <= Zpos p < 2 ^ Zpos (digits2_pos p).
Proof.
  induction p as [p IH|p IH|]; cbn [digits2_pos]; [| |done].
  - rewrite Pos2Z.inj_succ.
    replace (Z.succ (Zpos (digits2_pos p)) - 1) with (Z.succ (Zpos (digits2_pos p) - 1)) by lia.
    rewrite !Z.pow_succ_r by lia. lia.
  - rewrite Pos2Z.inj_succ.
    replace (Z.succ (Zpos (digits2_pos p)) - 1) with (Z.succ (Zpos (digits2_pos p) - 1)) by lia.
    rewrite !Z.pow_succ_r by lia. lia.
Qed.

Lemma digits2_pos_unique (p : positive) (d : Z) :
  2 ^ (d - 1) <= Zpos p < 2 ^ d → Zpos (digits2_pos p) = d.
Proof.
  intros [Hlo Hhi]. pose proof (digits2_pos_spec p) as [Hlo' Hhi'].
  assert (Hd : 0 <= d).
  { destruct (Z.le_gt_cases 0 d) as [|Hneg]; [done|].
    rewrite Z.pow_neg_r in Hhi by done. lia. }
  assert (H1 : Zpos (digits2_pos p) - 1 < d).
  { apply (Z.pow_lt_mono_r_iff 2); lia. }
  assert (H2 : d - 1 < Zpos (digits2_pos p)).
  { apply (Z.pow_lt_mono_r_iff 2); lia. }
  lia.
Qed.

Lemma shr_m_of_loc (m : Z) (l : location) : shr_m (shr_record_of_loc m l) = m.
Proof. by destruct l as [|[| |]]. Qed.

Lemma loc_of_shr_record_of_loc (m : Z) (l : location) :
  loc_of_shr_record (shr_record_of_loc m l) = l.
Proof. by destruct l as [|[| |]]. Qed.

(** The first shift of [binary_round_aux] on a mantissa of [53 + k] bits
    drops [k] bits and keeps track of where the exact value lies. *)
Lemma shr_fexp_Located (q : positive) (ex k : Z) (l : location) (num den : Z) :
  Located num den (Zpos q) l →
  Zpos (digits2_pos q) = 53 + k → 0 <= k → -1074 <= ex →
  ∃ l', shr_fexp prec64 emax64 (Zpos q) ex l
        = (shr_record_of_loc (Zpos q / 2 ^ k) l', ex + k)
        ∧ Located num (2 ^ k * den) (Zpos q / 2 ^ k) l'.
Proof.
  intros Hl Hd Hk He. unfold shr_fexp. cbn [Zdigits2]. rewrite Hd, fexp64 by lia.
  replace (53 + k + ex - 53 - ex) with k by lia.
  destruct k as [|k|k]; [| |lia].
  - exists l. cbn [shr]. change (2 ^ 0) with 1.
    by rewrite Z.div_1_r, Z.mul_1_l, Z.add_0_r.
  - cbn [shr]. rewrite iter_pos_nat.
    destruct (shr_iter_Located (Pos.to_nat k) num den (Zpos q) l ltac:(lia) Hl)
      as (l' & Hi & Hl').
    rewrite positive_nat_Z in Hi, Hl'. exists l'. by rewrite Hi.
Qed.

Lemma shr_fexp_carry (e : Z) :
  -1074 <= e →
  shr_fexp prec64 emax64 (2 ^ 53) e loc_Exact
  = (Build_shr_record (2 ^ 52) false false, e + 1).
Proof.
  intros He. unfold shr_fexp.
  change (Zdigits2 (2 ^ 53)) with 54. rewrite fexp64 by lia.
  replace (54 + e - 53 - e) with 1 by lia. reflexivity.
Qed.

(** [binary_round_aux] on a mantissa of at least 53 bits, away from the
    ends of the exponent range: the result is a normal number whose
    mantissa [M0], before the carry is absorbed, is within one half of the
    exact quotient. *)
Lemma binary_round_aux_spec (s : bool) (q : positive) (ex k : Z) (l : location)
    (num den : Z) :
  Located num den (Zpos q) l →
  Zpos (digits2_pos q) = 53 + k → 0 <= k → -1074 <= ex → ex + k <= 900 →
  ∃ (M : positive) (E M0 : Z),
    binary_round_aux prec64 emax64 s (Zpos q) ex l = S754_finite s M E
    ∧ Zpos (digits2_pos M) = 53
    ∧ (2 * M0 - 1) * (2 ^ k * den) <= 2 * num <= (2 * M0 + 1) * (2 ^ k * den)
    ∧ ((M0 = Zpos M ∧ E = ex + k) ∨ (M0 = 2 ^ 53 ∧ Zpos M = 2 ^ 52 ∧ E = ex + k + 1)).
Proof.
  intros Hl Hd Hk He Hhi. unfold binary_round_aux.
  destruct (shr_fexp_Located q ex k l num den Hl Hd Hk He) as (l' & -> & Hl').
  rewrite shr_m_of_loc, loc_of_shr_record_of_loc.
  pose proof (digits2_pos_spec q) as [Hqlo Hqhi]. rewrite Hd in Hqlo, Hqhi.
  assert (Hq' : 2 ^ 52 <= Zpos q / 2 ^ k < 2 ^ 53).
  { replace (53 + k - 1) with (52 + k) in Hqlo by lia.
    rewrite Z.pow_add_r in Hqlo, Hqhi by lia.
    split.
    - apply Z.div_le_lower_bound; lia.
    - apply Z.div_lt_upper_bound; lia. }
  destruct (round_Located _ _ _ _ Hl') as [HM Hnear].
  set (M0 := round_nearest_even (Zpos q / 2 ^ k) l') in *.
  assert (Hle : ∀ e, e <= ex + k + 1 → (e <=? emax64 - prec64) = true).
  { intros e Hle. apply Z.leb_le. unfold emax64, prec64. lia. }
  destruct (Z.eq_dec M0 (2 ^ 53)) as [Hc|Hc].
  - rewrite Hc, shr_fexp_carry by lia. cbn [shr_m].
    change (2 ^ 52) with (Zpos 4503599627370496). cbv iota.
    rewrite Hle by lia.
    exists 4503599627370496%positive, (ex + k + 1), M0.
    split; [done|]. split; [done|]. split; [done|]. right. done.
  - destruct M0 as [|M|M] eqn:EM; [lia| |lia].
    assert (HdM : Zpos (digits2_pos M) = 53) by (apply digits2_pos_unique; lia).
    rewrite (shr_fexp_53 M (ex + k) loc_Exact HdM) by lia.
    cbn [shr_record_of_loc shr_m]. rewrite Hle by lia.
    exists M, (ex + k), (Zpos M).
    split; [done|]. split; [done|]. split; [done|]. left. done.
Qed.

(** Two positive normal numbers compare as their exponents and then their
    mantissas do. *)
Lemma SFleb_normal (m1 m2 : positive) (e1 e2 : Z) :
  SFleb (S754_finite false m1 e1) (S754_finite false m2 e2) = true
  ↔ e1 < e2 ∨ (e1 = e2 ∧ Zpos m1 <= Zpos m2).
Proof.
  unfold SFleb, SFcompare.
  destruct (Z.compare_spec e1 e2) as [->|Hlt|Hgt].
  - change (Pos.compare_cont Eq m1 m2) with (Pos.compare m1 m2).
    destruct (Pos.compare_spec m1 m2) as [->|Hm|Hm]; split;
      first [done | lia | intros _; right; split; [done|lia]].
  - split; [intros _; by left|done].
  - split; [done|lia].
Qed.

Lemma binary_round_aux_exact (s : bool) (q : positive) (ex : Z) :
  Zpos (digits2_pos q) = 53 → -1074 <= ex <= 900 →
  binary_round_aux prec64 emax64 s (Zpos q) ex loc_Exact = S754_finite s q ex.
Proof.
  intros Hd He. unfold binary_round_aux.
  rewrite (shr_fexp_53 q ex loc_Exact Hd) by lia.
  cbn [shr_record_of_loc shr_m loc_of_shr_record round_nearest_even].
  rewrite (shr_fexp_53 q ex loc_Exact Hd) by lia.
  cbn [shr_record_of_loc shr_m].
  assert (Hle : (ex <=? emax64 - prec64) = true)
    by (apply Z.leb_le; unfold emax64, prec64; lia).
  by rewrite Hle.
Qed.

Lemma Pos_iter_xO_Z (p k : positive) : Zpos (Pos.iter xO p k) = Zpos p * 2 ^ Zpos k.
Proof.
  induction k as [|k IH] using Pos.peano_ind.
  - simpl. lia.
  - rewrite Pos.iter_succ, Pos2Z.inj_succ, Z.pow_succ_r by lia. lia.
Qed.

(** The binary64 of a positive integer below [2 ^ 53] holds it exactly, in
    a mantissa of 53 bits. *)
Lemma float64_of_small (n : Z) :
  0 < n < 2 ^ 53 →
  ∃ (m : positive) (a : Z),
    float64_of_int64 n = S754_finite false m (- a)
    ∧ 0 <= a ∧ Zpos m = n * 2 ^ a ∧ Zpos (digits2_pos m) = 53.
Proof.
  intros [Hlo Hhi]. destruct n as [|p|p]; [lia| |lia].
  pose proof (digits2_pos_bound p 53 Hhi ltac:(lia)) as Hd.
  unfold float64_of_int64, binary_normalize, binary_round, shl_align.
  set (d := Zpos (digits2_pos p)) in *.
  assert (Hd1 : 1 <= d) by (subst d; lia).
  rewrite Z.add_0_r, fexp64, Z.sub_0_r by lia.
  destruct (d - 53) as [|k|k] eqn:Hk; [| lia |].
  - exists p, 0. rewrite binary_round_aux_exact by (fold d; lia).
    split; [done|]. split; [done|]. split; [lia|]. fold d. lia.
  - assert (Hmz : Zpos (digits2_pos (Pos.iter xO p k)) = 53).
    { rewrite digits2_pos_iter_xO. fold d. lia. }
    exists (Pos.iter xO p k), (Zpos k).
    rewrite binary_round_aux_exact by (done || lia).
    split; [done|]. split; [done|]. split; [|done]. apply Pos_iter_xO_Z.
Qed.

Lemma SFdiv_core_normal (m1 m2 : positive) (e1 e2 : Z) :
  Zpos (digits2_pos m1) = 53 → Zpos (digits2_pos m2) = 53 →
  -900 <= e1 - e2 →
  SFdiv_core_binary prec64 emax64 (Zpos m1) e1 (Zpos m2) e2
  = (Zpos m1 * 2 ^ 53 / Zpos m2, e1 - e2 - 53,
     new_location (Zpos m2) ((Zpos m1 * 2 ^ 53) mod Zpos m2)).
Proof.
  intros Hd1 Hd2 He. unfold SFdiv_core_binary. cbn [Zdigits2]. rewrite Hd1, Hd2.
  replace (53 + e1 - (53 + e2)) with (e1 - e2) by lia.
  rewrite fexp64 by lia. rewrite Z.min_l by lia.
  replace (e1 - e2 - (e1 - e2 - 53)) with 53 by lia. cbv iota.
  match goal with
  | |- context [IntDef.Z.div_eucl ?a ?b] =>
      change (IntDef.Z.div_eucl a b) with (Z.div_eucl (Z.shiftl (Zpos m1) 53) (Zpos m2))
  end.
  rewrite Z.shiftl_mul_pow2 by lia. by rewrite div_eucl_div_mod.
Qed.

(** The quotient of two positive normal numbers. *)
Lemma SFdiv_normal (m1 m2 : positive) (e1 e2 : Z) :
  Zpos (digits2_pos m1) = 53 → Zpos (digits2_pos m2) = 53 →
  -900 <= e1 - e2 <= 900 →
  ∃ (M : positive) (E M0 k : Z),
    SFdiv prec64 emax64 (S754_finite false m1 e1) (S754_finite false m2 e2)
    = S754_finite false M E
    ∧ Zpos (digits2_pos M) = 53
    ∧ (k = 0 ∧ Zpos m1 < Zpos m2 ∨ k = 1 ∧ Zpos m2 <= Zpos m1)
    ∧ (2 * M0 - 1) * (2 ^ k * Zpos m2) <= 2 * (Zpos m1 * 2 ^ 53)
        <= (2 * M0 + 1) * (2 ^ k * Zpos m2)
    ∧ ((M0 = Zpos M ∧ E = e1 - e2 - 53 + k)
       ∨ (M0 = 2 ^ 53 ∧ Zpos M = 2 ^ 52 ∧ E = e1 - e2 - 53 + k + 1)).
Proof.
  intros Hd1 Hd2 He. cbn [SFdiv]. rewrite SFdiv_core_normal by (done || lia).
  cbn [xorb].
  pose proof (digits2_pos_spec m1) as H1. pose proof (digits2_pos_spec m2) as H2.
  rewrite Hd1 in H1. rewrite Hd2 in H2. change (53 - 1) with 52 in H1, H2.
  pose proof (new_location_Located (Zpos m1 * 2 ^ 53) (Zpos m2) ltac:(lia) ltac:(lia)) as Hl.
  remember (Zpos m1 * 2 ^ 53 / Zpos m2) as Q eqn:EQ.
  assert (Hqlo : 2 ^ 52 <= Q) by (subst Q; apply Z.div_le_lower_bound; lia).
  assert (Hqhi : Q < 2 ^ 54) by (subst Q; apply Z.div_lt_upper_bound; lia).
  destruct Q as [|q|q]; [lia| |lia].
  destruct (Z.lt_ge_cases (Zpos m1) (Zpos m2)) as [Hlt|Hge].
  - assert (Hq53 : Zpos q < 2 ^ 53).
    { rewrite EQ. apply Z.div_lt_upper_bound; lia. }
    assert (Hdq : Zpos (digits2_pos q) = 53 + 0) by (apply digits2_pos_unique; lia).
    destruct (binary_round_aux_spec false q (e1 - e2 - 53) 0 _ _ _ Hl Hdq
                ltac:(lia) ltac:(lia) ltac:(lia)) as (M & E & M0 & HR & HdM & Hnear & Hform).
    exists M, E, M0, 0. rewrite HR. split; [done|]. split; [done|].
    split; [by left|]. split; [exact Hnear|]. exact Hform.
  - assert (Hq53 : 2 ^ 53 <= Zpos q).
    { rewrite EQ. apply Z.div_le_lower_bound; lia. }
    assert (Hdq : Zpos (digits2_pos q) = 53 + 1) by (apply digits2_pos_unique; lia).
    destruct (binary_round_aux_spec false q (e1 - e2 - 53) 1 _ _ _ Hl Hdq
                ltac:(lia) ltac:(lia) ltac:(lia)) as (M & E & M0 & HR & HdM & Hnear & Hform).
    exists M, E, M0, 1. rewrite HR. split; [done|]. split; [done|].
    split; [by right|]. done.
Qed.

(** The product of a positive normal number and one hundred. *)
Lemma SFmul_100 (m : positive) (e : Z) :
  Zpos (digits2_pos m) = 53 → -900 <= e <= 800 →
  ∃ (M : positive) (E M0 k : Z),
    SFmul prec64 emax64 (S754_finite false m e) (float64_of_int64 100)
    = S754_finite false M E
    ∧ (k = 52 ∧ 25 * Zpos m < 2 ^ 57 ∨ k = 53 ∧ 2 ^ 57 <= 25 * Zpos m)
    ∧ (2 * M0 - 1) * 2 ^ k <= 2 * (Zpos m * (100 * 2 ^ 46)) <= (2 * M0 + 1) * 2 ^ k
    ∧ ((M0 = Zpos M ∧ E = e - 46 + k)
       ∨ (M0 = 2 ^ 53 ∧ Zpos M = 2 ^ 52 ∧ E = e - 46 + k + 1)).
Proof.
  intros Hd He.
  change (float64_of_int64 100) with (S754_finite false 7036874417766400 (-46)).
  cbn [SFmul xorb].
  pose proof (digits2_pos_spec m) as Hm. rewrite Hd in Hm. change (53 - 1) with 52 in Hm.
  set (P := (m * 7036874417766400)%positive).
  assert (HP : Zpos P = Zpos m * (100 * 2 ^ 46)) by (subst P; lia).
  assert (Hl : Located (Zpos P) 1 (Zpos P) loc_Exact).
  { split; [lia|]. split; lia. }
  destruct (Z.lt_ge_cases (25 * Zpos m) (2 ^ 57)) as [Hlt|Hge].
  - assert (Hdq : Zpos (digits2_pos P) = 53 + 52) by (apply digits2_pos_unique; lia).
    destruct (binary_round_aux_spec false P (e + -46) 52 _ _ _ Hl Hdq
                ltac:(lia) ltac:(lia) ltac:(lia)) as (M & E & M0 & HR & HdM & Hnear & Hform).
    exists M, E, M0, 52. rewrite HR. split; [done|].
    split; [by left|]. rewrite Z.mul_1_r, HP in Hnear. split; [done|].
    by replace (e + -46 + 52) with (e - 46 + 52) in Hform by lia.
  - assert (Hdq : Zpos (digits2_pos P) = 53 + 53) by (apply digits2_pos_unique; lia).
    destruct (binary_round_aux_spec false P (e + -46) 53 _ _ _ Hl Hdq
                ltac:(lia) ltac:(lia) ltac:(lia)) as (M & E & M0 & HR & HdM & Hnear & Hform).
    exists M, E, M0, 53. rewrite HR. split; [done|].
    split; [by right|]. rewrite Z.mul_1_r, HP in Hnear. split; [done|].
    by replace (e + -46 + 53) with (e - 46 + 53) in Hform by lia.
Qed.

Lemma pow2_pos (a : Z) : 0 <= a → 0 < 2 ^ a.
Proof. intros. apply Z.pow_pos_nonneg; lia. Qed.

Lemma pow2_split (a b : Z) : 0 <= b <= a → 2 ^ a = 2 ^ b * 2 ^ (a - b).
Proof. intros. rewrite <- Z.pow_add_r by lia. f_equal. lia. Qed.

Lemma pow2_ge (k d : Z) : 0 <= k <= d → 2 ^ k <= 2 ^ d.
Proof. intros. apply Z.pow_le_mono_r; lia. Qed.

(** How the exponents of two normalised integers compare. *)
Lemma scale_order (p t a b : Z) :
  0 < p < t → 0 <= a → 0 <= b →
  2 ^ 52 <= p * 2 ^ a < 2 ^ 53 → 2 ^ 52 <= t * 2 ^ b < 2 ^ 53 →
  b <= a ∧ (t <= 2 * p → a <= b + 1) ∧ (2 * p < t → b + 1 <= a).
Proof.
  intros Hpt Ha Hb Hp Ht.
  pose proof (pow2_pos a Ha) as HA. pose proof (pow2_pos b Hb) as HB.
  assert (Hba : b <= a).
  { destruct (Z.le_gt_cases b a) as [|Hgt]; [done|]. exfalso.
    pose proof (pow2_split b a ltac:(lia)) as Hs.
    pose proof (pow2_ge 1 (b - a) ltac:(lia)) as Hg. change (2 ^ 1) with 2 in Hg.
    nia. }
  split; [done|].
  pose proof (pow2_split a b ltac:(lia)) as Hs.
  split.
  - intros H2. destruct (Z.le_gt_cases a (b + 1)) as [|Hgt]; [done|]. exfalso.
    pose proof (pow2_ge 2 (a - b) ltac:(lia)) as Hg. change (2 ^ 2) with 4 in Hg.
    nia.
  - intros H2. destruct (Z.le_gt_cases (b + 1) a) as [|Hgt]; [done|]. exfalso.
    assert (a = b) as -> by lia. nia.
Qed.

Lemma cancel_scale_le (x y s : Z) : 0 < s → x * s <= y * s → x <= y.
Proof. intros Hs H. by apply (Z.mul_le_mono_pos_r _ _ s). Qed.

(** The quotient of two counts, the first no less than half the second:
    its mantissa is an integer nearest to [p * 2 ^ 53 / t]. *)
Lemma ratio_upper_half (p t : Z) :
  0 < p < t → t < 2 ^ 53 → t <= 2 * p →
  ∃ (M : positive),
    SFdiv prec64 emax64 (float64_of_int64 p) (float64_of_int64 t)
    = S754_finite false M (-53)
    ∧ Zpos (digits2_pos M) = 53
    ∧ (2 * Zpos M - 1) * t <= 2 ^ 54 * p <= (2 * Zpos M + 1) * t.
Proof.
  intros Hpt Ht H2.
  destruct (float64_of_small p ltac:(lia)) as (m1 & a & -> & Ha & Hm1 & Hd1).
  destruct (float64_of_small t ltac:(lia)) as (m2 & b & -> & Hb & Hm2 & Hd2).
  pose proof (digits2_pos_spec m1) as H1. pose proof (digits2_pos_spec m2) as H2'.
  rewrite Hd1 in H1. rewrite Hd2 in H2'. change (53 - 1) with 52 in H1, H2'.
  destruct (scale_order p t a b Hpt Ha Hb ltac:(lia) ltac:(lia)) as (Hba & Hab & _).
  specialize (Hab H2).
  pose proof (pow2_pos b Hb) as HB.
  assert (Hcarry : ∀ M0, (2 * M0 - 1) * t <= 2 ^ 54 * p → M0 ≠ 2 ^ 53).
  { intros M0 Hle ->. lia. }
  assert (a < 53).
  { apply (Z.pow_lt_mono_r_iff 2); [lia..|]. nia. }
  destruct (SFdiv_normal m1 m2 (- a) (- b) Hd1 Hd2 ltac:(lia))
    as (M & E & M0 & k & -> & HdM & Hk & Hnear & Hform).
  assert (Hnear' : (2 * M0 - 1) * t <= 2 ^ 54 * p <= (2 * M0 + 1) * t
                   ∧ - a - - b - 53 + k = -53).
  { destruct (Z.eq_dec a b) as [->|Hne].
    - destruct Hk as [[-> Hlt]|[-> Hge]]; [|nia].
      change (2 ^ 0) with 1 in Hnear. rewrite Hm1, Hm2 in Hnear.
      split; [|lia]. split; apply (cancel_scale_le _ _ (2 ^ b) HB); nia.
    - assert (a = b + 1) as -> by lia.
      assert (HA : 2 ^ (b + 1) = 2 * 2 ^ b) by (rewrite Z.pow_add_r by lia; lia).
      rewrite HA in Hm1.
      destruct Hk as [[-> Hlt]|[-> Hge]]; [nia|].
      change (2 ^ 1) with 2 in Hnear. rewrite Hm1, Hm2 in Hnear.
      split; [|lia]. split; apply (cancel_scale_le _ _ (2 ^ b) HB); nia. }
  destruct Hnear' as [Hn He].
  destruct Hform as [[-> HE]|[Hc _]]; [|by apply Hcarry in Hc; [|apply Hn]].
  exists M. rewrite HE, He. done.
Qed.

(** The quotient of two counts, the first less than half the second, is at
    most one half. *)
Lemma ratio_lower_half (p t : Z) :
  0 < p → 2 * p < t → t < 2 ^ 53 →
  ∃ (M : positive) (E : Z),
    SFdiv prec64 emax64 (float64_of_int64 p) (float64_of_int64 t)
    = S754_finite false M E
    ∧ Zpos (digits2_pos M) = 53
    ∧ -200 <= E
    ∧ (E <= -54 ∨ E = -53 ∧ Zpos M = 2 ^ 52).
Proof.
  intros Hp H2 Ht.
  destruct (float64_of_small p ltac:(lia)) as (m1 & a & -> & Ha & Hm1 & Hd1).
  destruct (float64_of_small t ltac:(lia)) as (m2 & b & -> & Hb & Hm2 & Hd2).
  pose proof (digits2_pos_spec m1) as H1. pose proof (digits2_pos_spec m2) as H2'.
  rewrite Hd1 in H1. rewrite Hd2 in H2'. change (53 - 1) with 52 in H1, H2'.
  destruct (scale_order p t a b ltac:(lia) Ha Hb ltac:(lia) ltac:(lia)) as (Hba & _ & Hab).
  specialize (Hab H2).
  pose proof (pow2_pos b Hb) as HB.
  assert (a < 53).
  { apply (Z.pow_lt_mono_r_iff 2); [lia..|]. nia. }
  destruct (SFdiv_normal m1 m2 (- a) (- b) Hd1 Hd2 ltac:(lia))
    as (M & E & M0 & k & -> & HdM & Hk & Hnear & Hform).
  exists M, E. split; [done|]. split; [done|].
  assert (Hk' : k <= a - b - 1).
  { destruct Hk as [[-> _]|[-> Hge]]; [lia|].
    destruct (Z.eq_dec a (b + 1)) as [->|]; [|lia]. exfalso.
    assert (HA : 2 ^ (b + 1) = 2 * 2 ^ b) by (rewrite Z.pow_add_r by lia; lia).
    rewrite HA in Hm1. nia. }
  assert (0 <= k) by (destruct Hk as [[-> _]|[-> _]]; lia).
  destruct Hform as [[_ ->]|(_ & HM & ->)]; split; lia.
Qed.

(** Below [2 ^ 50] objects the two roundings of the percentage do not move
    it across 60 or 80: the test on [float64] decides the exact
    inequality. *)
Lemma atLeast_percentOf (p t n : Z) :
  0 < p < t → t < 2 ^ 50 → n = 60 ∨ n = 80 →
  atLeast (percentOf p t) n = true ↔ n * t <= 100 * p.
Proof.
  intros Hpt Ht Hn. unfold atLeast, percentOf.
  destruct (Z.le_gt_cases t (2 * p)) as [H2|H2].
  - destruct (ratio_upper_half p t Hpt ltac:(lia) H2) as (M1 & -> & Hd1 & Hnear).
    destruct (SFmul_100 M1 (-53) Hd1 ltac:(lia))
      as (M2 & E2 & M20 & k & -> & Hk & Hn2 & Hform).
    pose proof (digits2_pos_spec M1) as H1. rewrite Hd1 in H1. change (53 - 1) with 52 in H1.
    destruct Hn as [-> | ->].
    + change (float64_of_int64 60) with (S754_finite false 8444249301319680 (-47)).
      rewrite SFleb_normal.
      destruct (Z.le_gt_cases (60 * t) (100 * p)) as [Hle|Hgt].
      * assert (HM : 3 * 2 ^ 54 <= 5 * (2 * Zpos M1 + 1)) by nia.
        split; [done|]. intros _.
        destruct Hk as [[-> Hk]|[-> Hk]], Hform as [[-> ->]|(-> & HM2 & ->)]; lia.
      * assert (HM : 5 * (2 * Zpos M1 - 1) + 16 <= 3 * 2 ^ 54) by nia.
        split; [|lia]. intros HH. exfalso.
        destruct Hk as [[-> Hk]|[-> Hk]], Hform as [[-> ->]|(-> & HM2 & ->)]; lia.
    + change (float64_of_int64 80) with (S754_finite false 5629499534213120 (-46)).
      rewrite SFleb_normal.
      destruct (Z.le_gt_cases (80 * t) (100 * p)) as [Hle|Hgt].
      * assert (HM : 4 * 2 ^ 54 <= 5 * (2 * Zpos M1 + 1)) by nia.
        split; [done|]. intros _.
        destruct Hk as [[-> Hk]|[-> Hk]], Hform as [[-> ->]|(-> & HM2 & ->)]; lia.
      * assert (HM : 5 * (2 * Zpos M1 - 1) + 16 <= 4 * 2 ^ 54) by nia.
        split; [|lia]. intros HH. exfalso.
        destruct Hk as [[-> Hk]|[-> Hk]], Hform as [[-> ->]|(-> & HM2 & ->)]; lia.
  - destruct (ratio_lower_half p t ltac:(lia) ltac:(lia) ltac:(lia))
      as (M1 & E1 & -> & Hd1 & HE1 & Hlow).
    destruct (SFmul_100 M1 E1 Hd1 ltac:(lia))
      as (M2 & E2 & M20 & k & -> & Hk & Hn2 & Hform).
    pose proof (digits2_pos_spec M1) as H1. rewrite Hd1 in H1. change (53 - 1) with 52 in H1.
    split; [|destruct Hn as [-> | ->]; lia].
    intros HH. exfalso.
    destruct Hn as [-> | ->].
    + change (float64_of_int64 60) with (S754_finite false 8444249301319680 (-47)) in HH.
      rewrite SFleb_normal in HH.
      destruct Hk as [[-> Hk]|[-> Hk]], Hform as [[-> ->]|(-> & HM2 & ->)]; lia.
    + change (float64_of_int64 80) with (S754_finite false 5629499534213120 (-46)) in HH.
      rewrite SFleb_normal in HH.
      destruct Hk as [[-> Hk]|[-> Hk]], Hform as [[-> ->]|(-> & HM2 & ->)]; lia.
Qed.

Lemma atLeast_share (x t n : Z) :
  0 <= x <= t → 0 < t < 2 ^ 50 → n = 60 ∨ n = 80 →
  atLeast (percentOf x t) n = bool_decide (n * t <= 100 * x).
Proof.
  intros Hx Ht Hn.
  assert (Hr : Int64.in_range t)
    by (unfold Int64.in_range, Int64.min_int, Int64.max_int; lia).
  destruct (Z.eq_dec x 0) as [->|H0].
  - rewrite percentOf_zero by (done || lia).
    symmetry. apply bool_decide_eq_false. destruct Hn as [-> | ->]; lia.
  - destruct (Z.eq_dec x t) as [->|Ht'].
    + rewrite percentOf_self by (done || lia).
      by destruct Hn as [-> | ->];
        rewrite bool_decide_eq_true_2 by lia; vm_compute.
    + destruct (bool_decide_reflect (n * t <= 100 * x)) as [Hle|Hgt].
      * by apply atLeast_percentOf; [lia..|done|].
      * apply not_true_is_false. intros Ha. apply Hgt.
        by apply atLeast_percentOf in Ha; [|lia..|done].
Qed.

(** X25. Up to [2 ^ 50] objects the percentages computed on [float64] decide
    as the exact shares do: with class counts that are not negative and
    add up to less than [2 ^ 50], a map that is not empty is Empty when
    the counts are all zero, Mostly Small when four fifths of the objects
    or more are small, otherwise Mostly Medium or Mostly Large when three
    fifths or more are of that class, and Mixed Sizes otherwise. *)
Theorem size_status_by_exact_share (m : gmap string Z) :
  m ≠ ∅ →
  0 <= smallCount m → 0 <= mediumCount m → 0 <= largeCount m →
  smallCount m + mediumCount m + largeCount m < 2 ^ 50 →
  getSizeStatus m = statusByShare (smallCount m) (mediumCount m) (largeCount m).
Proof.
  intros Hne Hs Hm Hl Hsum.
  assert (Hsize : (size m =? 0)%nat = false).
  { apply Nat.eqb_neq. by rewrite map_size_empty_iff. }
  unfold getSizeStatus, statusByShare. rewrite Hsize.
  assert (Ht : Int64.add (Int64.add (smallCount m) (mediumCount m)) (largeCount m)
               = smallCount m + mediumCount m + largeCount m).
  { unfold Int64.add.
    rewrite (Int64Facts.wrap_small (smallCount m + mediumCount m))
      by (unfold Int64.in_range, Int64.min_int, Int64.max_int; lia).
    apply Int64Facts.wrap_small.
    unfold Int64.in_range, Int64.min_int, Int64.max_int; lia. }
  rewrite Ht. cbv zeta.
  set (total := smallCount m + mediumCount m + largeCount m) in *.
  destruct (Z.eqb_spec total 0) as [H0|H0]; case_decide; try done.
  rewrite !atLeast_share by (lia || by auto).
  repeat case_bool_decide; repeat case_decide; done.
Qed.

Lemma size_status_by_exact_share_witness : getSizeStatus fourOfFive = "Mostly Small".
Proof.
  apply (size_status_by_exact_share fourOfFive ltac:(done)); by vm_compute.
Defined.

(** ** The figure printed by [formatBytes] *)

Lemma float64_of_pow2 (j : Z) :
  0 <= j <= 52 →
  float64_of_int64 (2 ^ j) = S754_finite false 4503599627370496 (j - 52).
Proof.
  intros Hj.
  assert (Hlt : 2 ^ j < 2 ^ 53) by (apply Z.pow_lt_mono_r; lia).
  pose proof (pow2_pos j ltac:(lia)) as Hpos.
  destruct (float64_of_small (2 ^ j) ltac:(lia)) as (m & a & -> & Ha & Hm & Hd).
  pose proof (digits2_pos_spec m) as Hs. rewrite Hd in Hs. change (53 - 1) with 52 in Hs.
  rewrite Hm, <- Z.pow_add_r in Hs by lia.
  assert (Hja : j + a = 52).
  { destruct Hs as [Hlo Hhi].
    apply Z.pow_le_mono_r_iff in Hlo; [|lia..].
    apply Z.pow_lt_mono_r_iff in Hhi; [|lia..]. lia. }
  rewrite <- Z.pow_add_r, Hja in Hm by lia.
  change (2 ^ 52) with (Zpos 4503599627370496) in Hm. injection Hm as ->.
  f_equal. lia.
Qed.

(** Dividing a normal number by a power of two only lowers its exponent. *)
Lemma SFdiv_pow2 (m : positive) (e j : Z) :
  Zpos (digits2_pos m) = 53 → -800 <= e - j <= 800 →
  SFdiv prec64 emax64 (S754_finite false m e)
    (S754_finite false 4503599627370496 (j - 52))
  = S754_finite false m (e - j).
Proof.
  intros Hd He.
  pose proof (digits2_pos_spec m) as Hs. rewrite Hd in Hs. change (53 - 1) with 52 in Hs.
  destruct (SFdiv_normal m 4503599627370496 e (j - 52) Hd eq_refl ltac:(lia))
    as (M & E & M0 & k & -> & HdM & Hk & Hnear & Hform).
  change (Zpos 4503599627370496) with (2 ^ 52) in Hk, Hnear.
  destruct Hk as [[-> Hlt]|[-> _]]; [lia|].
  change (2 ^ 1) with 2 in Hnear.
  assert (HM0 : M0 = Zpos m) by lia.
  destruct Hform as [[HM ->]|(HM & _ & _)]; [|lia].
  rewrite HM0 in HM. injection HM as ->. f_equal. lia.
Qed.

Lemma nearestTenths_bounds (n div : Z) :
  0 < div → div <= n < 1024 * div → 10 <= nearestTenths n div <= 10240.
Proof.
  intros Hd Hn. unfold nearestTenths.
  assert (Hq : 10 <= n * 10 / div < 10240).
  { split; [apply Z.div_le_lower_bound; lia|apply Z.div_lt_upper_bound; lia]. }
  destruct (2 * (n * 10 mod div) ?= div); [destruct (Z.even _)|..]; lia.
Qed.

(** [%.1f] of a number held exactly prints the exact tenths. *)
Lemma formatFixed1_exact (m : positive) (n a j : Z) :
  Zpos m = n * 2 ^ a → 0 <= a → 0 < j →
  formatFixed1 (S754_finite false m (- a - j))
  = (formatInt (nearestTenths n (2 ^ j) / 10) ++ "."
     ++ formatInt (nearestTenths n (2 ^ j) mod 10))%string.
Proof.
  intros Hm Ha Hj. unfold formatFixed1.
  destruct (Z.leb_spec 0 (- a - j)) as [|_]; [lia|].
  replace (- (- a - j)) with (j + a) by lia.
  pose proof (pow2_pos a Ha) as HA. pose proof (pow2_pos j ltac:(lia)) as HJ.
  rewrite Z.pow_add_r, Hm by lia.
  replace (n * 2 ^ a * 10) with (n * 10 * 2 ^ a) by lia.
  rewrite Z.div_mul_cancel_r, Z.mul_mod_distr_r by lia.
  replace (2 * (n * 10 mod 2 ^ j * 2 ^ a)) with (2 * (n * 10 mod 2 ^ j) * 2 ^ a) by lia.
  rewrite <- Zmult_compare_compat_r by lia.
  reflexivity.
Qed.

Lemma pow1024 (k : nat) : 1024 ^ Z.of_nat k = 2 ^ (10 * Z.of_nat k).
Proof. change 1024 with (2 ^ 10). by rewrite <- Z.pow_mul_r by lia. Qed.

(** X26. A size from 1024 bytes up to [2 ^ 53] is printed exactly: the
    division by the unit, a power of 1024, loses nothing on [float64], and
    the figure shown is the quotient rounded to tenths, ties to even,
    followed by the letter of the unit.  The figure lies between 1.0 and
    1024.0: a size just under the next unit is shown as 1024.0 of the unit
    below. *)
Theorem formatBytes_exact_tenths (bytes : Z) (exp : nat) (unit : ascii) :
  1024 ^ Z.of_nat (S exp) <= bytes < 1024 ^ Z.of_nat (S (S exp)) →
  bytes < 2 ^ 53 →
  String.get exp "KMGTPE" = Some unit →
  formatBytes bytes
  = (formatInt (nearestTenths bytes (1024 ^ Z.of_nat (S exp)) / 10) ++ "."
     ++ formatInt (nearestTenths bytes (1024 ^ Z.of_nat (S exp)) mod 10)
     ++ " " ++ String unit "B")%string
  ∧ 10 <= nearestTenths bytes (1024 ^ Z.of_nat (S exp)) <= 10240.
Proof.
  intros [Hlo Hhi] H53 Hu.
  assert (Hpos : 0 < 1024 ^ Z.of_nat (S exp)) by (apply Z.pow_pos_nonneg; lia).
  assert (H1024 : 1024 <= 1024 ^ Z.of_nat (S exp)).
  { change 1024 with (1024 ^ 1) at 1. apply Z.pow_le_mono_r; lia. }
  split.
  2:{ apply nearestTenths_bounds; [done|]. split; [done|].
      rewrite (Nat2Z.inj_succ (S exp)), Z.pow_succ_r in Hhi by lia. done. }
  unfold formatBytes. destruct (Z.ltb_spec bytes 1024) as [|_]; [lia|].
  assert (Hfuel : bytes / 1024 < 1024 ^ Z.of_nat 6).
  { apply Z.div_lt_upper_bound; [lia|]. change (1024 ^ Z.of_nat 6) with (2 ^ 60). lia. }
  pose proof (unitLoop_spec bytes 6 1024 0 eq_refl ltac:(lia) Hfuel) as Hspec.
  cbv zeta in Hspec.
  destruct (unitLoop 6 (bytes / 1024) 1024 0) as [div e'].
  cbn [fst snd] in Hspec. destruct Hspec as (Hdiv & Hb & _).
  assert (He : e' = exp).
  { assert (Z.of_nat (S e') < Z.of_nat (S (S exp))).
    { apply (Z.pow_lt_mono_r_iff 1024); lia. }
    assert (Z.of_nat (S exp) < Z.of_nat (S (S e'))).
    { apply (Z.pow_lt_mono_r_iff 1024); [lia..|].
      rewrite (Nat2Z.inj_succ (S e')), Z.pow_succ_r by lia. lia. }
    lia. }
  subst e' div. rewrite Hu.
  rewrite !pow1024 in *.
  set (j := 10 * Z.of_nat (S exp)) in *.
  assert (Hj : 0 < j <= 52).
  { split; [lia|].
    assert (j < 53); [|lia]. apply (Z.pow_lt_mono_r_iff 2); lia. }
  destruct (float64_of_small bytes ltac:(lia)) as (m & a & -> & Ha & Hm & Hd).
  assert (a < 53).
  { pose proof (digits2_pos_spec m) as Hs. rewrite Hd in Hs.
    pose proof (pow2_pos a Ha).
    apply (Z.pow_lt_mono_r_iff 2); [lia..|]. nia. }
  rewrite float64_of_pow2 by lia.
  rewrite SFdiv_pow2 by (done || lia).
  rewrite (formatFixed1_exact m bytes a j Hm Ha) by lia.
  rewrite !string_app_assoc. reflexivity.
Qed.

Lemma formatBytes_exact_tenths_witness : formatBytes 1048575 = "1024.0 KB".
Proof.
  apply (formatBytes_exact_tenths 1048575 0 "K"); [by vm_compute|lia|reflexivity].
Defined.

(** ** Values in scientific notation *)

Lemma isDigit_plain (c : ascii) :
  isDigit c = true →
  Ascii.eqb c "_" = false ∧ Ascii.eqb c "." = false ∧ Ascii.eqb c "-" = false
  ∧ Ascii.eqb c "+" = false ∧ lowerByte c = c.
Proof.
  intros Hc. unfold isDigit, byte_in in Hc. apply andb_true_iff in Hc as [H1 H2].
  apply N.leb_le in H1, H2. simpl in H1, H2.
  repeat split; try (apply Ascii.eqb_neq; intros ->; simpl in *; lia).
  unfold lowerByte, byte_in.
  assert (E : (N_of_ascii c <=? N_of_ascii "Z")%N && (N_of_ascii "A" <=? N_of_ascii c)%N = false).
  { apply andb_false_iff. right. apply N.leb_gt. simpl. lia. }
  unfold byteN in *.
  destruct ((N_of_ascii "A" <=? N_of_ascii c)%N) eqn:E1; [|done].
  apply N.leb_le in E1. simpl in E1. lia.
Qed.

(** The mantissa loop over digits that follow a first digit. *)
Lemma readMantissa_digits (r : string) : ∀ (fp : string) (st : MantState) (D : Z),
  0 < rf_nd st → rf_sawdigits st = true →
  digitsValue (rf_mant st) fp = Some D →
  readMantissa false st (fp ++ String "e" r)
  = ({| rf_mant := D; rf_nd := rf_nd st + Z.of_nat (String.length fp);
        rf_dp := rf_dp st; rf_sawdot := rf_sawdot st; rf_sawdigits := true;
        rf_underscores := rf_underscores st |}, String "e" r).
Proof.
  induction fp as [|c fp IH]; intros st D Hnd Hsd HD.
  - cbn [digitsValue] in HD. injection HD as <-.
    change (("" ++ String "e" r)%string) with (String "e" r).
    cbn [readMantissa String.length]. change (Ascii.eqb "e" "_") with false.
    change (Ascii.eqb "e" ".") with false. change (isDigit "e") with false.
    cbn [andb]. cbv iota. rewrite Z.add_0_r. destruct st. simpl in *. by subst.
  - cbn [digitsValue] in HD. destruct (isDigit c) eqn:Hc; [|done].
    destruct (isDigit_plain c Hc) as (E1 & E2 & _).
    rewrite string_app_cons. cbn [readMantissa]. rewrite E1, E2, Hc.
    assert (Hnz : (rf_nd st =? 0) = false) by (apply Z.eqb_neq; lia).
    rewrite Hnz, andb_false_r.
    rewrite (IH (pushDigit 10 (digitValue c) st) D); [|simpl; lia|done|done].
    cbn [pushDigit rf_nd rf_dp rf_sawdot rf_underscores String.length].
    do 2 f_equal. lia.
Qed.

(** The digits of an exponent below the cap. *)
Lemma readExpDigits_digits (us : bool) : ∀ (xs : string) (e x : Z),
  0 <= e → digitsValue e xs = Some x → x < 10000 →
  readExpDigits e us xs = (x, us, "").
Proof.
  induction xs as [|c xs IH]; intros e x He Hx Hcap.
  - cbn [digitsValue] in Hx. by injection Hx as <-.
  - cbn [digitsValue readExpDigits] in *. destruct (isDigit c) eqn:Hc; [|done].
    pose proof (digitValue_range c Hc) as Hr.
    assert (Hge : e * 10 + digitValue c <= x)
      by (eapply digitsValue_ge; [|exact Hx]; lia).
    destruct (Z.ltb_spec e 10000) as [_|Hbig]; [|lia].
    by apply IH; [lia|..].
Qed.

Lemma digitsValue_stops (c : ascii) (r : string) : ∀ (a : string) (acc : Z),
  isDigit c = false → digitsValue acc (a ++ String c r) = None.
Proof.
  induction a as [|b a IH]; intros acc Hc.
  - change (("" ++ String c r)%string) with (String c r). cbn [digitsValue]. by rewrite Hc.
  - rewrite string_app_cons. cbn [digitsValue]. destruct (isDigit b); [by apply IH|done].
Qed.

Lemma digitsValue_length (s : string) : ∀ (acc v : Z),
  0 <= acc → digitsValue acc s = Some v →
  acc * 10 ^ Z.of_nat (String.length s) <= v.
Proof.
  induction s as [|c s IH]; intros acc v Hacc Hv.
  - cbn [digitsValue] in Hv. injection Hv as <-. simpl. lia.
  - cbn [digitsValue] in Hv. destruct (isDigit c) eqn:Hc; [|done].
    pose proof (digitValue_range c Hc) as Hr.
    apply IH in Hv; [|lia]. cbn [String.length].
    rewrite Nat2Z.inj_succ, Z.pow_succ_r by lia.
    assert (0 < 10 ^ Z.of_nat (String.length s)) by (apply Z.pow_pos_nonneg; lia).
    nia.
Qed.

Lemma digitValue_positive (d : ascii) : isDigit d = true → d ≠ "0"%char → 0 < digitValue d.
Proof.
  intros Hd Hne. pose proof (digitValue_range d Hd) as Hr.
  destruct (Z.eq_dec (digitValue d) 0) as [H0|]; [|lia]. exfalso. apply Hne.
  unfold digitValue, byteN in H0.
  rewrite <- (ascii_N_embedding d). by replace (N_of_ascii d) with 48%N by lia.
Qed.

Lemma readFloat_scientific (d : ascii) (fp xs : string) (D x : Z) :
  d ≠ "0"%char → digitsValue 0 (String d fp) = Some D →
  xs ≠ "" → digitsValue 0 xs = Some x → x < 10000 →
  readFloat (scientific d fp xs)
  = Some {| fl_neg := false; fl_hex := false; fl_mant := D;
            fl_exp := x - Z.of_nat (String.length fp) |}.
Proof.
  intros Hd0 HD Hxs Hx Hcap.
  cbn [digitsValue] in HD. destruct (isDigit d) eqn:Hd; [|done].
  destruct (isDigit_plain d Hd) as (Eus & Edot & Eminus & Eplus & Elow).
  assert (E0 : Ascii.eqb d "0" = false) by (by apply Ascii.eqb_neq).
  pose proof (digitValue_positive d Hd Hd0) as Hdv.
  assert (HDpos : 0 < D).
  { assert (0 * 10 + digitValue d <= D) by (eapply digitsValue_ge; [|exact HD]; lia). lia. }
  destruct xs as [|x0 xs']; [done|].
  assert (Hx0 : isDigit x0 = true).
  { cbn [digitsValue] in Hx. by destruct (isDigit x0). }
  set (st1 := pushDigit 10 (digitValue d) mantStart).
  assert (Hexp : ∀ st r, rf_mant st = D → rf_underscores st = false → rf_sawdigits st = true →
     (if rf_sawdot st then rf_dp st else rf_nd st) = 1 →
     rf_nd st = 1 + Z.of_nat (String.length fp) →
     readMantissa false mantStart (String d r) = (st, String "e" (String "+" (String x0 xs'))) →
     readFloat (String d r)
     = Some {| fl_neg := false; fl_hex := false; fl_mant := D;
               fl_exp := x - Z.of_nat (String.length fp) |}).
  { intros st r HM Hu Hs Hdp Hnd Hread.
    unfold readFloat. rewrite Eminus, Eplus. cbn [orb]. cbv zeta.
    assert (Hhex : (match String d r with
                    | String c0 (String c1 ((String _ _) as tl)) =>
                        if Ascii.eqb c0 "0" && Ascii.eqb (lowerByte c1) "x"
                        then (true, tl) else (false, String d r)
                    | _ => (false, String d r)
                    end) = (false, String d r)).
    { destruct r as [|c1 [|c2 r']]; [done..|]. by rewrite E0. }
    rewrite Hhex, Hread, Hs. cbn [negb]. cbv iota.
    change (lowerByte "e") with "e"%char. change (Ascii.eqb "e" "e") with true. cbv iota.
    change (Ascii.eqb "+" "-") with false. change (Ascii.eqb "+" "+") with true.
    cbn [orb]. cbv iota. rewrite Hx0.
    rewrite (readExpDigits_digits _ _ 0 x ltac:(lia) Hx Hcap), Hu. cbn [andb].
    cbv iota. change (String.eqb "" "") with true. cbn [negb]. cbv iota.
    rewrite HM, Hdp, Hnd. rewrite (proj2 (Z.eqb_neq D 0)) by lia.
    do 2 f_equal. lia. }
  destruct fp as [|f0 fp'].
  - cbn [digitsValue] in HD. injection HD as HD.
    apply (Hexp st1).
    + subst st1. cbn [pushDigit rf_mant mantStart]. lia.
    + done.
    + done.
    + done.
    + done.
    + unfold scientific.
      change (("" ++ String "e" (String "+" (String x0 xs')))%string)
        with (String "e" (String "+" (String x0 xs'))).
      cbn [readMantissa]. rewrite Eus, Edot, Hd, E0. cbn [andb].
      change (Ascii.eqb "e" "_") with false.
      change (Ascii.eqb "e" ".") with false. change (isDigit "e") with false.
      cbn [andb]. done.
  - apply (Hexp {| rf_mant := D; rf_nd := 1 + Z.of_nat (String.length (String f0 fp'));
                   rf_dp := 1; rf_sawdot := true; rf_sawdigits := true;
                   rf_underscores := false |}).
    + done.
    + done.
    + done.
    + done.
    + done.
    + rewrite string_app_cons. cbn [readMantissa].
      rewrite Eus, Edot, Hd, E0. cbn [andb].
      change (Ascii.eqb "." "_") with false. change (Ascii.eqb "." ".") with true.
      cbv iota. cbn [rf_sawdot pushDigit mantStart].
      rewrite (readMantissa_digits _ (String f0 fp') _ D); [done|simpl; lia|done|].
      cbn [markDot rf_mant]. exact HD.
Qed.

(** The binary64 nearest to an integer below [2 ^ 53] is the integer. *)
Lemma float64_of_ratio_int (neg : bool) (V : positive) :
  Zpos V < 2 ^ 53 →
  ∃ (m : positive) (a : Z),
    float64_of_ratio neg V 1 = S754_finite neg m (- a)
    ∧ 0 <= a ∧ Zpos m = Zpos V * 2 ^ a.
Proof.
  intros HV. pose proof (digits2_pos_spec V) as Hs.
  pose proof (digits2_pos_bound V 53 HV ltac:(lia)) as Hd.
  unfold float64_of_ratio. cbn [SFdiv]. unfold SFdiv_core_binary. cbn [Zdigits2 digits2_pos].
  set (d := Zpos (digits2_pos V)) in *.
  assert (Hd1 : 1 <= d) by (subst d; lia).
  replace (d + 0 - (1 + 0)) with (d - 1) by lia. rewrite fexp64 by lia.
  change (0 - 0) with 0. rewrite Z.min_l by lia.
  replace (0 - (d - 1 - 53)) with (54 - d) by lia.
  destruct (54 - d) as [|s|s] eqn:Es; [lia| |lia].
  match goal with
  | |- context [IntDef.Z.div_eucl ?a ?b] =>
      change (IntDef.Z.div_eucl a b) with (Z.div_eucl (Z.shiftl (Zpos V) (Zpos s)) 1)
  end.
  rewrite Z.shiftl_mul_pow2, div_eucl_div_mod, Z.div_1_r, Z.mod_1_r by lia.
  change (new_location 1 0) with loc_Exact. rewrite xorb_false_r.
  assert (Hpow : 2 ^ Zpos s = 2 * 2 ^ (53 - d)).
  { rewrite <- Es. replace (54 - d) with (Z.succ (53 - d)) by lia.
    by rewrite Z.pow_succ_r by lia. }
  pose proof (pow2_pos (53 - d) ltac:(lia)) as Hp.
  assert (Hsplit : 2 ^ 53 = 2 ^ (d - 1) * (2 * 2 ^ (53 - d))).
  { rewrite <- Z.pow_succ_r, <- Z.pow_add_r by lia. f_equal. lia. }
  assert (Hsplit' : 2 ^ 53 = 2 ^ d * 2 ^ (53 - d)).
  { rewrite <- Z.pow_add_r by lia. f_equal. lia. }
  remember (Zpos V * 2 ^ Zpos s) as Q eqn:EQ.
  destruct Q as [|q|q]; [lia| |lia].
  assert (Hdq : Zpos (digits2_pos q) = 53 + 1).
  { apply digits2_pos_unique. change (53 + 1 - 1) with 53. change (53 + 1) with 54.
    replace (2 ^ 54) with (2 * 2 ^ 53) by done. nia. }
  assert (Hl : Located (Zpos q) 1 (Zpos q) loc_Exact).
  { split; [lia|]. split; lia. }
  destruct (binary_round_aux_spec neg q (d - 1 - 53) 1 _ _ _ Hl Hdq
              ltac:(lia) ltac:(lia) ltac:(lia)) as (M & E & M0 & -> & HdM & Hnear & Hform).
  change (2 ^ 1) with 2 in Hnear.
  assert (HM0 : M0 = Zpos V * 2 ^ (53 - d)) by nia.
  assert (HM0' : M0 < 2 ^ 53) by nia.
  destruct Hform as [[HM ->]|(HM & _ & _)]; [|lia].
  exists M, (53 - d). split; [f_equal; lia|]. split; [lia|]. lia.
Qed.

Lemma truncToZero_exact (m : positive) (a V : Z) :
  0 <= a → Zpos m = V * 2 ^ a → truncToZero (S754_finite false m (- a)) = Some V.
Proof.
  intros Ha Hm. unfold truncToZero. pose proof (pow2_pos a Ha) as Hp.
  destruct (Z.leb_spec 0 (- a)) as [H0|H0].
  - assert (a = 0) as -> by lia. f_equal. change (2 ^ (- 0)) with 1.
    change (2 ^ 0) with 1 in Hm. lia.
  - rewrite Z.opp_involutive, Hm, Z.div_mul by lia. done.
Qed.

Lemma special_digit (d : ascii) (r : string) : isDigit d = true → special (String d r) = None.
Proof.
  intros Hd. destruct (isDigit_plain d Hd) as (_ & _ & Eminus & Eplus & Elow).
  assert (Ei : Ascii.eqb d "i" = false ∧ Ascii.eqb d "n" = false).
  { unfold isDigit, byte_in in Hd. apply andb_true_iff in Hd as [H1 H2].
    apply N.leb_le in H1, H2. simpl in H1, H2.
    split; apply Ascii.eqb_neq; intros ->; simpl in *; lia. }
  destruct Ei as [Ei En].
  unfold special, isInfWord. rewrite Eplus, Eminus. cbn [orb lowerString String.eqb].
  by rewrite Elow, Ei, En.
Qed.

Lemma noSpace_digits (b : string) : ∀ (a : string) (acc v : Z),
  digitsValue acc a = Some v → noSpace b = true → noSpace (a ++ b) = true.
Proof.
  induction a as [|c a IH]; intros acc v Hv Hb; [done|].
  cbn [digitsValue] in Hv. destruct (isDigit c) eqn:Hc; [|done].
  rewrite string_app_cons. cbn [noSpace].
  rewrite (spaceWidth_digit c _ Hc). simpl. by eapply IH.
Qed.

Lemma scientific_shape (d : ascii) (fp xs : string) (D x : Z) :
  digitsValue 0 (String d fp) = Some D → digitsValue 0 xs = Some x →
  noSpace (scientific d fp xs) = true
  ∧ decimalInteger (scientific d fp xs) = None.
Proof.
  intros HD Hx.
  assert (Hd : isDigit d = true).
  { cbn [digitsValue] in HD. by destruct (isDigit d). }
  destruct (isDigit_plain d Hd) as (_ & _ & Eminus & Eplus & _).
  assert (Htail : noSpace (String "e" (String "+" xs)) = true).
  { cbn [noSpace]. rewrite (digitsValue_noSpace xs 0 x Hx), !andb_true_r.
    by destruct xs as [|c1 [|c2 r]]. }
  split.
  - unfold scientific. cbn [noSpace]. rewrite (spaceWidth_digit d _ Hd). cbn [Nat.eqb andb].
    destruct fp as [|f0 fp']; [exact Htail|].
    rewrite string_app_cons.
    assert (Hfp : ∃ acc, digitsValue acc (String f0 fp') = Some D).
    { cbn [digitsValue] in HD. rewrite Hd in HD. by eexists. }
    destruct Hfp as [acc Hfp].
    pose proof (noSpace_digits _ _ _ _ Hfp Htail) as Hns.
    cbn [noSpace]. rewrite Hns, andb_true_r.
    by destruct (String f0 fp' ++ String "e" (String "+" xs))%string as [|c1 [|c2 r]].
  - unfold decimalInteger, scientific. rewrite Eplus, Eminus.
    destruct fp as [|f0 fp'].
    + exact (digitsValue_stops "e" _ (String d "") 0 eq_refl).
    + exact (digitsValue_stops "." _ (String d "") 0 eq_refl).
Qed.

(** X27. Scientific notation is read exactly.  A value written as a digit
    other than zero, further digits after a point if there are any, and
    an exponent after [e+] that is at least the number of those digits,
    denotes an integer; when the integer is below [2 ^ 53], [extractValue]
    returns it, the integer parse having refused the token. *)
Theorem extractValue_reads_scientific (pre : string) (d : ascii) (fp xs : string) (D x : Z) :
  d ≠ "0"%char → digitsValue 0 (String d fp) = Some D →
  xs ≠ "" → digitsValue 0 xs = Some x →
  Z.of_nat (String.length fp) <= x →
  D * 10 ^ (x - Z.of_nat (String.length fp)) < 2 ^ 53 →
  snd (ParseInt (scientific d fp xs)) ≠ None
  ∧ extractValue (pre ++ String " " (scientific d fp xs))
    = D * 10 ^ (x - Z.of_nat (String.length fp))
  ∧ extractValue (scientific d fp xs) = D * 10 ^ (x - Z.of_nat (String.length fp)).
Proof.
  intros Hd0 HD Hxs Hx Hlen HV.
  set (n := x - Z.of_nat (String.length fp)) in *.
  destruct (scientific_shape d fp xs D x HD Hx) as [Hns Hdec].
  assert (Hd : isDigit d = true).
  { cbn [digitsValue] in HD. by destruct (isDigit d). }
  pose proof (digitValue_positive d Hd Hd0) as Hdv.
  assert (HDlo : 10 ^ Z.of_nat (String.length fp) <= D).
  { cbn [digitsValue] in HD. rewrite Hd in HD.
    assert (Hl : (0 * 10 + digitValue d) * 10 ^ Z.of_nat (String.length fp) <= D)
      by (apply digitsValue_length; [lia|exact HD]).
    assert (0 < 10 ^ Z.of_nat (String.length fp)) by (apply Z.pow_pos_nonneg; lia).
    nia. }
  assert (Hpn : 0 < 10 ^ n) by (apply Z.pow_pos_nonneg; lia).
  assert (Hpl : 0 < 10 ^ Z.of_nat (String.length fp)) by (apply Z.pow_pos_nonneg; lia).
  assert (Hcap : x < 10000).
  { assert (H10 : 10 ^ x < 10 ^ 16).
    { replace x with (Z.of_nat (String.length fp) + n) by lia.
      rewrite Z.pow_add_r by lia. change (10 ^ 16) with 10000000000000000.
      change (2 ^ 53) with 9007199254740992 in HV. nia. }
    apply Z.pow_lt_mono_r_iff in H10; lia. }
  assert (Hint : ∃ v e, ParseInt (scientific d fp xs) = (v, Some e)).
  { destruct (ParseInt (scientific d fp xs)) as [v [e|]] eqn:E; [by eauto|].
    apply ParseInt_spec in E as [E _]. by rewrite Hdec in E. }
  destruct Hint as (vi & ei & Hint).
  assert (Hfloat : ∃ m a, ParseFloat (scientific d fp xs) = (S754_finite false m (- a), None)
                          ∧ 0 <= a ∧ Zpos m = D * 10 ^ n * 2 ^ a).
  { unfold ParseFloat. unfold scientific at 1. rewrite (special_digit d _ Hd).
    rewrite (readFloat_scientific d fp xs D x Hd0 HD Hxs Hx Hcap).
    cbn [fl_neg fl_hex fl_mant fl_exp]. fold n.
    unfold float64_of_scaled.
    destruct D as [|p|p] eqn:ED; [lia| |lia].
    destruct (Z.leb_spec 0 n) as [_|]; [|lia].
    destruct (float64_of_ratio_int false (Z.to_pos (Zpos p * 10 ^ n)))
      as (m & a & -> & Ha & Hm); [rewrite Z2Pos.id by lia; lia|].
    rewrite Z2Pos.id in Hm by lia. by exists m, a. }
  destruct Hfloat as (m & a & Hfloat & Ha & Hm).
  assert (Hne : scientific d fp xs ≠ "") by done.
  assert (Hval : float64_to_int64 (S754_finite false m (- a)) = D * 10 ^ n).
  { unfold float64_to_int64. rewrite (truncToZero_exact m a (D * 10 ^ n) Ha Hm).
    assert (Hr : Int64.in_rangeb (D * 10 ^ n) = true).
    { unfold Int64.in_rangeb, Int64.min_int, Int64.max_int.
      apply andb_true_iff. split; apply Z.leb_le; nia. }
    by rewrite Hr. }
  split; [by rewrite Hint|].
  unfold extractValue, Fields. split.
  - rewrite (last_field pre _ 0 "" Hne Hns eq_refl). by rewrite Hint, Hfloat.
  - rewrite splitFields_noSpace by done.
    change (("" ++ scientific d fp xs)%string) with (scientific d fp xs).
    rewrite flushField_nonempty by done. cbn [last]. by rewrite Hint, Hfloat.
Qed.

Lemma extractValue_reads_scientific_witness :
  extractValue ("minio_cluster_usage_total_bytes" ++ String " " "1.4371253755e+11")
  = 143712537550.
Proof.
  apply (extractValue_reads_scientific "minio_cluster_usage_total_bytes"
           "1" "4371253755" "11" 14371253755 11);
    first [done | by vm_compute].
Defined.
